(** * Teact core (src/lib/teact/teact.ts): a shallow embedding

    The module keeps its state in module-level variables and in shared
    component instance objects, and it calls back into user code (render
    functions, effect callbacks, [onUpdate]).  The embedding therefore is
    a state-and-exception monad over a [World] that holds the module
    variables, the store of instance objects and the heap of other
    objects; user code is a parameter of the development.

    Build-time constants: [DEBUG] and [DEBUG_MORE] come from [config],
    which is not part of the sources at hand; the embedding is the
    production build, where both are [false] and the instrumentation
    branches of [renderComponent] are dead code. *)

From stdpp Require Import gmap strings list fin_maps pretty sorting.

Set Default Proof Using "Type".
Open Scope Z_scope.

(** ** JavaScript values *)

(** A JS number, which is an IEEE double.  [NaN] is kept apart because
    [===] is not reflexive on it.  [Num z] is the integer [z], for the
    integers that are doubles.  [NonInt repr] is any other number (a
    fraction, an infinity), given by the text [String(n)], which
    identifies it.  The runtime never computes with these numbers: it
    compares them with [===], tests them for truth and prints them. *)
Inductive number : Type :=
  | NaN
  | Num (z : Z)
  | NonInt (repr : string).

(** A reference to a function object; two references are [===] exactly
    when they are the same number. *)
Definition FnRef := nat.

(** The values of type [any]: primitives, and references to objects. *)
Inductive value : Type :=
  | VUndefined
  | VNull
  | VBool (b : bool)
  | VNumber (n : number)
  | VString (s : string)
  | VObject (r : nat).

#[global] Instance number_eq_dec : EqDecision number.
Proof. solve_decision. Defined.
#[global] Instance value_eq_dec : EqDecision value.
Proof. solve_decision. Defined.

(** [a === b] *)
Definition strict_eq (a b : value) : bool :=
  match a, b with
  | VUndefined, VUndefined => true
  | VNull, VNull => true
  | VBool x, VBool y => bool_decide (x = y)
  | VNumber (Num x), VNumber (Num y) => bool_decide (x = y)
  | VNumber (NonInt x), VNumber (NonInt y) => bool_decide (x = y)
  | VString x, VString y => bool_decide (x = y)
  | VObject x, VObject y => bool_decide (x = y)
  | _, _ => false
  end.

(** [a !== b] *)
Definition strict_neq (a b : value) : bool := negb (strict_eq a b).

(** ToBoolean, as used by [&&] and [!]. *)
Definition truthy (v : value) : bool :=
  match v with
  | VUndefined | VNull => false
  | VBool b => b
  | VNumber NaN => false
  | VNumber (Num z) => negb (bool_decide (z = 0))
  | VNumber (NonInt _) => true
  | VString s => negb (bool_decide (s = EmptyString))
  | VObject _ => true
  end.

(** [Props = AnyLiteral]: an object used as a string-keyed map. *)
Abbreviation Props := (gmap string value).

(** [obj.key] on an object literal: [undefined] when the key is absent. *)
Definition prop (p : Props) (k : string) : value := default VUndefined (p !! k).

(** ** The virtual element model *)

(** One constructor per interface of the tagged union [VirtualElement];
    the [type] field is the constructor.  Children are references to
    element objects on the heap.  The optional [target] field belongs to
    the DOM patcher and is never read or written by this module.  The
    [props] of a component element are a copy of the instance's [props]
    field, which [helpGc] may have set to [undefined]. *)
Inductive VirtualElement : Type :=
  | VirtualElementEmpty
  | VirtualElementText (value : string)
  | VirtualElementTag (tag : string) (props : Props) (children : list nat)
  | VirtualElementComponent (componentInstance : nat) (props : option Props)
      (children : list nat)
  | VirtualElementFragment (children : list nat).

Inductive VirtualElementTypesEnum : Type :=
  | Empty | Text | Tag | Component | Fragment.

#[global] Instance VirtualElementTypesEnum_eq_dec :
  EqDecision VirtualElementTypesEnum.
Proof. solve_decision. Defined.

Definition type_of (e : VirtualElement) : VirtualElementTypesEnum :=
  match e with
  | VirtualElementEmpty => Empty
  | VirtualElementText _ => Text
  | VirtualElementTag _ _ _ => Tag
  | VirtualElementComponent _ _ _ => Component
  | VirtualElementFragment _ => Fragment
  end.

Definition isEmptyElement (e : VirtualElement) : bool :=
  bool_decide (type_of e = Empty).
Definition isTextElement (e : VirtualElement) : bool :=
  bool_decide (type_of e = Text).
Definition isTagElement (e : VirtualElement) : bool :=
  bool_decide (type_of e = Tag).
Definition isComponentElement (e : VirtualElement) : bool :=
  bool_decide (type_of e = Component).
Definition isFragmentElement (e : VirtualElement) : bool :=
  bool_decide (type_of e = Fragment).
Definition isParentElement (e : VirtualElement) : bool :=
  isTagElement e || isComponentElement e || isFragmentElement e.

Definition children_of (e : VirtualElement) : list nat :=
  match e with
  | VirtualElementTag _ _ cs
  | VirtualElementComponent _ _ cs
  | VirtualElementFragment cs => cs
  | _ => []
  end.

(** What a reference can point at: a virtual element, an array, or any
    other object (a props literal, a DOM node, ...). *)
Inductive HeapObj : Type :=
  | OElement (e : VirtualElement)
  | OArray (items : list value)
  | OOther.

(** ** Component instances *)

Record HookList (A : Type) : Type := mkHookList {
  cursor : Z;
  byCursor : list A
}.
Arguments mkHookList {A} _ _.
Arguments cursor {A} _.
Arguments byCursor {A} _.

Record StateHook : Type := mkStateHook {
  st_value : value;
  st_nextValue : value;
  st_setter : option FnRef
}.

Record EffectHook : Type := mkEffectHook {
  ef_dependencies : option (list value);
  ef_schedule : option FnRef;
  ef_cleanup : option FnRef;
  ef_releaseSignals : option FnRef
}.

Record MemoHook : Type := mkMemoHook {
  mm_value : value;
  mm_dependencies : option (list value)
}.

Record RefHook : Type := mkRefHook {
  rf_current : value
}.

Record Hooks : Type := mkHooks {
  state : HookList StateHook;
  effects : HookList EffectHook;
  memos : HookList MemoHook;
  refs : HookList RefHook
}.

(** [interface ComponentInstance].  A field that the code sets to
    [undefined] ([helpGc] does so with [undefined as any]) is an option
    here; [_element] is the field [$element]. *)
Record ComponentInstance : Type := mkInstance {
  id : Z;
  _element : option nat;
  Component_ : option FnRef;
  name : string;
  props : option Props;
  renderedValue : value;
  isMounted : bool;
  hooks : option Hooks;
  prepareForFrame : option FnRef;
  forceUpdate : option FnRef;
  onUpdate : option FnRef
}.

Definition set_element (e : option nat) (i : ComponentInstance) :=
  mkInstance (id i) e (Component_ i) (name i) (props i) (renderedValue i)
    (isMounted i) (hooks i) (prepareForFrame i) (forceUpdate i) (onUpdate i).
Definition set_Component (f : option FnRef) (i : ComponentInstance) :=
  mkInstance (id i) (_element i) f (name i) (props i) (renderedValue i)
    (isMounted i) (hooks i) (prepareForFrame i) (forceUpdate i) (onUpdate i).
Definition set_props (p : option Props) (i : ComponentInstance) :=
  mkInstance (id i) (_element i) (Component_ i) (name i) p (renderedValue i)
    (isMounted i) (hooks i) (prepareForFrame i) (forceUpdate i) (onUpdate i).
Definition set_renderedValue (v : value) (i : ComponentInstance) :=
  mkInstance (id i) (_element i) (Component_ i) (name i) (props i) v
    (isMounted i) (hooks i) (prepareForFrame i) (forceUpdate i) (onUpdate i).
Definition set_isMounted (b : bool) (i : ComponentInstance) :=
  mkInstance (id i) (_element i) (Component_ i) (name i) (props i)
    (renderedValue i) b (hooks i) (prepareForFrame i) (forceUpdate i)
    (onUpdate i).
Definition set_hooks (h : option Hooks) (i : ComponentInstance) :=
  mkInstance (id i) (_element i) (Component_ i) (name i) (props i)
    (renderedValue i) (isMounted i) h (prepareForFrame i) (forceUpdate i)
    (onUpdate i).
Definition set_onUpdate (f : option FnRef) (i : ComponentInstance) :=
  mkInstance (id i) (_element i) (Component_ i) (name i) (props i)
    (renderedValue i) (isMounted i) (hooks i) (prepareForFrame i)
    (forceUpdate i) f.

Definition set_state (s : HookList StateHook) (h : Hooks) :=
  mkHooks s (effects h) (memos h) (refs h).
Definition set_effects (s : HookList EffectHook) (h : Hooks) :=
  mkHooks (state h) s (memos h) (refs h).
Definition set_memos (s : HookList MemoHook) (h : Hooks) :=
  mkHooks (state h) (effects h) s (refs h).
Definition set_refs (s : HookList RefHook) (h : Hooks) :=
  mkHooks (state h) (effects h) (memos h) s.

Definition set_cursor {A} (c : Z) (l : HookList A) : HookList A :=
  mkHookList c (byCursor l).
Definition set_byCursor {A} (b : list A) (l : HookList A) : HookList A :=
  mkHookList (cursor l) b.

(** ** The world: module-level variables and the object stores *)

(** A JS [Set] iterates in insertion order and holds no value twice, a JS
    [Map] likewise for its keys; both are lists here. *)
Record World : Type := mkWorld {
  lastComponentId : Z;
  renderingInstance : option nat;
  instancesPendingUpdate : list nat;
  idsToExcludeFromUpdate : list Z;
  pendingEffects : list (string * FnRef);
  pendingCleanups : list (string * FnRef);
  pendingLayoutEffects : list (string * FnRef);
  pendingLayoutCleanups : list (string * FnRef);
  areImmediateEffectsPending : bool;
  (* every ComponentInstance object, by reference; allocation appends *)
  instances : list ComponentInstance;
  (* every other object, by reference; allocation appends *)
  heap : list HeapObj;
  (* the lines written with console.error *)
  console : list string
}.

(** Assignment to one module variable (or store), the rest unchanged. *)
Definition set_lastComponentId (x : Z) (w : World) : World :=
  mkWorld x (renderingInstance w) (instancesPendingUpdate w)
    (idsToExcludeFromUpdate w) (pendingEffects w) (pendingCleanups w)
    (pendingLayoutEffects w) (pendingLayoutCleanups w)
    (areImmediateEffectsPending w) (instances w) (heap w) (console w).
Definition set_renderingInstance (x : option nat) (w : World) : World :=
  mkWorld (lastComponentId w) x (instancesPendingUpdate w)
    (idsToExcludeFromUpdate w) (pendingEffects w) (pendingCleanups w)
    (pendingLayoutEffects w) (pendingLayoutCleanups w)
    (areImmediateEffectsPending w) (instances w) (heap w) (console w).
Definition set_instancesPendingUpdate (x : list nat) (w : World) : World :=
  mkWorld (lastComponentId w) (renderingInstance w) x
    (idsToExcludeFromUpdate w) (pendingEffects w) (pendingCleanups w)
    (pendingLayoutEffects w) (pendingLayoutCleanups w)
    (areImmediateEffectsPending w) (instances w) (heap w) (console w).
Definition set_idsToExcludeFromUpdate (x : list Z) (w : World) : World :=
  mkWorld (lastComponentId w) (renderingInstance w) (instancesPendingUpdate
    w) x (pendingEffects w) (pendingCleanups w) (pendingLayoutEffects w)
    (pendingLayoutCleanups w) (areImmediateEffectsPending w) (instances w)
    (heap w) (console w).
Definition set_pendingEffects (x : list (string * FnRef)) (w : World) : World :=
  mkWorld (lastComponentId w) (renderingInstance w) (instancesPendingUpdate
    w) (idsToExcludeFromUpdate w) x (pendingCleanups w)
    (pendingLayoutEffects w) (pendingLayoutCleanups w)
    (areImmediateEffectsPending w) (instances w) (heap w) (console w).
Definition set_pendingCleanups (x : list (string * FnRef)) (w : World) : World :=
  mkWorld (lastComponentId w) (renderingInstance w) (instancesPendingUpdate
    w) (idsToExcludeFromUpdate w) (pendingEffects w) x (pendingLayoutEffects
    w) (pendingLayoutCleanups w) (areImmediateEffectsPending w) (instances
    w) (heap w) (console w).
Definition set_pendingLayoutEffects (x : list (string * FnRef)) (w : World) : World :=
  mkWorld (lastComponentId w) (renderingInstance w) (instancesPendingUpdate
    w) (idsToExcludeFromUpdate w) (pendingEffects w) (pendingCleanups w) x
    (pendingLayoutCleanups w) (areImmediateEffectsPending w) (instances w)
    (heap w) (console w).
Definition set_pendingLayoutCleanups (x : list (string * FnRef)) (w : World) : World :=
  mkWorld (lastComponentId w) (renderingInstance w) (instancesPendingUpdate
    w) (idsToExcludeFromUpdate w) (pendingEffects w) (pendingCleanups w)
    (pendingLayoutEffects w) x (areImmediateEffectsPending w) (instances w)
    (heap w) (console w).
Definition set_areImmediateEffectsPending (x : bool) (w : World) : World :=
  mkWorld (lastComponentId w) (renderingInstance w) (instancesPendingUpdate
    w) (idsToExcludeFromUpdate w) (pendingEffects w) (pendingCleanups w)
    (pendingLayoutEffects w) (pendingLayoutCleanups w) x (instances w) (heap
    w) (console w).
Definition set_instances (x : list ComponentInstance) (w : World) : World :=
  mkWorld (lastComponentId w) (renderingInstance w) (instancesPendingUpdate
    w) (idsToExcludeFromUpdate w) (pendingEffects w) (pendingCleanups w)
    (pendingLayoutEffects w) (pendingLayoutCleanups w)
    (areImmediateEffectsPending w) x (heap w) (console w).
Definition set_heap (x : list HeapObj) (w : World) : World :=
  mkWorld (lastComponentId w) (renderingInstance w) (instancesPendingUpdate
    w) (idsToExcludeFromUpdate w) (pendingEffects w) (pendingCleanups w)
    (pendingLayoutEffects w) (pendingLayoutCleanups w)
    (areImmediateEffectsPending w) (instances w) x (console w).
Definition set_console (x : list string) (w : World) : World :=
  mkWorld (lastComponentId w) (renderingInstance w) (instancesPendingUpdate
    w) (idsToExcludeFromUpdate w) (pendingEffects w) (pendingCleanups w)
    (pendingLayoutEffects w) (pendingLayoutCleanups w)
    (areImmediateEffectsPending w) (instances w) (heap w) x.

(** ** User code *)

(** The outcome of a call: a normal return, or an exception thrown. *)
Inductive Res (A : Type) : Type :=
  | Ok (a : A)
  | Throw.
Arguments Ok {A} _.
Arguments Throw {A}.

(** The functions the runtime calls but does not define.  A call may
    change the world in any way and may throw.
    - [call_Component f props] is [Component(props)] for the render
      function [f]; it returns the raw render output;
    - [call_callback f] is [f()] for an effect, a cleanup, a
      [releaseSignals] or an [onUpdate] callback (a returned value is
      ignored by every caller in this module);
    - [function_name f] is [f.name];
    - [objectToString h r] is [String(o)] for the object at reference
      [r], which runs the object's own [toString] or [valueOf]; it
      throws a [TypeError] for an object that has neither, such as one
      with a [null] prototype or a module namespace, and it throws what
      these methods throw.  The methods are taken to read the objects
      and to write nothing;
    - [numberToString z] is [String(z)] for an integer beyond the safe
      integers, where the engine prints the shortest decimal form that
      identifies the double, with an exponent from 10^21 on. *)
Record UserCode : Type := mkUserCode {
  call_Component : FnRef -> option Props -> World -> Res value * World;
  call_callback : FnRef -> World -> Res unit * World;
  function_name : FnRef -> string;
  objectToString : list HeapObj -> nat -> Res string;
  numberToString : Z -> string
}.

(** ** The monad of the runtime *)

(** What the runtime itself did, in order: a ghost record that user code
    cannot touch.  [EvComponent c f]: the render function [f] of
    instance [c] was called; [EvCallback f]: an effect or cleanup
    callback was called; [EvOnUpdate c f]: [onUpdate] of [c] was called;
    [EvPrepare c] and [EvForceUpdate c]: the frame pass called
    [prepareComponentForFrame] and [forceUpdateComponent] on [c]. *)
Inductive Event : Type :=
  | EvComponent (c : nat) (f : FnRef)
  | EvCallback (f : FnRef)
  | EvOnUpdate (c : nat) (f : FnRef)
  | EvPrepare (c : nat)
  | EvForceUpdate (c : nat).

#[global] Instance Event_eq_dec : EqDecision Event.
Proof. solve_decision. Defined.

Record Machine : Type := mkMachine {
  world : World;
  trace : list Event
}.

Definition M (A : Type) : Type := Machine -> Res A * Machine.

Definition ret {A} (a : A) : M A := fun m => (Ok a, m).

Definition bind {A B} (x : M A) (k : A -> M B) : M B :=
  fun m =>
    match x m with
    | (Ok a, m') => k a m'
    | (Throw, m') => (Throw, m')
    end.

Declare Scope teact_scope.
Delimit Scope teact_scope with teact.
Notation "x <- m ;; k" := (bind m (fun x => k))
  (at level 100, m at next level, right associativity) : teact_scope.
Notation "m ;; k" := (bind m (fun _ => k))
  (at level 100, right associativity) : teact_scope.
Open Scope teact_scope.

(** [throw], here always a [TypeError] raised by the runtime itself when
    it reads a property of [undefined] or calls a non-function. *)
Definition throw {A} : M A := fun m => (Throw, m).

Definition get : M World := fun m => (Ok (world m), m).

Definition modify (f : World -> World) : M unit :=
  fun m => (Ok tt, mkMachine (f (world m)) (trace m)).

Definition log (e : Event) : M unit :=
  fun m => (Ok tt, mkMachine (world m) (trace m ++ [e])).

(** A call into user code: it sees and changes the world, not the trace. *)
Definition user {A} (f : World -> Res A * World) : M A :=
  fun m => let '(r, w) := f (world m) in (r, mkMachine w (trace m)).

(** [try { body } catch { handler }] *)
Definition try_catch {A} (body : M A) (handler : M A) : M A :=
  fun m =>
    match body m with
    | (Ok a, m') => (Ok a, m')
    | (Throw, m') => handler m'
    end.

(** [l.forEach(f)] for an array or a Map that [f] cannot reach. *)
Fixpoint forEach {A} (f : A -> M unit) (l : list A) : M unit :=
  match l with
  | [] => ret tt
  | x :: l' => f x ;; forEach f l'
  end.

(** Reading through an instance reference.  Every reference the runtime
    holds points at a live object, so the failure branch is never taken
    from a well-formed world; it is a [throw] to keep the model total. *)
Definition getInstance (c : nat) : M ComponentInstance :=
  w <- get ;;
  match instances w !! c with
  | Some i => ret i
  | None => throw
  end.

(** A field assignment [componentInstance.f = ...]. *)
Definition updInstance (c : nat) (f : ComponentInstance -> ComponentInstance)
  : M unit :=
  i <- getInstance c ;;
  modify (fun w => set_instances (<[c := f i]> (instances w)) w).

(** Allocation of a new object; the result is its reference. *)
Definition alloc (o : HeapObj) : M nat :=
  w <- get ;;
  modify (set_heap (heap w ++ [o])) ;;
  ret (length (heap w)).

(** [s.has(x)] and [s.add(x)] for a [Set]. *)
Definition Set_has {A} `{EqDecision A} (s : list A) (x : A) : bool :=
  bool_decide (x ∈ s).
Definition Set_add {A} `{EqDecision A} (s : list A) (x : A) : list A :=
  if Set_has s x then s else s ++ [x].

(** [m.set(k, v)] for a [Map<string, _>]: a present key keeps its place. *)
Fixpoint Map_set {V} (m : list (string * V)) (k : string) (v : V)
  : list (string * V) :=
  match m with
  | [] => [(k, v)]
  | (k', v') :: m' =>
      if bool_decide (k' = k) then (k, v) :: m' else (k', v') :: Map_set m' k v
  end.

Definition allocInstance (i : ComponentInstance) : M nat :=
  w <- get ;;
  modify (set_instances (instances w ++ [i])) ;;
  ret (length (instances w)).

(** [arr.map(f)] with an allocating [f]. *)
Fixpoint mapM {A B} (f : A -> M B) (l : list A) : M (list B) :=
  match l with
  | [] => ret []
  | x :: l' => y <- f x ;; ys <- mapM f l' ;; ret (y :: ys)
  end.

(** ** The element builder *)

Definition isEmptyPlaceholder (child : value) : bool :=
  strict_eq child (VBool false) || strict_eq child VNull
  || strict_eq child VUndefined.

(** The [for] loop of [dropEmptyTail]: [n] is [i + 1]; the loop runs down
    from [i = children.length - 1], stops at the first child that is not
    a placeholder, and the result is the final [i] ([-1] when it ran off
    the front). *)
Fixpoint dropEmptyTail_loop (children : list value) (n : nat) : Z :=
  match n with
  | O => -1
  | S k =>
      if isEmptyPlaceholder (default VUndefined (children !! k))
      then dropEmptyTail_loop children k
      else Z.of_nat k
  end.

(** [children.slice(0, e)] for [e >= 0]. *)
Definition slice0 {A} (l : list A) (e : Z) : list A := take (Z.to_nat e) l.

Definition dropEmptyTail (children : list value) (noEmpty : bool) : list value :=
  let i := dropEmptyTail_loop children (length children) in
  if bool_decide (i = Z.of_nat (length children) - 1) then children
  else if bool_decide (i = -1) && noEmpty then slice0 children 1
  else slice0 children (i + 1).

(** The element a value is, when it is a reference to one. *)
Definition as_element (h : list HeapObj) (v : value) : option VirtualElement :=
  match v with
  | VObject r => match h !! r with Some (OElement e) => Some e | _ => None end
  | _ => None
  end.

(** [Array.isArray(v)], with the items. *)
Definition as_array (h : list HeapObj) (v : value) : option (list value) :=
  match v with
  | VObject r => match h !! r with Some (OArray l) => Some l | _ => None end
  | _ => None
  end.

(** [children.flat()]: one level. *)
Definition flat (h : list HeapObj) (children : list value) : list value :=
  mjoin ((fun c => default [c] (as_array h c)) <$> children).

(** [++x] for a number [x] that is an integer: the double nearest to
    [x + 1], the one with the even significand when two are as near.
    Up to 2^53 in absolute value every integer is a double; up to 2^54
    the doubles are the even integers, beyond that multiples of 4 or
    more.  So the sum is exact within the safe integers, and beyond them
    [x + 1] lies half way between [x] and [x + 2], or nearest to [x]. *)
Definition increment (x : Z) : Z :=
  if bool_decide (- 2 ^ 53 <= x < 2 ^ 53) then x + 1
  else if bool_decide (Z.abs x < 2 ^ 54) && Z.odd (x / 2) then x + 2
  else x.

Inductive Source : Type :=
  | SourceTag (tag : string)
  | SourceComponent (f : FnRef)
  | SourceFragment.

Definition emptyHooks : Hooks :=
  mkHooks (mkHookList 0 []) (mkHookList 0 []) (mkHookList 0 [])
    (mkHookList 0 []).

Section Runtime.

Variable U : UserCode.

(** [String(value)]: the text, or the [TypeError] thrown.  A safe
    integer prints as its decimal digits. *)
Definition String_ (h : list HeapObj) (v : value) : Res string :=
  match v with
  | VUndefined => Ok "undefined"%string
  | VNull => Ok "null"%string
  | VBool true => Ok "true"%string
  | VBool false => Ok "false"%string
  | VNumber NaN => Ok "NaN"%string
  | VNumber (Num z) =>
      Ok (if bool_decide (Z.abs z < 2 ^ 53) then pretty z
          else numberToString U z)
  | VNumber (NonInt repr) => Ok repr
  | VString s => Ok s
  | VObject r => objectToString U h r
  end.

Definition buildEmptyElement : M nat := alloc (OElement VirtualElementEmpty).

(** [String(value)] is evaluated while the object literal is built: a
    throw leaves nothing behind. *)
Definition buildTextElement (v : value) : M nat :=
  w <- get ;;
  match String_ (heap w) v with
  | Ok s => alloc (OElement (VirtualElementText s))
  | Throw => throw
  end.

Definition buildChildElement (child : value) : M nat :=
  w <- get ;;
  if isEmptyPlaceholder child then buildEmptyElement
  else
    match child, as_element (heap w) child with
    | VObject r, Some e =>
        if isParentElement e then ret r else buildTextElement child
    | _, _ => buildTextElement child
    end.

Definition buildFragmentElement (children : list value) : M nat :=
  cs <- mapM buildChildElement (dropEmptyTail children true) ;;
  alloc (OElement (VirtualElementFragment cs)).

Definition buildComponentElement (componentInstance : nat)
    (children : list value) : M nat :=
  i <- getInstance componentInstance ;;
  cs <- mapM buildChildElement (dropEmptyTail children true) ;;
  alloc (OElement (VirtualElementComponent componentInstance (props i) cs)).

Definition buildTagElement (tag : string) (props : Props)
    (children : list value) : M nat :=
  cs <- mapM buildChildElement (dropEmptyTail children false) ;;
  alloc (OElement (VirtualElementTag tag props cs)).

(** The array [children] becomes reachable from a value only as the
    [children] prop of two or more children, so it is put on the heap
    there.  The result is [componentInstance.$element], just assigned. *)
Definition createComponentInstance (Component : FnRef) (props : Props)
    (children : list value) : M nat :=
  parsedChildren <-
    match children with
    | [] => ret VUndefined
    | [x] => ret x
    | _ => r <- alloc (OArray children) ;; ret (VObject r)
    end ;;
  w <- get ;;
  let newId := increment (lastComponentId w) in
  modify (set_lastComponentId newId) ;;
  placeholder <- alloc OOther ;;
  componentInstance <- allocInstance
    {| id := newId;
       _element := Some placeholder;
       Component_ := Some Component;
       name := function_name U Component;
       props :=
         Some (if truthy parsedChildren
               then <["children"%string := parsedChildren]> props
               else props);
       renderedValue := VUndefined;
       isMounted := false;
       hooks := Some emptyHooks;
       prepareForFrame := None;
       forceUpdate := None;
       onUpdate := None |} ;;
  e <- buildComponentElement componentInstance [] ;;
  updInstance componentInstance (set_element (Some e)) ;;
  ret e.

(** [props || {}]: the caller passes [null] for an element without
    props, which is [None] here. *)
Definition createElement (source : Source) (props : option Props)
    (children : list value) : M nat :=
  w <- get ;;
  let children := flat (heap w) children in
  match source with
  | SourceFragment => buildFragmentElement children
  | SourceComponent f => createComponentInstance f (default ∅ props) children
  | SourceTag tag => buildTagElement tag (default ∅ props) children
  end.

(** ** Fault isolation *)

(** Modelled from the spec: [safeExec] of util/safeExec, which is not
    among the sources.  "Invokes the render function under fault
    isolation: if it throws, the error is reported to the diagnostic
    channel and the previously rendered output is reused": the callback
    runs, a throw is caught and handed to [rescue], and nothing
    propagates to the caller. *)
Definition safeExec {A} (cb : M A) (rescue : M A) : M A := try_catch cb rescue.

(** [cb()] for a callback [cb]. *)
Definition callCallback (f : FnRef) : M unit :=
  log (EvCallback f) ;; user (call_callback U f).

(** ** The frame scheduler *)

Definition exclude (x : Z) : M unit :=
  modify (fun w =>
    set_idsToExcludeFromUpdate (Set_add (idsToExcludeFromUpdate w) x) w).

Definition runImmediateEffects : M unit :=
  w <- get ;;
  let currentLayoutCleanups := pendingLayoutCleanups w in
  modify (set_pendingLayoutCleanups []) ;;
  forEach callCallback (currentLayoutCleanups.*2) ;;
  w <- get ;;
  let currentLayoutEffects := pendingLayoutEffects w in
  modify (set_pendingLayoutEffects []) ;;
  forEach callCallback (currentLayoutEffects.*2).

Definition willRunImmediateEffects : M bool :=
  w <- get ;; ret (areImmediateEffectsPending w).

(** ** The render executor *)

Definition resetCursors (h : Hooks) : Hooks :=
  set_refs (set_cursor 0 (refs h))
    (set_memos (set_cursor 0 (memos h))
       (set_effects (set_cursor 0 (effects h))
          (set_state (set_cursor 0 (state h)) h))).

Definition renderError (n : string) : string :=
  "[Teact] Error while rendering component " +:+ n.

(** The local [newRenderedValue] is what [safeExec] yields here: the first
    callback assigns the render output to it, the second the stored one. *)
Definition renderComponent (componentInstance : nat) : M (option nat) :=
  i0 <- getInstance componentInstance ;;
  exclude (id i0) ;;
  let Component := Component_ i0 in
  let props := props i0 in
  newRenderedValue <-
    safeExec
      (modify (set_renderingInstance (Some componentInstance)) ;;
       i <- getInstance componentInstance ;;
       match hooks i with
       | None => throw
       | Some h =>
           updInstance componentInstance (set_hooks (Some (resetCursors h)))
       end ;;
       match Component with
       | None => throw
       | Some f =>
           log (EvComponent componentInstance f) ;;
           user (call_Component U f props)
       end)
      (i <- getInstance componentInstance ;;
       modify (fun w => set_console (console w ++ [renderError (name i)]) w) ;;
       ret (renderedValue i)) ;;
  i1 <- getInstance componentInstance ;;
  if isMounted i1 && strict_eq newRenderedValue (renderedValue i1)
  then ret (_element i1)
  else
    updInstance componentInstance (set_renderedValue newRenderedValue) ;;
    w <- get ;;
    let children :=
      default [newRenderedValue] (as_array (heap w) newRenderedValue) in
    e <- buildComponentElement componentInstance children ;;
    updInstance componentInstance (set_element (Some e)) ;;
    i2 <- getInstance componentInstance ;;
    ret (_element i2).

(** Both arguments are objects, so [typeof $old !== typeof $new] is
    false.  [$old.props.key] throws when [props] is [undefined]. *)
Definition hasElementChanged (old new : VirtualElement) : M bool :=
  if bool_decide (type_of old ≠ type_of new) then ret true
  else
    match old, new with
    | VirtualElementText v1, VirtualElementText v2 =>
        ret (negb (bool_decide (v1 = v2)))
    | VirtualElementTag t1 p1 _, VirtualElementTag t2 p2 _ =>
        ret (negb (bool_decide (t1 = t2))
             || strict_neq (prop p1 "key") (prop p2 "key"))
    | VirtualElementComponent c1 p1 _, VirtualElementComponent c2 p2 _ =>
        i1 <- getInstance c1 ;;
        i2 <- getInstance c2 ;;
        if negb (bool_decide (Component_ i1 = Component_ i2)) then ret true
        else
          match p1, p2 with
          | Some p1, Some p2 => ret (strict_neq (prop p1 "key") (prop p2 "key"))
          | _, _ => throw
          end
    | _, _ => ret false
    end.

(** ** The lifecycle controller *)

Definition mountComponent (componentInstance : nat) : M (option nat) :=
  renderComponent componentInstance ;;
  updInstance componentInstance (set_isMounted true) ;;
  i <- getInstance componentInstance ;;
  ret (_element i).

(** The effect record at index [k], read through the instance; [None]
    once the records are gone. *)
Definition getEffect (c : nat) (k : nat) : M (option EffectHook) :=
  i <- getInstance c ;;
  ret (h ← hooks i; byCursor (effects h) !! k).

Definition updEffect (c : nat) (k : nat) (f : EffectHook -> EffectHook)
  : M unit :=
  updInstance c (fun i =>
    match hooks i with
    | None => i
    | Some h =>
        set_hooks
          (Some (set_effects
                   (set_byCursor (alter f k (byCursor (effects h))) (effects h))
                   h)) i
    end).

Definition set_cleanup (f : option FnRef) (e : EffectHook) : EffectHook :=
  mkEffectHook (ef_dependencies e) (ef_schedule e) f (ef_releaseSignals e).

(** The body of the [forEach] of [unmountComponent], for the effect
    record at index [k]; the record is a shared object, read anew at
    each use. *)
Definition unmountEffect (c : nat) (k : nat) : M unit :=
  effect <- getEffect c k ;;
  match effect ≫= ef_cleanup with
  | Some f => safeExec (callCallback f) (ret tt)
  | None => ret tt
  end ;;
  updEffect c k (set_cleanup None) ;;
  effect <- getEffect c k ;;
  match effect ≫= ef_releaseSignals with
  | Some f => callCallback f
  | None => ret tt
  end.

Definition clearEffectHook (_ : EffectHook) : EffectHook :=
  mkEffectHook None None None None.
Definition clearStateHook (_ : StateHook) : StateHook :=
  mkStateHook VUndefined VUndefined None.
Definition clearMemoHook (_ : MemoHook) : MemoHook :=
  mkMemoHook VUndefined None.
Definition clearRefHook (_ : RefHook) : RefHook :=
  mkRefHook VUndefined.

Definition clearHooks (h : Hooks) : Hooks :=
  mkHooks
    (set_byCursor (clearStateHook <$> byCursor (state h)) (state h))
    (set_byCursor (clearEffectHook <$> byCursor (effects h)) (effects h))
    (set_byCursor (clearMemoHook <$> byCursor (memos h)) (memos h))
    (set_byCursor (clearRefHook <$> byCursor (refs h)) (refs h)).

Definition helpGc (componentInstance : nat) : M unit :=
  i <- getInstance componentInstance ;;
  match hooks i with
  | None => throw
  | Some h => updInstance componentInstance (set_hooks (Some (clearHooks h)))
  end ;;
  updInstance componentInstance (set_hooks None) ;;
  updInstance componentInstance (set_element None) ;;
  updInstance componentInstance (set_renderedValue VUndefined) ;;
  updInstance componentInstance (set_Component None) ;;
  updInstance componentInstance (set_props None) ;;
  updInstance componentInstance (set_onUpdate None).

Definition unmountComponent (componentInstance : nat) : M unit :=
  i <- getInstance componentInstance ;;
  if negb (isMounted i) then ret tt
  else
    exclude (id i) ;;
    match hooks i with
    | None => throw
    | Some h =>
        forEach (unmountEffect componentInstance)
          (seq 0 (length (byCursor (effects h))))
    end ;;
    updInstance componentInstance (set_isMounted false) ;;
    helpGc componentInstance.

Definition commitStateHook (hook : StateHook) : StateHook :=
  mkStateHook (st_nextValue hook) (st_nextValue hook) (st_setter hook).

Definition prepareComponentForFrame (componentInstance : nat) : M unit :=
  i <- getInstance componentInstance ;;
  if negb (isMounted i) then ret tt
  else
    match hooks i with
    | None => throw
    | Some h =>
        updInstance componentInstance
          (set_hooks
             (Some (set_state
                      (set_byCursor (commitStateHook <$> byCursor (state h))
                         (state h)) h)))
    end.

Definition forceUpdateComponent (componentInstance : nat) : M unit :=
  i <- getInstance componentInstance ;;
  if negb (isMounted i) || negb (bool_decide (is_Some (onUpdate i))) then ret tt
  else
    let currentElement := _element i in
    renderComponent componentInstance ;;
    i' <- getInstance componentInstance ;;
    if negb (bool_decide (_element i' = currentElement)) then
      match onUpdate i' with
      | Some f =>
          log (EvOnUpdate componentInstance f) ;; user (call_callback U f)
      | None => throw
      end
    else ret tt.

(** ** The frame pass *)

(** [componentInstance.id] *)
Definition id_of (w : World) (c : nat) : Z :=
  default 0 (id <$> instances w !! c).

(** [arr.sort((a, b) => a.id - b.id)]: the result of a stable sort with
    this comparator, computed by insertion. *)
Fixpoint sort_insert (key : nat -> Z) (x : nat) (l : list nat) : list nat :=
  match l with
  | [] => [x]
  | y :: l' =>
      if bool_decide (key x - key y <= 0) then x :: l
      else y :: sort_insert key x l'
  end.

Definition sort_by (key : nat -> Z) (l : list nat) : list nat :=
  foldr (sort_insert key) [] l.

(** [runUpdatePassOnRaf] is [throttleWith(requestMeasure, callback)]; the
    callback ends by handing a closure to [requestMutation].  The two
    halves are the two functions below: the first is the body of the
    callback and yields the [instancesToUpdate] that the closure
    captures, the second is the closure. *)
Definition runUpdatePassOnRaf_measure : M (list nat) :=
  modify (set_areImmediateEffectsPending true) ;;
  modify (set_idsToExcludeFromUpdate []) ;;
  w <- get ;;
  let instancesToUpdate := sort_by (id_of w) (instancesPendingUpdate w) in
  modify (set_instancesPendingUpdate []) ;;
  w <- get ;;
  let currentCleanups := pendingCleanups w in
  modify (set_pendingCleanups []) ;;
  forEach callCallback (currentCleanups.*2) ;;
  w <- get ;;
  let currentEffects := pendingEffects w in
  modify (set_pendingEffects []) ;;
  forEach callCallback (currentEffects.*2) ;;
  ret instancesToUpdate.

Definition runUpdatePassOnRaf_mutation (instancesToUpdate : list nat) : M unit :=
  forEach (fun instance =>
             log (EvPrepare instance) ;; prepareComponentForFrame instance)
    instancesToUpdate ;;
  forEach (fun instance =>
             i <- getInstance instance ;;
             w <- get ;;
             if Set_has (idsToExcludeFromUpdate w) (id i) then ret tt
             else log (EvForceUpdate instance) ;; forceUpdateComponent instance)
    instancesToUpdate ;;
  modify (set_areImmediateEffectsPending false) ;;
  runImmediateEffects.

End Runtime.

(** ** Operations of the hook engine and of the scheduler's producers

    teact.ts re-exports [useState], [useEffect] and the other hooks from
    "react"; the hook engine that fills the hook records and the queues
    drained above is not among the sources. *)


(** Modelled from the spec: [enqueueEffect(key, cb)], not among the
    sources; "idempotent per key". *)
Definition enqueueEffect (key : string) (cb : FnRef) (w : World) : World :=
  set_pendingEffects (Map_set (pendingEffects w) key cb) w.
(** Modelled from the spec: [enqueueCleanup(key, cb)], not among the
    sources. *)
Definition enqueueCleanup (key : string) (cb : FnRef) (w : World) : World :=
  set_pendingCleanups (Map_set (pendingCleanups w) key cb) w.
(** Modelled from the spec: the layout variant of [enqueueEffect], not
    among the sources. *)
Definition enqueueLayoutEffect (key : string) (cb : FnRef) (w : World) : World :=
  set_pendingLayoutEffects (Map_set (pendingLayoutEffects w) key cb) w.
(** Modelled from the spec: the layout variant of [enqueueCleanup], not
    among the sources. *)
Definition enqueueLayoutCleanup (key : string) (cb : FnRef) (w : World)
  : World :=
  set_pendingLayoutCleanups (Map_set (pendingLayoutCleanups w) key cb) w.





(** * Settings selectors (src/global/selectors/settings.ts) *)

(** ** Strings *)

(** [s.startsWith(p)] *)
Fixpoint startsWith (p s : string) : bool :=
  match p, s with
  | EmptyString, _ => true
  | String a p', String b s' => bool_decide (a = b) && startsWith p' s'
  | String _ _, EmptyString => false
  end.

(** [s.includes(p)] *)
Fixpoint includes (p s : string) : bool :=
  startsWith p s
  || match s with
     | EmptyString => false
     | String _ s' => includes p s'
     end.

(** [s.slice(n)] for [n >= 0]. *)
Fixpoint slice_from (n : nat) (s : string) : string :=
  match n, s with
  | O, _ => s
  | S n', String _ s' => slice_from n' s'
  | S _, EmptyString => EmptyString
  end.

(** [s.replace(searchValue, replaceValue)] with two strings: the first
    occurrence of [searchValue], if there is one, is replaced.  (A [$] in
    [replaceValue] would be a pattern; the one caller passes the empty
    string.) *)
Fixpoint String_replace (searchValue replaceValue s : string) : string :=
  if startsWith searchValue s
  then replaceValue +:+ slice_from (String.length searchValue) s
  else
    match s with
    | EmptyString => EmptyString
    | String a s' => String a (String_replace searchValue replaceValue s')
    end.

(** ** The global state, as far as the selectors read it *)

Section Selectors.

(** [GlobalState] is declared in global/types, which is not among the
    sources.  The selectors read the fields below; what else the state
    and its settings hold is left open. *)
Variables (OtherSettings NotifyExceptions OtherState : Type).

Record SettingsByKey : Type := mkSettingsByKey {
  language : string;
  otherSettings : OtherSettings
}.

Record GlobalSettings : Type := mkGlobalSettings {
  byKey : SettingsByKey;
  notifyExceptions : NotifyExceptions
}.

Record GlobalState : Type := mkGlobalState {
  settings : GlobalSettings;
  authRememberMe : value;
  isCacheApiSupported : value;
  otherState : OtherState
}.

Definition selectNotifySettings (global : GlobalState) : SettingsByKey :=
  byKey (settings global).

Definition selectNotifyExceptions (global : GlobalState) : NotifyExceptions :=
  notifyExceptions (settings global).

Definition selectLanguageCode (global : GlobalState) : string :=
  String_replace "-raw" EmptyString (language (byKey (settings global))).

(** [a && b] is [a] when [a] is falsy, and [b] otherwise. *)
Definition selectCanSetPasscode (global : GlobalState) : value :=
  if truthy (authRememberMe global) then isCacheApiSupported global
  else authRememberMe global.

End Selectors.

Arguments mkSettingsByKey {_} _ _.
Arguments language {_} _.
Arguments otherSettings {_} _.
Arguments mkGlobalSettings {_ _} _ _.
Arguments byKey {_ _} _.
Arguments notifyExceptions {_ _} _.
Arguments mkGlobalState {_ _ _} _ _ _ _.
Arguments settings {_ _ _} _.
Arguments authRememberMe {_ _ _} _.
Arguments isCacheApiSupported {_ _ _} _.
Arguments otherState {_ _ _} _.
Arguments selectNotifySettings {_ _ _} _.
Arguments selectNotifyExceptions {_ _ _} _.
Arguments selectLanguageCode {_ _ _} _.
Arguments selectCanSetPasscode {_ _ _} _.

(** * Sample states

    User code and machines on which the runtime is run further down. *)

Section Samples.

Close Scope Z_scope.

(** User code for the examples: render function 0 returns the string
    "x", every other render function throws; callback 7 enqueues callback
    8 as a layout cleanup under the key "k", every other callback does
    nothing. *)
Definition U0 : UserCode :=
  {| call_Component := fun f _ w =>
       match f with
       | O => (Ok (VString "x"), w)
       | _ => (Throw, w)
       end;
     call_callback := fun g w =>
       match g with
       | 7%nat => (Ok tt, enqueueLayoutCleanup "k" 8%nat w)
       | _ => (Ok tt, w)
       end;
     function_name := fun _ => "C"%string;
     objectToString := fun _ _ => Ok "[object Object]"%string;
     numberToString := fun _ => "1e+21"%string |}.

(** One state record, holding 0. *)
Definition hooksA : Hooks :=
  mkHooks
    (mkHookList 1 [mkStateHook (VNumber (Num 0)) (VNumber (Num 0)) (Some 3%nat)])
    (mkHookList 0 []) (mkHookList 0 []) (mkHookList 0 []).

(** A mounted instance of render function 0 that rendered "x". *)
Definition instA : ComponentInstance :=
  {| id := 1; _element := Some 1%nat; Component_ := Some 0%nat;
     name := "C"; props := Some ∅; renderedValue := VString "x";
     isMounted := true; hooks := Some hooksA; prepareForFrame := None;
     forceUpdate := None; onUpdate := Some 9%nat |}.

Definition heapA : list HeapObj :=
  [OElement (VirtualElementText "x");
   OElement (VirtualElementComponent 0 (Some ∅) [0%nat])].

Definition worldOf (i : ComponentInstance) (h : list HeapObj) : World :=
  mkWorld 1 None [] [] [] [] [] [] false [i] h [].

Definition mA : Machine := mkMachine (worldOf instA heapA) [].

(** The same instance before it was mounted. *)
Definition instU : ComponentInstance := set_isMounted false instA.

Definition mU : Machine := mkMachine (worldOf instU heapA) [].

(** A mounted instance of the throwing render function 1 whose stored
    output is [NaN]. *)
Definition instN : ComponentInstance :=
  set_renderedValue (VNumber NaN) (set_Component (Some 1%nat) instA).

Definition heapN : list HeapObj :=
  [OElement (VirtualElementText "NaN");
   OElement (VirtualElementComponent 0 (Some ∅) [0%nat])].

Definition mN : Machine := mkMachine (worldOf instN heapN) [].

(** A new instance of the throwing render function 1, as
    [createComponentInstance] makes it. *)
Definition instF : ComponentInstance :=
  {| id := 1; _element := Some 1%nat; Component_ := Some 1%nat;
     name := "C"; props := Some ∅; renderedValue := VUndefined;
     isMounted := false; hooks := Some emptyHooks; prepareForFrame := None;
     forceUpdate := None; onUpdate := None |}.

Definition heapF : list HeapObj :=
  [OOther; OElement (VirtualElementComponent 0 (Some ∅) [])].

Definition mF : Machine := mkMachine (worldOf instF heapF) [].

Definition emptyWorld : World := mkWorld 0 None [] [] [] [] [] [] false [] [] [].

Definition mEmpty : Machine := mkMachine emptyWorld [].

(** The layout cleanup 7 is pending; it enqueues the layout cleanup 8. *)
Definition mQ : Machine :=
  mkMachine (set_pendingLayoutCleanups [("a"%string, 7)] (worldOf instA heapA)) [].

(** Two mounted instances, created in the order 0, 1 (ids 1 and 2); the
    pending set got them in the order 1, 0, 1; the id of instance 1 is
    excluded. *)
Definition instB : ComponentInstance :=
  {| id := 2; _element := Some 1; Component_ := Some 0;
     name := "C"; props := Some ∅; renderedValue := VString "x";
     isMounted := true; hooks := Some hooksA; prepareForFrame := None;
     forceUpdate := None; onUpdate := Some 9 |}.

Definition worldP : World :=
  mkWorld 2 None (foldl Set_add [] [1; 0; 1]) [] [] [] [] [] false
    [instA; instB] heapA [].

Definition mP : Machine := mkMachine worldP [].

Definition mX : Machine :=
  mkMachine (set_idsToExcludeFromUpdate [2%Z] worldP) [].

(** An instance that is not mounted, pending, with the value 2 staged
    in its state record and 0 live. *)
Definition instS : ComponentInstance :=
  set_hooks
    (Some (mkHooks
             (mkHookList 1
                [mkStateHook (VNumber (Num 0)) (VNumber (Num 2)) (Some 3)])
             (mkHookList 0 []) (mkHookList 0 []) (mkHookList 0 [])))
    instU.

Definition mS : Machine :=
  mkMachine (set_instancesPendingUpdate [0] (worldOf instS heapA)) [].

(** The instance made last before the counter of ids, a double, reached
    [2 ^ 53], where [++] leaves it. *)
Definition instMax : ComponentInstance :=
  {| id := (2 ^ 53)%Z; _element := Some 1%nat; Component_ := Some 0%nat;
     name := "C"; props := Some ∅; renderedValue := VString "x";
     isMounted := true; hooks := Some hooksA; prepareForFrame := None;
     forceUpdate := None; onUpdate := Some 9%nat |}.

Definition mMax : Machine :=
  mkMachine (set_lastComponentId (2 ^ 53)%Z (worldOf instMax heapA)) [].

(** User code whose render function 0 returns the object at reference 0,
    every other render function throws; [String] throws on an object that
    is neither an element nor an array (an object without prototype, as
    [Object.create(null)] makes it) and returns for every other. *)
Definition U2 : UserCode :=
  {| call_Component := fun f _ w =>
       match f with
       | O => (Ok (VObject 0%nat), w)
       | _ => (Throw, w)
       end;
     call_callback := call_callback U0;
     function_name := function_name U0;
     objectToString := fun h r =>
       match h !! r with
       | Some OOther => Throw
       | _ => Ok "[object Object]"%string
       end;
     numberToString := numberToString U0 |}.

(** A new instance of render function 0, not mounted yet; the object at
    reference 0 is neither an element nor an array. *)
Definition instO : ComponentInstance := set_Component (Some 0%nat) instF.

Definition mO : Machine := mkMachine (worldOf instO heapF) [].

(** User code with a callback that throws: render functions as in [U0];
    callback 3 enqueues callback 6 as a layout effect under the key "e",
    callback 5 throws, every other callback does nothing. *)
Definition U1 : UserCode :=
  {| call_Component := call_Component U0;
     call_callback := fun g w =>
       match g with
       | 3%nat => (Ok tt, enqueueLayoutEffect "e" 6%nat w)
       | 5%nat => (Throw, w)
       | _ => (Ok tt, w)
       end;
     function_name := function_name U0;
     objectToString := objectToString U0;
     numberToString := numberToString U0 |}.

(** A mounted instance that rendered "y": render function 0 now returns
    another output. *)
Definition instY : ComponentInstance := set_renderedValue (VString "y") instA.

Definition mY : Machine := mkMachine (worldOf instY heapA) [].

(** A mounted instance with two effect records: the first has the
    cleanup 4 and the [releaseSignals] 5, the second the cleanup 6. *)
Definition hooksE : Hooks :=
  mkHooks (mkHookList 0 [])
    (mkHookList 2
       [mkEffectHook None None (Some 4%nat) (Some 5%nat);
        mkEffectHook None None (Some 6%nat) None])
    (mkHookList 0 []) (mkHookList 0 []).

Definition instE : ComponentInstance := set_hooks (Some hooksE) instA.

Definition mE : Machine := mkMachine (worldOf instE heapA) [].

(** A torn-down instance. *)
Definition instG : ComponentInstance :=
  {| id := 1; _element := None; Component_ := None; name := "C";
     props := None; renderedValue := VUndefined; isMounted := false;
     hooks := None; prepareForFrame := None; forceUpdate := None;
     onUpdate := None |}.

Definition mG : Machine := mkMachine (worldOf instG heapA) [].

(** The layout cleanup 3 and the layout effect 4 are pending. *)
Definition mL : Machine :=
  mkMachine
    (set_pendingLayoutEffects [("b"%string, 4)]
       (set_pendingLayoutCleanups [("a"%string, 3)] (worldOf instA heapA)))
    [].

(** The instance is pending, its id is excluded, and the cleanup 5 is
    pending. *)
Definition mT : Machine :=
  mkMachine
    (set_pendingCleanups [("a"%string, 5)]
       (set_idsToExcludeFromUpdate [1%Z]
          (set_instancesPendingUpdate [0] (worldOf instA heapA))))
    [].

(** A mounted instance with the value 2 staged in its state record and
    0 live. *)
Definition mM : Machine :=
  mkMachine (worldOf (set_isMounted true instS) heapA) [].

(** Two pending instances, each with the value 2 staged in its state
    record and 0 live: the first is mounted, the second is not. *)
Definition instV : ComponentInstance := set_isMounted true instS.

Definition instW : ComponentInstance :=
  {| id := 2; _element := Some 1; Component_ := Some 0;
     name := "C"; props := Some ∅; renderedValue := VString "x";
     isMounted := false; hooks := hooks instS; prepareForFrame := None;
     forceUpdate := None; onUpdate := Some 9 |}.

Definition mW : Machine :=
  mkMachine
    (mkWorld 2 None [0; 1] [] [] [] [] [] false [instV; instW] heapA []) [].

(** A mounted instance of the throwing render function 1 that has "x"
    as its stored output. *)
Definition instZ : ComponentInstance := set_Component (Some 1%nat) instA.

Definition mZ : Machine := mkMachine (worldOf instZ heapA) [].

(** A global state whose language setting is "pt-br-raw". *)
Definition globalR : GlobalState unit unit unit :=
  mkGlobalState (mkGlobalSettings (mkSettingsByKey "pt-br-raw" tt) tt)
    (VBool true) VUndefined tt.

End Samples.

(** * Properties *)

Section Properties.

Variable U : UserCode.

(** ** Vocabulary

    The states, predicates and derived computations that the lemmas and
    theorems below are stated with. *)

(** The instance object at [c] holds [i]. *)
Definition putInstance (c : nat) (i : ComponentInstance) (w : World) : World :=
  set_instances (<[c := i]> (instances w)) w.

(** The instance as [helpGc] leaves it. *)
Definition gcInstance (i : ComponentInstance) : ComponentInstance :=
  {| id := id i; _element := None; Component_ := None; name := name i;
     props := None; renderedValue := VUndefined; isMounted := isMounted i;
     hooks := None; prepareForFrame := prepareForFrame i;
     forceUpdate := forceUpdate i; onUpdate := None |}.

(** The children [kept] of [children]: a prefix of it, what follows is
    placeholders only, and its last value is not a placeholder. *)
Definition trailing_dropped (children kept : list value) : Prop :=
  exists dropped,
    children = kept ++ dropped
    /\ Forall (fun x => isEmptyPlaceholder x = true) dropped
    /\ forall x, last kept = Some x -> isEmptyPlaceholder x = false.

(** The machine after the objects [h'] have been allocated. *)
Definition grow (h' : list HeapObj) (m : Machine) : Machine :=
  mkMachine (set_heap (heap (world m) ++ h') (world m)) (trace m).

(** [r] is the element built for [child]: an element, and an Empty one
    exactly when [child] is a placeholder. *)
Definition builtFrom (h : list HeapObj) (child : value) (r : nat) : Prop :=
  exists e, h !! r = Some (OElement e)
            /\ isEmptyElement e = isEmptyPlaceholder child.

(** The [children] prop that [createComponentInstance] derives from the
    children it is given: none, the only child, or all of them. *)
Definition childrenProp (h : list HeapObj) (p : Props) (children : list value)
  (p' : Props) : Prop :=
  match children with
  | [] => p' = p
  | [x] => p' = if truthy x then <["children"%string := x]> p else p
  | _ => exists r, h !! r = Some (OArray children)
                   /\ p' = <["children"%string := VObject r]> p
  end.

(** The world in which the render function of instance [c] is called:
    the id of [c] is excluded from the current pass, [c] is the
    rendering instance, and its four hook cursors are zero. *)
Definition renderWorld (c : nat) (i : ComponentInstance) (h : Hooks)
    (w : World) : World :=
  putInstance c (set_hooks (Some (resetCursors h)) i)
    (set_renderingInstance (Some c)
       (set_idsToExcludeFromUpdate
          (Set_add (idsToExcludeFromUpdate w) (id i)) w)).

(** The first callback of the [safeExec] of [renderComponent], run for
    the instance [i] at [c] from the world [w]: how it ends, the world
    it leaves, and the call of the render function if it came to that.
    Without hooks, or without a render function, the callback throws a
    [TypeError] before any user code runs. *)
Definition renderOutcome (c : nat) (i : ComponentInstance) (w : World)
  : Res value * World * list Event :=
  let w1 :=
    set_renderingInstance (Some c)
      (set_idsToExcludeFromUpdate
         (Set_add (idsToExcludeFromUpdate w) (id i)) w) in
  match hooks i with
  | None => (Throw, w1, [])
  | Some h =>
      match Component_ i with
      | None => (Throw, renderWorld c i h w, [])
      | Some f =>
          let '(r, w3) := call_Component U f (props i) (renderWorld c i h w) in
          (r, w3, [EvComponent c f])
      end
  end.

(** What [safeExec] hands on after the render function returned [r] and
    left the instance as [i2] in the world [w2]: the value of
    [newRenderedValue], and the world. *)
Definition afterRender (r : Res value) (i2 : ComponentInstance) (w2 : World)
  : value * World :=
  match r with
  | Ok out => (out, w2)
  | Throw =>
      (renderedValue i2,
       set_console (console w2 ++ [renderError (name i2)]) w2)
  end.

(** The render function left every field of the instance other than
    [hooks] as it was. *)
Definition untouched (i i2 : ComponentInstance) : Prop :=
  set_hooks None i2 = set_hooks None i.



(** [p] keeps [P]: whatever [p] does from a machine with [P], returning
    or throwing, it ends in a machine with [P]. *)
Definition keeps {A} (P : Machine -> Prop) (p : M A) : Prop :=
  forall m r m', p m = (r, m') -> P m -> P m'.

(** The id [x] is in the exclusion set. *)
Definition excluded (x : Z) (m : Machine) : Prop :=
  x ∈ idsToExcludeFromUpdate (world m).

(** The instance [c] is not mounted: never mounted, or unmounted. *)
Definition unmounted (c : nat) (w : World) : Prop :=
  exists i, instances w !! c = Some i /\ isMounted i = false.

(** The event is a call of the render function or of [onUpdate] of [c]. *)
Definition about (c : nat) (e : Event) : Prop :=
  exists f, e = EvComponent c f \/ e = EvOnUpdate c f.

(** Nothing the runtime itself did after [t0] concerned a render of [c]:
    [c] is unmounted, and neither its render function nor its [onUpdate]
    was called. *)
Definition quiet (c : nat) (t0 : list Event) (m : Machine) : Prop :=
  unmounted c (world m)
  /\ exists evs, trace m = t0 ++ evs /\ Forall (fun e => ~ about c e) evs.

(** One of the four pending queues, as a variable to read and assign. *)
Record Queue : Type := mkQueue {
  qget : World -> list (string * FnRef);
  qset : list (string * FnRef) -> World -> World
}.

Definition cleanupsQueue := mkQueue pendingCleanups set_pendingCleanups.

Definition effectsQueue := mkQueue pendingEffects set_pendingEffects.

Definition layoutCleanupsQueue :=
  mkQueue pendingLayoutCleanups set_pendingLayoutCleanups.

Definition layoutEffectsQueue :=
  mkQueue pendingLayoutEffects set_pendingLayoutEffects.

Definition queues : list Queue :=
  [cleanupsQueue; effectsQueue; layoutCleanupsQueue; layoutEffectsQueue].

(** The three lines that drain a queue:
    [const current = pending; pending = new Map(); current.forEach(cb => cb())]. *)
Definition drain (q : Queue) : M unit :=
  w <- get ;;
  let current := qget q w in
  modify (qset q []) ;;
  forEach (callCallback U) (current.*2).

(** The callbacks [fs] called in turn from the world [w], up to the first
    that throws: the result, the world left, and the callbacks called. *)
Fixpoint runCallbacks (fs : list FnRef) (w : World)
  : Res unit * World * list FnRef :=
  match fs with
  | [] => (Ok tt, w, [])
  | f :: fs' =>
      match call_callback U f w with
      | (Ok _, w') =>
          let '(r, w'', called) := runCallbacks fs' w' in (r, w'', f :: called)
      | (Throw, w') => (Throw, w', [f])
      end
  end.

(** [q.set(k, g)] for every pair of [kvs], in order. *)
Definition enqueueAll (q kvs : list (string * FnRef)) : list (string * FnRef) :=
  foldl (fun q kv => Map_set q kv.1 kv.2) q kvs.

(** The order of the sort: ascending keys. *)
Definition by_key (key : nat -> Z) (a b : nat) : Prop := key a <= key b.

(** The two loops of the write phase. *)
Definition prepareAll (l : list nat) : M unit :=
  forEach (fun instance =>
             log (EvPrepare instance) ;; prepareComponentForFrame instance) l.

(** The body of the second loop. *)
Definition forceOne (instance : nat) : M unit :=
  i <- getInstance instance ;;
  w <- get ;;
  if Set_has (idsToExcludeFromUpdate w) (id i) then ret tt
  else log (EvForceUpdate instance) ;; forceUpdateComponent U instance.

Definition forceAll (l : list nat) : M unit := forEach forceOne l.

(** The trace grew by events that all satisfy [Q]. *)
Definition grew (t0 : list Event) (Q : Event -> Prop) (m : Machine) : Prop :=
  exists evs, trace m = t0 ++ evs /\ Forall Q evs.

(** The two kinds of event of the frame pass itself. *)
Definition isPrepare (e : Event) : bool :=
  match e with EvPrepare _ => true | _ => false end.

Definition isForce (e : Event) : bool :=
  match e with EvForceUpdate _ => true | _ => false end.

(** An event of a render or of a callback. *)
Definition inner (e : Event) : Prop := isPrepare e = false /\ isForce e = false.

(** The state record [new] is [old] with its staged value made the
    live one: the live and the staged value of [new] are the staged
    value of [old], and the setter is the one of [old]. *)
Definition stagedToLive (old new : StateHook) : Prop :=
  st_value new = st_nextValue old
  /\ st_nextValue new = st_nextValue old
  /\ st_setter new = st_setter old.

(** The instance [i1] is [i] with nothing replaced but its state
    records, each by one that has the staged value as live value. *)
Definition preparedFrom (i i1 : ComponentInstance) : Prop :=
  exists h records,
    hooks i = Some h
    /\ Forall2 stagedToLive (byCursor (state h)) records
    /\ i1 = set_hooks (Some (set_state (set_byCursor records (state h)) h)) i.

(** The element [e] with the children [cs] in place of its own. *)
Definition with_children (cs : list nat) (e : VirtualElement) : VirtualElement :=
  match e with
  | VirtualElementTag t p _ => VirtualElementTag t p cs
  | VirtualElementComponent c p _ => VirtualElementComponent c p cs
  | VirtualElementFragment _ => VirtualElementFragment cs
  | VirtualElementEmpty | VirtualElementText _ => e
  end.

(** [$element.props.key], for the elements that are compared by it. *)
Definition key_of (e : VirtualElement) : value :=
  match e with
  | VirtualElementTag _ p _ => prop p "key"
  | VirtualElementComponent _ (Some p) _ => prop p "key"
  | _ => VUndefined
  end.

(** [hasElementChanged] can read what it needs of [e]: the instance of a
    component element is there, and the element has its props. *)
Definition comparable (w : World) (e : VirtualElement) : bool :=
  match e with
  | VirtualElementComponent c p _ =>
      bool_decide (is_Some (instances w !! c)) && bool_decide (is_Some p)
  | _ => true
  end.

(** The array that [createComponentInstance] keeps for two or more
    children, as the object it is on the heap [h], and the value of
    [parsedChildren]. *)
Definition parsedChildren (h : list HeapObj) (children : list value)
  : list HeapObj * value :=
  match children with
  | [] => ([], VUndefined)
  | [x] => ([], x)
  | _ => ([OArray children], VObject (length h))
  end.

(** The instance object that [createComponentInstance] makes for the
    render function [f], with the id [newId] and the element [e]. *)
Definition newInstance (f : FnRef) (p : Props) (parsed : value) (newId : Z)
    (e : nat) : ComponentInstance :=
  {| id := newId;
     _element := Some e;
     Component_ := Some f;
     name := function_name U f;
     props := Some (if truthy parsed
                    then <["children"%string := parsed]> p else p);
     renderedValue := VUndefined;
     isMounted := false;
     hooks := Some emptyHooks;
     prepareForFrame := None;
     forceUpdate := None;
     onUpdate := None |}.

(** The element and the world that [createComponentInstance] ends with:
    the counter was incremented, the heap has the array (if any), the object
    literal that [$element] first holds and the component element, and
    the new instance is the last one. *)
Definition created (f : FnRef) (p : Props) (children : list value) (w : World)
  : nat * World :=
  let '(h0, parsed) := parsedChildren (heap w) children in
  let e := S (length (heap w ++ h0)) in
  let i := newInstance f p parsed (increment (lastComponentId w)) e in
  (e,
   set_instances (instances w ++ [i])
     (set_heap
        (heap w ++ h0
         ++ [OOther;
             OElement (VirtualElementComponent (length (instances w))
                         (props i) [])])
        (set_lastComponentId (increment (lastComponentId w)) w))).

(** [w'] is [w] but for what was allocated since: objects and instances
    were added at the end, the counter of ids went up, and nothing else
    is different. *)
Definition allocated_only (w w' : World) : Prop :=
  heap w `prefix_of` heap w'
  /\ instances w `prefix_of` instances w'
  /\ lastComponentId w <= lastComponentId w'
  /\ set_lastComponentId (lastComponentId w)
       (set_instances (instances w) (set_heap (heap w) w')) = w.

(** The ids in use are pairwise different and none is above the counter
    [lastComponentId]. *)
Definition ids_fresh (w : World) : Prop :=
  NoDup (id <$> instances w)
  /\ Forall (fun i => id i <= lastComponentId w) (instances w).

(** The objects [h0] still are where and what they were. *)
Definition heap_extends (h0 : list HeapObj) (m : Machine) : Prop :=
  h0 `prefix_of` heap (world m).



(** The instance [c] is there and has the id [x]. *)
Definition has_id (c : nat) (x : Z) (m : Machine) : Prop :=
  exists i, instances (world m) !! c = Some i /\ id i = x.

(** The callbacks that [unmountComponent] calls for the effect records
    [efs], in order: for each record its cleanup, then its
    [releaseSignals], where it has them. *)
Definition unmountCalls (efs : list EffectHook) : list FnRef :=
  efs ≫= (fun ef =>
            option_list (ef_cleanup ef) ++ option_list (ef_releaseSignals ef)).

(** The instance [i], with hooks [h], after the loop of
    [unmountComponent] has dealt with its first [k] effect records:
    their [cleanup] is [undefined]. *)
Definition cleanedUp (k : nat) (h : Hooks) (i : ComponentInstance)
  : ComponentInstance :=
  set_hooks
    (Some (set_effects
             (set_byCursor
                ((set_cleanup None <$> take k (byCursor (effects h)))
                 ++ drop k (byCursor (effects h)))
                (effects h))
             h))
    i.

(** The instance [c] is mounted but has no hooks. *)
Definition hookless (c : nat) (m : Machine) : Prop :=
  exists i, instances (world m) !! c = Some i
            /\ isMounted i = true /\ hooks i = None.

(** The flag [areImmediateEffectsPending] is [b]. *)
Definition flagged (b : bool) (m : Machine) : Prop :=
  areImmediateEffectsPending (world m) = b.

(** The object at [r] is a Tag, Component or Fragment element. *)
Definition parentAt (h : list HeapObj) (r : nat) : bool :=
  match h !! r with
  | Some (OElement e) => isParentElement e
  | _ => false
  end.

(** The Text element for the child [v] on the heap [h]: the object
    allocated and its reference, or the throw of [String(v)]. *)
Definition builtText (h : list HeapObj) (v : value) : Res (list HeapObj * nat) :=
  match String_ U h v with
  | Ok s => Ok ([OElement (VirtualElementText s)], length h)
  | Throw => Throw
  end.

(** The element that stands for the child [v] on the heap [h]: the
    objects allocated for it, and its reference. *)
Definition builtChild (h : list HeapObj) (v : value) : Res (list HeapObj * nat) :=
  if isEmptyPlaceholder v then Ok ([OElement VirtualElementEmpty], length h)
  else
    match v with
    | VObject r => if parentAt h r then Ok ([], r) else builtText h v
    | _ => builtText h v
    end.

(** [String(v)] returns, whatever the heap holds. *)
Definition stringifies (v : value) : Prop :=
  forall h, exists s, String_ U h v = Ok s.

(** The element for the child [v] is built without a throw, on the heap
    [h] and on every heap that [h] has grown to: [v] is a placeholder or
    a parent element, or [String(v)] returns. *)
Definition builds (h : list HeapObj) (v : value) : Prop :=
  forall h1, exists x, builtChild (h ++ h1) v = Ok x.

(** The values whose elements become the children of the Component
    element that [renderComponent] builds from the output [out]. *)
Definition renderedChildren (h : list HeapObj) (out : value) : list value :=
  dropEmptyTail (default [out] (as_array h out)) true.

(** What a render that does not bail out ends with, for the output
    [out] left in the world [w2] with the instance as [i2]: the objects
    [objs] were allocated for the children [cs], then the new element,
    which the instance holds and which is the result. *)
Definition rebuilt (c : nat) (out : value) (i2 : ComponentInstance)
    (w2 : World) (objs : list HeapObj) (cs : list nat) : Res (option nat) * World :=
  let e := length (heap w2 ++ objs) in
  (Ok (Some e),
   putInstance c (set_element (Some e) (set_renderedValue out i2))
     (set_heap
        (heap w2 ++ objs ++ [OElement (VirtualElementComponent c (props i2) cs)])
        w2)).

(** No instance is pending; no id is excluded. *)
Definition nonePending (m : Machine) : Prop :=
  instancesPendingUpdate (world m) = [].

Definition noneExcluded (m : Machine) : Prop :=
  idsToExcludeFromUpdate (world m) = [].

(** ** Running a computation *)

Lemma bind_ok {A B} (x : M A) (k : A -> M B) m a m' :
  x m = (Ok a, m') -> bind x k m = k a m'.
Proof. intros H. unfold bind. by rewrite H. Qed.

Lemma bind_throw {A B} (x : M A) (k : A -> M B) m m' :
  x m = (Throw, m') -> bind x k m = (Throw, m').
Proof. intros H. unfold bind. by rewrite H. Qed.

Lemma getInstance_ok c i m :
  instances (world m) !! c = Some i -> getInstance c m = (Ok i, m).
Proof. intros H. unfold getInstance, bind, get. by rewrite H. Qed.

Lemma getInstance_inv c m r m' :
  getInstance c m = (r, m') ->
  m' = m /\
  match r with
  | Ok i => instances (world m) !! c = Some i
  | Throw => instances (world m) !! c = None
  end.
Proof.
  unfold getInstance, bind, get, ret, throw.
  destruct (instances (world m) !! c); intros [= <- <-]; auto.
Qed.

Lemma machine_eta m : mkMachine (world m) (trace m) = m.
Proof. by destruct m. Qed.

Lemma bind_inv_ok {A B} (x : M A) (k : A -> M B) m b m' :
  bind x k m = (Ok b, m') ->
  exists a m1, x m = (Ok a, m1) /\ k a m1 = (Ok b, m').
Proof.
  unfold bind. destruct (x m) as [[a|] m1]; [eauto | discriminate].
Qed.

Lemma updInstance_ok c f i m :
  instances (world m) !! c = Some i ->
  updInstance c f m
  = (Ok tt, mkMachine (putInstance c (f i) (world m)) (trace m)).
Proof.
  intros H. unfold updInstance.
  by rewrite (bind_ok _ _ _ _ _ (getInstance_ok _ _ _ H)).
Qed.

Lemma updInstance_inv c f m r m' :
  updInstance c f m = (r, m') ->
  match r with
  | Ok _ =>
      exists i, instances (world m) !! c = Some i
                /\ m' = mkMachine (putInstance c (f i) (world m)) (trace m)
  | Throw => instances (world m) !! c = None /\ m' = m
  end.
Proof.
  unfold updInstance, bind. intros H.
  destruct (getInstance c m) as [[i|] m1] eqn:E;
    apply getInstance_inv in E as [-> E].
  - unfold modify in H. injection H as <- <-. eauto.
  - by injection H as <- <-.
Qed.

Lemma lookup_putInstance c i w :
  is_Some (instances w !! c) -> instances (putInstance c i w) !! c = Some i.
Proof.
  intros H. simpl. apply list_lookup_insert_eq. by apply lookup_lt_is_Some.
Qed.

Lemma lookup_putInstance_ne c c' i w :
  c <> c' -> instances (putInstance c i w) !! c' = instances w !! c'.
Proof. intros H. simpl. by apply list_lookup_insert_ne. Qed.

Lemma putInstance_putInstance c i j w :
  putInstance c i (putInstance c j w) = putInstance c i w.
Proof. unfold putInstance. simpl. by rewrite list_insert_insert_eq. Qed.

Lemma putInstance_id c i w :
  instances w !! c = Some i -> putInstance c i w = w.
Proof.
  intros H. unfold putInstance. rewrite list_insert_id by done. by destruct w.
Qed.

(** *** The diff predicate *)

(** C5. For two Component elements, [hasElementChanged] answers [true]
    exactly when the render functions of the two instances are different
    references or the [key] props of the two elements are not [===]; it
    changes nothing, and elements that agree on [key] get the same
    answer whatever their other props and children are. *)
Theorem hasElementChanged_component m c1 c2 i1 i2 (p1 p2 : Props) cs1 cs2 :
  instances (world m) !! c1 = Some i1 ->
  instances (world m) !! c2 = Some i2 ->
  exists b,
    hasElementChanged (VirtualElementComponent c1 (Some p1) cs1)
      (VirtualElementComponent c2 (Some p2) cs2) m = (Ok b, m)
    /\ (b = true <->
        Component_ i1 <> Component_ i2
        \/ strict_eq (prop p1 "key") (prop p2 "key") = false)
    /\ forall (q1 q2 : Props) ds1 ds2,
        prop q1 "key" = prop p1 "key" ->
        prop q2 "key" = prop p2 "key" ->
        hasElementChanged (VirtualElementComponent c1 (Some q1) ds1)
          (VirtualElementComponent c2 (Some q2) ds2) m = (Ok b, m).
Proof.
  intros H1 H2.
  assert (Hrun : forall (q1 q2 : Props) ds1 ds2,
    hasElementChanged (VirtualElementComponent c1 (Some q1) ds1)
      (VirtualElementComponent c2 (Some q2) ds2) m
    = (Ok (negb (bool_decide (Component_ i1 = Component_ i2))
           || strict_neq (prop q1 "key") (prop q2 "key")), m)).
  { intros q1 q2 ds1 ds2. unfold hasElementChanged. simpl.
    rewrite (bind_ok _ _ _ _ _ (getInstance_ok _ _ _ H1)).
    rewrite (bind_ok _ _ _ _ _ (getInstance_ok _ _ _ H2)).
    by destruct (bool_decide (Component_ i1 = Component_ i2)). }
  eexists. split; [apply Hrun|]. split.
  - unfold strict_neq. rewrite orb_true_iff, !negb_true_iff.
    rewrite bool_decide_eq_false. tauto.
  - intros q1 q2 ds1 ds2 E1 E2. rewrite Hrun. by rewrite E1, E2.
Qed.

(** *** Unmounting *)

Lemma helpGc_ok c i h m :
  instances (world m) !! c = Some i ->
  hooks i = Some h ->
  helpGc c m = (Ok tt, mkMachine (putInstance c (gcInstance i) (world m)) (trace m)).
Proof.
  intros Hi Hh. unfold helpGc.
  rewrite (bind_ok _ _ _ _ _ (getInstance_ok _ _ _ Hi)), Hh.
  repeat
    (erewrite bind_ok;
     [| apply updInstance_ok; first
          [ exact Hi | simpl; apply list_lookup_insert_eq;
                       rewrite ?length_insert; by eapply lookup_lt_Some ]]).
  erewrite updInstance_ok
    by (simpl; apply list_lookup_insert_eq;
        rewrite ?length_insert; by eapply lookup_lt_Some).
  simpl. rewrite !putInstance_putInstance. reflexivity.
Qed.

Lemma helpGc_inv c m m' :
  helpGc c m = (Ok tt, m') ->
  exists i, instances (world m) !! c = Some i
            /\ m' = mkMachine (putInstance c (gcInstance i) (world m)) (trace m).
Proof.
  intros H. pose proof H as H'. unfold helpGc in H'.
  apply bind_inv_ok in H' as (i & m1 & Hg & H').
  apply getInstance_inv in Hg as [-> Hi].
  destruct (hooks i) as [h|] eqn:Hh.
  - exists i. split; [done|].
    rewrite (helpGc_ok _ _ _ _ Hi Hh) in H. by injection H as <-.
  - by rewrite (bind_throw _ _ m m) in H'.
Qed.

(** C8. [unmountComponent] on an instance that is not mounted returns
    normally and changes nothing at all; and once a call of
    [unmountComponent] has returned normally, a second call on the same
    instance returns normally and changes nothing. *)
Theorem unmountComponent_idempotent c :
  (forall m i,
     instances (world m) !! c = Some i ->
     isMounted i = false ->
     unmountComponent U c m = (Ok tt, m))
  /\ (forall m m',
        unmountComponent U c m = (Ok tt, m') ->
        unmountComponent U c m' = (Ok tt, m')).
Proof.
  assert (Hnoop : forall m i,
             instances (world m) !! c = Some i ->
             isMounted i = false ->
             unmountComponent U c m = (Ok tt, m)).
  { intros m i Hi Hm. unfold unmountComponent.
    rewrite (bind_ok _ _ _ _ _ (getInstance_ok _ _ _ Hi)). by rewrite Hm. }
  split; [exact Hnoop|].
  intros m m' H. pose proof H as H'. unfold unmountComponent in H'.
  apply bind_inv_ok in H' as (i & m1 & Hg & H').
  apply getInstance_inv in Hg as [-> Hi].
  destruct (isMounted i) eqn:Hm; simpl in H'.
  - apply bind_inv_ok in H' as ([] & m1 & _ & H').
    apply bind_inv_ok in H' as ([] & m2 & _ & H').
    apply bind_inv_ok in H' as ([] & m3 & Hu & H').
    apply updInstance_inv in Hu as (i2 & Hi2 & ->).
    apply helpGc_inv in H' as (i3 & Hi3 & ->).
    cbn [world] in Hi3.
    rewrite lookup_putInstance in Hi3 by eauto. injection Hi3 as <-.
    apply (Hnoop _ (gcInstance (set_isMounted false i2))); [|reflexivity].
    cbn [world]. apply lookup_putInstance.
    rewrite lookup_putInstance; eauto.
  - injection H' as <-. by eapply Hnoop.
Qed.

(** *** The element builder *)

Lemma dropEmptyTail_loop_spec children n :
  (n <= length children)%nat ->
  -1 <= dropEmptyTail_loop children n < Z.of_nat n
  /\ (forall k x, dropEmptyTail_loop children n < Z.of_nat k < Z.of_nat n ->
        children !! k = Some x -> isEmptyPlaceholder x = true)
  /\ (forall x, children !! Z.to_nat (dropEmptyTail_loop children n) = Some x ->
        0 <= dropEmptyTail_loop children n -> isEmptyPlaceholder x = false).
Proof.
  induction n as [|n IH]; intros Hn.
  - simpl. split; [lia|]. split; intros; lia.
  - simpl dropEmptyTail_loop.
    destruct (children !! n) as [y|] eqn:Ey;
      [|apply lookup_ge_None in Ey; lia].
    simpl. destruct (isEmptyPlaceholder y) eqn:Py.
    + destruct IH as (IH1 & IH2 & IH3); [lia|].
      split; [lia|]. split; [|done].
      intros k x Hk Hx. destruct (decide (k = n)) as [->|].
      * by simplify_eq.
      * apply (IH2 k x); [lia|done].
    + split; [lia|]. split; [intros; lia|].
      intros x Hx _. rewrite Nat2Z.id in Hx. by simplify_eq.
Qed.

Lemma trailing_dropped_take children :
  trailing_dropped children
    (slice0 children (dropEmptyTail_loop children (length children) + 1)).
Proof.
  destruct (dropEmptyTail_loop_spec children (length children))
    as (H1 & H2 & H3); [done|].
  set (i := dropEmptyTail_loop children (length children)) in *.
  unfold slice0.
  exists (drop (Z.to_nat (i + 1)) children). split; [by rewrite take_drop|].
  split.
  - apply Forall_lookup. intros k x Hk. rewrite lookup_drop in Hk.
    apply (H2 (Z.to_nat (i + 1) + k)%nat x); [|exact Hk].
    apply lookup_lt_Some in Hk. lia.
  - intros x Hx. rewrite last_lookup, length_take_le in Hx by lia.
    destruct (decide (i = -1)) as [Hi|Hi].
    + by rewrite Hi in Hx.
    + rewrite lookup_take_lt in Hx by lia.
      apply H3; [|lia]. by replace (Z.to_nat i) with (pred (Z.to_nat (i + 1))) by lia.
Qed.

Lemma loop_all_placeholders children :
  dropEmptyTail_loop children (length children) = -1
  <-> Forall (fun x => isEmptyPlaceholder x = true) children.
Proof.
  destruct (dropEmptyTail_loop_spec children (length children))
    as (H1 & H2 & H3); [done|].
  split.
  - intros Hi. apply Forall_lookup. intros k x Hk. apply (H2 k x); [|done].
    apply lookup_lt_Some in Hk. lia.
  - intros Hall.
    destruct (decide (dropEmptyTail_loop children (length children) = -1))
      as [|Hne]; [done|].
    destruct (children !! Z.to_nat (dropEmptyTail_loop children (length children)))
      as [x|] eqn:Ex.
    + pose proof (Forall_lookup_1 _ _ _ _ Hall Ex) as Hp. simpl in Hp.
      rewrite (H3 x eq_refl) in Hp by lia. discriminate.
    + apply lookup_ge_None in Ex. lia.
Qed.

(** What [dropEmptyTail] keeps.  Without [noEmpty] the trailing
    placeholders go, all of them; with [noEmpty] likewise, except that
    of a non-empty list of placeholders only the first one stays. *)
Lemma dropEmptyTail_spec children noEmpty :
  if noEmpty && bool_decide (children <> [])
     && forallb isEmptyPlaceholder children
  then dropEmptyTail children noEmpty = take 1 children
  else trailing_dropped children (dropEmptyTail children noEmpty).
Proof.
  pose proof (trailing_dropped_take children) as Hk.
  pose proof (loop_all_placeholders children) as Hall.
  destruct (dropEmptyTail_loop_spec children (length children))
    as (H1 & _ & _); [done|].
  unfold dropEmptyTail.
  set (i := dropEmptyTail_loop children (length children)) in *.
  assert (Hfb : forallb isEmptyPlaceholder children = true <-> i = -1).
  { rewrite Hall, forallb_forall, Forall_forall.
    by setoid_rewrite list_elem_of_In. }
  destruct (decide (i = Z.of_nat (length children) - 1)) as [Hlast|Hlast];
    [rewrite (bool_decide_true _ Hlast) | rewrite (bool_decide_false _ Hlast)].
  - (* nothing trails *)
    assert (Hid : slice0 children (i + 1) = children).
    { unfold slice0. apply take_ge. lia. }
    rewrite Hid in Hk.
    destruct (noEmpty && bool_decide (children <> [])
              && forallb isEmptyPlaceholder children) eqn:E; [|done].
    apply andb_prop in E as [E1 E2]. apply Hfb in E2.
    assert (length children = 0%nat) as Hl by lia.
    apply nil_length_inv in Hl. by rewrite Hl.
  - assert (children <> []) as Hne.
    { intros ->. simpl in *. lia. }
    rewrite (bool_decide_true _ Hne), andb_true_r.
    destruct noEmpty; simpl.
    + case_bool_decide as Hi.
      * apply Hfb in Hi. by rewrite Hi.
      * destruct (forallb isEmptyPlaceholder children); [|done].
        by destruct Hi, (proj1 Hfb).
    + by rewrite andb_false_r.
Qed.

Lemma grow_nil m : grow [] m = m.
Proof. unfold grow. rewrite app_nil_r. by destruct m as [[] ?]. Qed.

Lemma grow_grow h1 h2 m : grow h2 (grow h1 m) = grow (h1 ++ h2) m.
Proof. unfold grow. simpl. by rewrite app_assoc. Qed.

Lemma alloc_run o m :
  alloc o m = (Ok (length (heap (world m))), grow [o] m).
Proof. reflexivity. Qed.

Lemma builtFrom_app h h' child r :
  builtFrom h child r -> builtFrom (h ++ h') child r.
Proof. intros (e & He & Hp). exists e. split; [by apply lookup_app_l_Some|done]. Qed.

Lemma buildTextElement_exact v m :
  buildTextElement U v m
  = match builtText (heap (world m)) v with
    | Ok (objs, r) => (Ok r, grow objs m)
    | Throw => (Throw, m)
    end.
Proof.
  unfold buildTextElement, builtText, bind, get.
  by destruct (String_ U (heap (world m)) v).
Qed.

Lemma buildChildElement_exact child m :
  buildChildElement U child m
  = match builtChild (heap (world m)) child with
    | Ok (objs, r) => (Ok r, grow objs m)
    | Throw => (Throw, m)
    end.
Proof.
  unfold buildChildElement, builtChild, bind at 1, get.
  destruct (isEmptyPlaceholder child) eqn:Hp; [reflexivity|].
  destruct child as [| | | | |r]; try apply buildTextElement_exact.
  unfold parentAt. simpl.
  destruct (heap (world m) !! r) as [[e| |]|];
    try apply (buildTextElement_exact (VObject r)).
  destruct (isParentElement e);
    [|apply (buildTextElement_exact (VObject r))].
  by rewrite grow_nil.
Qed.

(** A child is built by allocation only, also when [String] throws. *)
Lemma buildChildElement_grows child m :
  exists r h', buildChildElement U child m = (r, grow h' m).
Proof.
  rewrite buildChildElement_exact.
  destruct (builtChild (heap (world m)) child) as [[objs r]|]; [by eauto|].
  exists Throw, []. by rewrite grow_nil.
Qed.

Lemma mapM_buildChildElement_grows l m :
  exists r h', mapM (buildChildElement U) l m = (r, grow h' m).
Proof.
  revert m. induction l as [|x l IH]; intros m; simpl.
  - exists (Ok []), []. by rewrite grow_nil.
  - destruct (buildChildElement_grows x m) as ([r|] & h1 & Hr).
    + rewrite (bind_ok _ _ _ _ _ Hr).
      destruct (IH (grow h1 m)) as ([rs|] & h2 & Hrs).
      * rewrite (bind_ok _ _ _ _ _ Hrs). unfold ret. rewrite grow_grow. eauto.
      * rewrite (bind_throw _ _ _ _ Hrs), grow_grow. eauto.
    + rewrite (bind_throw _ _ _ _ Hr). eauto.
Qed.

Lemma builtChild_builtFrom h child objs r :
  builtChild h child = Ok (objs, r) -> builtFrom (h ++ objs) child r.
Proof.
  unfold builtChild, builtFrom.
  assert (Htext : isEmptyPlaceholder child = false ->
            builtText h child = Ok (objs, r) ->
            exists e, (h ++ objs) !! r = Some (OElement e)
                      /\ isEmptyElement e = isEmptyPlaceholder child).
  { intros Hp. unfold builtText.
    destruct (String_ U h child) as [s|]; [|done]. intros [= <- <-].
    exists (VirtualElementText s). rewrite Hp. split; [|done].
    by rewrite lookup_app_r, Nat.sub_diag. }
  destruct (isEmptyPlaceholder child) eqn:Hp.
  - intros [= <- <-]. exists VirtualElementEmpty. split; [|done].
    by rewrite lookup_app_r, Nat.sub_diag.
  - destruct child as [| | | | |x]; try (by apply Htext).
    unfold parentAt.
    destruct (h !! x) as [[e| |]|] eqn:Ex; try (by apply Htext).
    destruct (isParentElement e) eqn:Pe; [|by apply Htext].
    intros [= <- <-]. rewrite app_nil_r. exists e. split; [done|].
    by destruct e.
Qed.

Lemma builds_app h h1 v : builds h v -> builds (h ++ h1) v.
Proof. intros Hv h2. rewrite <-app_assoc. apply Hv. Qed.

Lemma stringifies_builds h v : stringifies v -> builds h v.
Proof.
  intros Hv h1. unfold builtChild, builtText.
  destruct (Hv (h ++ h1)) as [s Hs]. rewrite Hs.
  destruct (isEmptyPlaceholder v); [by eauto|].
  destruct v as [| | | | |x]; try (by eauto).
  destruct (parentAt (h ++ h1) x); by eauto.
Qed.

Lemma placeholder_builds h v : isEmptyPlaceholder v = true -> builds h v.
Proof. intros Hv h1. unfold builtChild. rewrite Hv. by eauto. Qed.

(** [String] of a value that is no object returns. *)
Lemma stringifies_primitive v :
  (forall x, v <> VObject x) -> stringifies v.
Proof.
  intros Hv h. destruct v as [| |[|]|[| |]| |x]; simpl; try (by eauto).
  by destruct (Hv x).
Qed.

Lemma buildChildElement_run child m :
  builds (heap (world m)) child ->
  exists r h',
    buildChildElement U child m = (Ok r, grow h' m)
    /\ builtFrom (heap (world m) ++ h') child r.
Proof.
  intros Hv. destruct (Hv []) as [[objs r] Hx]. rewrite app_nil_r in Hx.
  exists r, objs. rewrite buildChildElement_exact, Hx. split; [done|].
  by apply builtChild_builtFrom.
Qed.

Lemma mapM_buildChildElement_run l m :
  Forall (builds (heap (world m))) l ->
  exists rs h',
    mapM (buildChildElement U) l m = (Ok rs, grow h' m)
    /\ Forall2 (builtFrom (heap (world m) ++ h')) l rs.
Proof.
  revert m. induction l as [|x l IH]; intros m Hl.
  - exists [], []. rewrite grow_nil. split; [done|constructor].
  - apply Forall_cons in Hl as [Hx Hl].
    destruct (buildChildElement_run x m Hx) as (r & h1 & Hr & Hb).
    destruct (IH (grow h1 m)) as (rs & h2 & Hrs & Hbs).
    { simpl. eapply Forall_impl; [exact Hl|]. intros v. apply builds_app. }
    exists (r :: rs), (h1 ++ h2). split.
    + simpl. rewrite (bind_ok _ _ _ _ _ Hr), (bind_ok _ _ _ _ _ Hrs).
      by rewrite grow_grow.
    + simpl in Hbs. rewrite app_assoc. constructor; [|done].
      by apply builtFrom_app.
Qed.

Lemma trailing_dropped_all children kept :
  Forall (fun x => isEmptyPlaceholder x = true) children ->
  trailing_dropped children kept -> kept = [].
Proof.
  intros Hall (dropped & -> & _ & Hlast).
  destruct (last kept) as [x|] eqn:Ex; [|by apply last_None].
  pose proof (Hlast x eq_refl) as Hx.
  apply last_Some in Ex as [k' ->].
  exfalso. rewrite !Forall_app, Forall_singleton in Hall.
  destruct Hall as [[_ Hall] _]. congruence.
Qed.

Lemma buildTagElement_run tag p children m :
  Forall (builds (heap (world m))) (dropEmptyTail children false) ->
  exists e h' cs,
    buildTagElement U tag p children m = (Ok e, grow h' m)
    /\ (heap (world m) ++ h') !! e = Some (OElement (VirtualElementTag tag p cs))
    /\ Forall2 (builtFrom (heap (world m) ++ h')) (dropEmptyTail children false) cs.
Proof.
  intros Hs.
  destruct (mapM_buildChildElement_run (dropEmptyTail children false) m Hs)
    as (cs & h1 & Hcs & Hb).
  eexists _, (h1 ++ [_]), cs. unfold buildTagElement.
  rewrite (bind_ok _ _ _ _ _ Hcs), alloc_run, grow_grow.
  split; [reflexivity|]. rewrite app_assoc. split.
  - simpl. by rewrite lookup_app_r, Nat.sub_diag.
  - eapply Forall2_impl; [exact Hb|]. intros. by apply builtFrom_app.
Qed.

Lemma buildFragmentElement_run children m :
  Forall (builds (heap (world m))) (dropEmptyTail children true) ->
  exists e h' cs,
    buildFragmentElement U children m = (Ok e, grow h' m)
    /\ (heap (world m) ++ h') !! e = Some (OElement (VirtualElementFragment cs))
    /\ Forall2 (builtFrom (heap (world m) ++ h')) (dropEmptyTail children true) cs.
Proof.
  intros Hs.
  destruct (mapM_buildChildElement_run (dropEmptyTail children true) m Hs)
    as (cs & h1 & Hcs & Hb).
  eexists _, (h1 ++ [_]), cs. unfold buildFragmentElement.
  rewrite (bind_ok _ _ _ _ _ Hcs), alloc_run, grow_grow.
  split; [reflexivity|]. rewrite app_assoc. split.
  - simpl. by rewrite lookup_app_r, Nat.sub_diag.
  - eapply Forall2_impl; [exact Hb|]. intros. by apply builtFrom_app.
Qed.

(** The builders of tag and Fragment elements allocate only, also when
    they throw. *)
Lemma buildTagElement_grows tag p children m :
  exists r h', buildTagElement U tag p children m = (r, grow h' m).
Proof.
  unfold buildTagElement.
  destruct (mapM_buildChildElement_grows (dropEmptyTail children false) m)
    as ([cs|] & h1 & Hcs).
  - rewrite (bind_ok _ _ _ _ _ Hcs), alloc_run, grow_grow. eauto.
  - rewrite (bind_throw _ _ _ _ Hcs). eauto.
Qed.

Lemma buildFragmentElement_grows children m :
  exists r h', buildFragmentElement U children m = (r, grow h' m).
Proof.
  unfold buildFragmentElement.
  destruct (mapM_buildChildElement_grows (dropEmptyTail children true) m)
    as ([cs|] & h1 & Hcs).
  - rewrite (bind_ok _ _ _ _ _ Hcs), alloc_run, grow_grow. eauto.
  - rewrite (bind_throw _ _ _ _ Hcs). eauto.
Qed.

Lemma buildComponentElement_run c i children m :
  instances (world m) !! c = Some i ->
  Forall (builds (heap (world m))) (dropEmptyTail children true) ->
  exists h' cs,
    buildComponentElement U c children m
    = (Ok (length (heap (world m) ++ h')),
       grow (h' ++ [OElement (VirtualElementComponent c (props i) cs)]) m)
    /\ Forall2 (builtFrom (heap (world m) ++ h')) (dropEmptyTail children true) cs.
Proof.
  intros Hi Hs.
  destruct (mapM_buildChildElement_run (dropEmptyTail children true) m Hs)
    as (cs & h1 & Hcs & Hb).
  exists h1, cs. unfold buildComponentElement.
  rewrite (bind_ok _ _ _ _ _ (getInstance_ok _ _ _ Hi)).
  rewrite (bind_ok _ _ _ _ _ Hcs), alloc_run, grow_grow. done.
Qed.

(** Of a list of placeholders only, [noEmpty] keeps exactly one, and one
    Empty element is built for it. *)
Lemma collapse_to_one_Empty h children cs :
  children <> [] ->
  forallb isEmptyPlaceholder children = true ->
  Forall2 (builtFrom h) (dropEmptyTail children true) cs ->
  exists r, cs = [r] /\ h !! r = Some (OElement VirtualElementEmpty).
Proof.
  intros Hne Hall Hb. pose proof (dropEmptyTail_spec children true) as Hs.
  rewrite Hall, (bool_decide_true _ Hne) in Hs. simpl in Hs. rewrite Hs in Hb.
  destruct children as [|x l]; [done|]. simpl in Hall, Hb.
  apply andb_prop in Hall as [Hx _].
  rewrite take_0 in Hb.
  apply Forall2_cons_inv_l in Hb as (r & cs' & (e & He & Hp) & Hnil & ->).
  apply Forall2_nil_inv_l in Hnil as ->.
  exists r. split; [done|]. rewrite Hx in Hp. by destruct e.
Qed.

Lemma createComponentInstance_run f p children m :
  exists e m' i p',
    createComponentInstance U f p children m = (Ok e, m')
    /\ instances (world m') = instances (world m) ++ [i]
    /\ id i = increment (lastComponentId (world m))
    /\ Component_ i = Some f
    /\ isMounted i = false
    /\ _element i = Some e
    /\ props i = Some p'
    /\ childrenProp (heap (world m')) p children p'
    /\ heap (world m') !! e
       = Some (OElement
                 (VirtualElementComponent (length (instances (world m)))
                    (Some p') [])).
Proof.
  unfold createComponentInstance.
  set (pc := match children with
             | [] => ret VUndefined
             | [x] => ret x
             | _ => r <- alloc (OArray children) ;; ret (VObject r)
             end).
  assert (Hpc : exists v h0, pc m = (Ok v, grow h0 m)
            /\ forall p' h1,
                p' = (if truthy v then <["children"%string := v]> p else p) ->
                childrenProp (heap (world m) ++ h0 ++ h1) p children p').
  { subst pc. destruct children as [|x [|y l]].
    - exists VUndefined, []. rewrite grow_nil. split; [done|].
      by intros p' h1 ->.
    - exists x, []. rewrite grow_nil. split; [done|]. by intros p' h1 ->.
    - exists (VObject (length (heap (world m)))), [OArray (x :: y :: l)].
      split; [done|]. intros p' h1 ->. simpl.
      exists (length (heap (world m))). split; [|done].
      by rewrite lookup_app_r, Nat.sub_diag. }
  destruct Hpc as (v & h0 & Hv & Hprop).
  rewrite (bind_ok _ _ _ _ _ Hv). clear Hv pc.
  unfold bind at 1, get. unfold bind at 1, modify. cbn [world trace grow].
  unfold bind at 1. rewrite alloc_run.
  unfold bind at 1, allocInstance, bind at 1, get, bind at 1, modify, ret.
  cbn [world trace grow]. simpl.
  match goal with
  | |- context [ bind (buildComponentElement U ?c []) _ ?m1 ] =>
      destruct (buildComponentElement_run c
                  (mkInstance (increment (lastComponentId (world m)))
                     (Some (length (heap (world m) ++ h0)))
                     (Some f) (function_name U f)
                     (Some (if truthy v
                            then <["children"%string := v]> p else p))
                     VUndefined false (Some emptyHooks) None None None)
                  [] m1) as (h2 & cs & Hrun & Hb)
  end.
  { simpl. by rewrite lookup_app_r, Nat.sub_diag. }
  { constructor. }
  apply Forall2_nil_inv_l in Hb as ->.
  simpl in Hrun. rewrite (bind_ok _ _ _ _ _ Hrun). clear Hrun.
  erewrite bind_ok
    by (apply updInstance_ok; simpl; by rewrite lookup_app_r, Nat.sub_diag).
  unfold ret. eexists _, _, _, _. split; [reflexivity|]. simpl.
  rewrite <-(Nat.add_0_r (length (instances (world m)))) at 1.
  rewrite insert_app_r. simpl.
  split; [reflexivity|]. do 5 (split; [reflexivity|]). split.
  - rewrite <-!app_assoc. apply Hprop. reflexivity.
  - rewrite <-!app_assoc, !app_assoc.
    rewrite lookup_app_r by (rewrite !length_app; simpl; lia).
    rewrite !length_app. simpl.
    by replace (_ - _)%nat with 0%nat by lia.
Qed.

(** C6 (amended). What the element builder does with the flattened
    children [fl], by source.
    - String tag: the trailing placeholders are dropped, all of them, and,
      when the element of each value kept is built without a throw (the
      value is a placeholder or a parent element, or [String] of it
      returns), one child element is built for each value kept; of
      placeholders only, nothing is kept and the tag element has no child
      at all.
    - Fragment: the same, except that of a non-empty list of
      placeholders only one is kept, for which one Empty element is built.
    - Render function: no trailing placeholder is dropped and no child
      element is built, so the call always returns.  The [children] prop
      of the new instance is derived from [fl]: with two children or more
      it is the whole array, placeholders included; with one child that
      is truthy it is that child; with no child, or with one child that
      is falsy ([false], [null], [undefined], [0], [NaN] or the empty
      string), the props are left as they were given.  The component
      element is built with no child. *)
Theorem createElement_children p children m :
  let fl := flat (heap (world m)) children in
  (forall tag,
      Forall (builds (heap (world m))) (dropEmptyTail fl false) ->
      exists e m' cs,
      createElement U (SourceTag tag) p children m = (Ok e, m')
      /\ heap (world m') !! e
         = Some (OElement (VirtualElementTag tag (default ∅ p) cs))
      /\ Forall2 (builtFrom (heap (world m'))) (dropEmptyTail fl false) cs
      /\ trailing_dropped fl (dropEmptyTail fl false)
      /\ (forallb isEmptyPlaceholder fl = true -> cs = []))
  /\ (Forall (builds (heap (world m))) (dropEmptyTail fl true) ->
      exists e m' cs,
        createElement U SourceFragment p children m = (Ok e, m')
        /\ heap (world m') !! e = Some (OElement (VirtualElementFragment cs))
        /\ Forall2 (builtFrom (heap (world m'))) (dropEmptyTail fl true) cs
        /\ if bool_decide (fl <> []) && forallb isEmptyPlaceholder fl
           then exists r, cs = [r]
                          /\ heap (world m') !! r
                             = Some (OElement VirtualElementEmpty)
           else trailing_dropped fl (dropEmptyTail fl true))
  /\ (forall f, exists e m' i p',
        createElement U (SourceComponent f) p children m = (Ok e, m')
        /\ instances (world m') !! length (instances (world m)) = Some i
        /\ _element i = Some e
        /\ props i = Some p'
        /\ childrenProp (heap (world m')) (default ∅ p) fl p'
        /\ heap (world m') !! e
           = Some (OElement
                     (VirtualElementComponent (length (instances (world m)))
                        (Some p') []))).
Proof.
  intros fl. split; [|split].
  - intros tag Hbuilds.
    destruct (buildTagElement_run tag (default ∅ p) fl m Hbuilds)
      as (e & h' & cs & Hrun & He & Hb).
    pose proof (dropEmptyTail_spec fl false) as Hs. simpl in Hs.
    exists e, (grow h' m), cs. split; [exact Hrun|].
    split; [exact He|]. split; [exact Hb|]. split; [exact Hs|].
    intros Hall.
    assert (dropEmptyTail fl false = []) as Hnil.
    { eapply trailing_dropped_all; [|exact Hs].
      rewrite forallb_forall in Hall. apply Forall_forall.
      intros x Hx. apply Hall. by apply list_elem_of_In. }
    rewrite Hnil in Hb. by apply Forall2_nil_inv_l in Hb.
  - intros Hbuilds.
    destruct (buildFragmentElement_run fl m Hbuilds)
      as (e & h' & cs & Hrun & He & Hb).
    pose proof (dropEmptyTail_spec fl true) as Hs. simpl in Hs.
    exists e, (grow h' m), cs. split; [exact Hrun|].
    split; [exact He|]. split; [exact Hb|].
    destruct (bool_decide (fl <> []) && forallb isEmptyPlaceholder fl) eqn:E;
      [|exact Hs].
    apply andb_prop in E as [E1 E2]. apply bool_decide_eq_true in E1.
    by eapply collapse_to_one_Empty.
  - intros f.
    destruct (createComponentInstance_run f (default ∅ p) fl m)
      as (e & m' & i & p' & Hrun & Hi & _ & _ & _ & He & Hp & Hc & Hh).
    exists e, m', i, p'. split; [exact Hrun|].
    split; [by rewrite Hi, lookup_app_r, Nat.sub_diag|]. done.
Qed.

(** *** Rendering *)

Lemma instances_afterRender r i2 w2 :
  instances (afterRender r i2 w2).2 = instances w2.
Proof. by destruct r. Qed.

Lemma heap_afterRender r i2 w2 : heap (afterRender r i2 w2).2 = heap w2.
Proof. by destruct r. Qed.

Lemma renderOutcome_call c i h f w r w2 :
  hooks i = Some h ->
  Component_ i = Some f ->
  call_Component U f (props i) (renderWorld c i h w) = (r, w2) ->
  renderOutcome c i w = (r, w2, [EvComponent c f]).
Proof. intros Hh Hf Hcall. unfold renderOutcome. by rewrite Hh, Hf, Hcall. Qed.

Section Render.

Variables (c : nat) (m : Machine) (i : ComponentInstance)
  (r : Res value) (w2 : World) (evs : list Event) (i2 : ComponentInstance).

Hypothesis Hi : instances (world m) !! c = Some i.

Hypothesis Hout : renderOutcome c i (world m) = (r, w2, evs).

Hypothesis Hi2 : instances w2 !! c = Some i2.

Lemma renderComponent_unfold :
  renderComponent U c m
  = (let newRenderedValue := (afterRender r i2 w2).1 in
     i1 <- getInstance c ;;
     if isMounted i1 && strict_eq newRenderedValue (renderedValue i1)
     then ret (_element i1)
     else
       updInstance c (set_renderedValue newRenderedValue) ;;
       w <- get ;;
       let children :=
         default [newRenderedValue] (as_array (heap w) newRenderedValue) in
       e <- buildComponentElement U c children ;;
       updInstance c (set_element (Some e)) ;;
       i2 <- getInstance c ;;
       ret (_element i2))
      (mkMachine (afterRender r i2 w2).2 (trace m ++ evs)).
Proof using Hi Hout Hi2.
  unfold renderComponent.
  rewrite (bind_ok _ _ _ _ _ (getInstance_ok _ _ _ Hi)).
  unfold bind at 1, exclude, modify.
  unfold bind at 1, safeExec, try_catch.
  unfold bind at 1, modify. cbn [world trace].
  erewrite bind_ok by (apply getInstance_ok; simpl; exact Hi).
  unfold renderOutcome in Hout.
  destruct (hooks i) as [h|].
  - erewrite bind_ok by (apply updInstance_ok; simpl; exact Hi).
    destruct (Component_ i) as [f|].
    + unfold bind at 1, log, user. cbn [world trace].
      fold (renderWorld c i h (world m)).
      destruct (call_Component U f (props i) (renderWorld c i h (world m)))
        as [r' w'].
      injection Hout as <- <- <-.
      destruct r' as [out|]; [reflexivity|].
      erewrite bind_ok by (apply getInstance_ok; simpl; exact Hi2).
      reflexivity.
    + injection Hout as <- <- <-. unfold throw.
      erewrite bind_ok by (apply getInstance_ok; simpl; exact Hi2).
      by rewrite app_nil_r.
  - injection Hout as <- <- <-. unfold bind at 1, throw.
    erewrite bind_ok by (apply getInstance_ok; simpl; exact Hi2).
    by rewrite app_nil_r.
Qed.

Lemma renderComponent_bail :
  isMounted i2 = true ->
  strict_eq (afterRender r i2 w2).1 (renderedValue i2) = true ->
  renderComponent U c m
  = (Ok (_element i2),
     mkMachine (afterRender r i2 w2).2 (trace m ++ evs)).
Proof using Hi Hout Hi2.
  intros Hm He. rewrite renderComponent_unfold. cbv zeta.
  erewrite bind_ok
    by (apply getInstance_ok; cbn [world]; rewrite instances_afterRender;
        exact Hi2).
  by rewrite Hm, He.
Qed.

Lemma renderComponent_rebuild :
  isMounted i2 && strict_eq (afterRender r i2 w2).1 (renderedValue i2) = false ->
  let nrv := (afterRender r i2 w2).1 in
  let w3 := (afterRender r i2 w2).2 in
  Forall (builds (heap w3)) (renderedChildren (heap w3) nrv) ->
  exists h' cs,
    renderComponent U c m
    = (Ok (Some (length (heap w3 ++ h'))),
       mkMachine
         (putInstance c
            (set_element (Some (length (heap w3 ++ h')))
               (set_renderedValue nrv i2))
            (set_heap
               (heap w3 ++ h'
                ++ [OElement (VirtualElementComponent c (props i2) cs)])
               w3))
         (trace m ++ evs))
    /\ Forall2 (builtFrom (heap w3 ++ h'))
         (dropEmptyTail (default [nrv] (as_array (heap w3) nrv)) true) cs.
Proof using Hi Hout Hi2.
  intros Hc nrv w3 Hbuilds. rewrite renderComponent_unfold. cbv zeta.
  assert (Hi3 : instances w3 !! c = Some i2).
  { subst w3. by rewrite instances_afterRender. }
  erewrite bind_ok by (apply getInstance_ok; exact Hi3).
  rewrite Hc.
  erewrite bind_ok by (apply updInstance_ok; exact Hi3).
  unfold bind at 1, get. cbn [world trace].
  fold nrv w3.
  edestruct (buildComponentElement_run c (set_renderedValue nrv i2))
    as (h' & cs & Hrun & Hb);
    [| |exists h', cs; split;
      [erewrite bind_ok by exact Hrun|exact Hb]].
  { cbn [world]. apply lookup_putInstance. eauto. }
  { exact Hbuilds. }
  erewrite bind_ok
    by (apply updInstance_ok; simpl; apply list_lookup_insert_eq;
        by eapply lookup_lt_Some).
  erewrite bind_ok
    by (apply getInstance_ok; simpl; apply list_lookup_insert_eq;
        rewrite length_insert; by eapply lookup_lt_Some).
  unfold ret. simpl. unfold putInstance. simpl.
  by rewrite list_insert_insert_eq.
Qed.

End Render.

Lemma untouched_fields i i2 :
  untouched i i2 ->
  id i2 = id i /\ _element i2 = _element i /\ name i2 = name i
  /\ props i2 = props i /\ renderedValue i2 = renderedValue i
  /\ isMounted i2 = isMounted i /\ onUpdate i2 = onUpdate i.
Proof.
  destruct i, i2. unfold untouched, set_hooks. simpl.
  intros E. injection E. intros. by subst.
Qed.

(** C1. Let [c] be a mounted instance whose render function returns an
    output that is [===] to the stored [renderedValue] (and, as render
    functions do, leaves the fields of the instance other than its hooks
    alone).  Then [renderComponent] returns the element the instance
    already had and leaves the world as the render function left it: no
    object is allocated and no field is written.  [forceUpdateComponent]
    on that instance ends in the same state after the one call of the
    render function, or does nothing at all when no [onUpdate] is
    installed: [onUpdate] is not called. *)
Theorem renderComponent_bail_out c m i h f out w2 i2 :
  instances (world m) !! c = Some i ->
  hooks i = Some h ->
  Component_ i = Some f ->
  isMounted i = true ->
  call_Component U f (props i) (renderWorld c i h (world m)) = (Ok out, w2) ->
  instances w2 !! c = Some i2 ->
  untouched i i2 ->
  strict_eq out (renderedValue i) = true ->
  renderComponent U c m
  = (Ok (_element i), mkMachine w2 (trace m ++ [EvComponent c f]))
  /\ forceUpdateComponent U c m
     = (Ok tt,
        match onUpdate i with
        | Some _ => mkMachine w2 (trace m ++ [EvComponent c f])
        | None => m
        end).
Proof.
  intros Hi Hh Hf Hm Hcall Hi2 Hu He.
  destruct (untouched_fields _ _ Hu) as (_ & Hel & _ & _ & Hrv & Hm2 & Hon).
  assert (Hr : renderComponent U c m
               = (Ok (_element i), mkMachine w2 (trace m ++ [EvComponent c f]))).
  { rewrite <-Hel.
    apply (renderComponent_bail c m i (Ok out) w2 [EvComponent c f] i2);
      try done; [by apply (renderOutcome_call c i h)|..].
    - congruence.
    - simpl. congruence. }
  split; [exact Hr|].
  unfold forceUpdateComponent.
  rewrite (bind_ok _ _ _ _ _ (getInstance_ok _ _ _ Hi)), Hm.
  destruct (onUpdate i) as [g|] eqn:Eg; [|reflexivity].
  rewrite bool_decide_true by eauto. simpl.
  rewrite (bind_ok _ _ _ _ _ Hr).
  erewrite bind_ok by (apply getInstance_ok; exact Hi2).
  by rewrite Hel, bool_decide_true.
Qed.

Lemma strict_eq_refl v : v <> VNumber NaN -> strict_eq v v = true.
Proof.
  destruct v as [| | | [|z|x] | |]; simpl; intros Hv;
    try done; by rewrite bool_decide_true.
Qed.

(** When the render function of instance [c] throws (having left the
    fields of the instance other than its hooks alone),
    [renderComponent] returns normally; the console holds one line more
    than the render function left, the line naming the component; the
    stored [renderedValue] is what it was, and it is the output the
    element is built from when one is built.  When the instance is
    mounted and its stored output is [===] to itself, which every value
    but [NaN] is, the element of the instance is the one it had before
    and nothing else than the console has changed. *)
Lemma renderComponent_render_throws c m i h f w2 i2 :
  instances (world m) !! c = Some i ->
  hooks i = Some h ->
  Component_ i = Some f ->
  call_Component U f (props i) (renderWorld c i h (world m)) = (Throw, w2) ->
  instances w2 !! c = Some i2 ->
  untouched i i2 ->
  (isMounted i = true ->
   renderedValue i <> VNumber NaN ->
   renderComponent U c m
   = (Ok (_element i),
      mkMachine (set_console (console w2 ++ [renderError (name i)]) w2)
        (trace m ++ [EvComponent c f])))
  /\ (Forall (builds (heap w2)) (renderedChildren (heap w2) (renderedValue i)) ->
      exists e m' i',
        renderComponent U c m = (Ok e, m')
        /\ console (world m') = console w2 ++ [renderError (name i)]
        /\ instances (world m') !! c = Some i'
        /\ renderedValue i' = renderedValue i
        /\ _element i' = e
        /\ (e <> _element i ->
            exists r cs,
              e = Some r
              /\ heap (world m') !! r
                 = Some (OElement (VirtualElementComponent c (props i) cs))
              /\ Forall2 (builtFrom (heap (world m')))
                   (renderedChildren (heap w2) (renderedValue i)) cs)).
Proof.
  intros Hi Hh Hf Hcall Hi2 Hu.
  destruct (untouched_fields _ _ Hu) as (_ & Hel & Hn & Hp & Hrv & Hm2 & _).
  pose proof (renderOutcome_call _ _ _ _ _ _ _ Hh Hf Hcall) as Hout.
  split.
  - intros Hm Hnan.
    pose proof (renderComponent_bail c m i Throw w2 [EvComponent c f] i2
                  Hi Hout Hi2) as Hr.
    simpl in Hr. rewrite Hm2, Hm, Hrv, strict_eq_refl in Hr by done.
    rewrite (Hr eq_refl eq_refl). by rewrite Hn, Hel.
  - intros Hbuilds.
    destruct (isMounted i2 && strict_eq (renderedValue i2) (renderedValue i2))
      eqn:Hc.
    + (* the stored element is returned *)
      apply andb_prop in Hc as [Hc1 Hc2].
      pose proof (renderComponent_bail c m i Throw w2 [EvComponent c f] i2
                    Hi Hout Hi2 Hc1 Hc2) as Hr.
      simpl in Hr. rewrite Hn in Hr.
      eexists _, _, i2. split; [exact Hr|]. simpl.
      split; [done|]. split; [done|]. split; [done|]. split; [done|].
      intros He. by rewrite Hel in He.
    + (* an element is built from the stored output *)
      destruct (renderComponent_rebuild c m i Throw w2 [EvComponent c f] i2
                  Hi Hout Hi2 Hc) as (h' & cs & Hr & Hb).
      { simpl. by rewrite Hrv. }
      simpl in Hr, Hb. rewrite Hn, Hp, Hrv in Hr. rewrite Hrv in Hb.
      eexists _, _, _. split; [exact Hr|]. simpl.
      split; [done|].
      split; [apply list_lookup_insert_eq; by eapply lookup_lt_Some|].
      split; [done|]. split; [done|].
      intros _. eexists _, cs. split; [done|]. split.
      * rewrite app_assoc. by rewrite lookup_app_r, Nat.sub_diag.
      * eapply Forall2_impl; [exact Hb|]. intros ? ? ?.
        rewrite app_assoc. by apply builtFrom_app.
Qed.

(** *** Mounting *)

(** C10 (amended). Let the first callback of [renderComponent] end in any
    way for the instance [c] (the render function returned, or threw,
    having left the fields of the instance other than its hooks alone, or
    a [TypeError] came before it was called).  Let the element of every
    child of the output be built without a throw: each is a placeholder,
    a parent element, or a value of which [String] returns; this is so
    without more when the callback threw and no output was stored before.
    Then [mountComponent] returns normally, the instance is mounted
    afterwards, and the result is its element.  If the instance was not
    mounted before, that element is a new Component element for this
    instance whose children all are elements; and if moreover the
    callback threw and no output was stored before, the stored output
    still is [undefined], the console got its one line, and the element
    has exactly one child, an Empty element. *)
Theorem mountComponent_mounts c m i r w2 evs i2 :
  instances (world m) !! c = Some i ->
  renderOutcome c i (world m) = (r, w2, evs) ->
  instances w2 !! c = Some i2 ->
  untouched i i2 ->
  (r = Throw /\ renderedValue i = VUndefined)
  \/ Forall (builds (heap w2))
       (renderedChildren (heap w2) (afterRender r i2 w2).1) ->
  exists e m' i',
    mountComponent U c m = (Ok e, m')
    /\ instances (world m') !! c = Some i'
    /\ isMounted i' = true
    /\ _element i' = e
    /\ (isMounted i = false ->
        exists x cs,
          e = Some x
          /\ heap (world m') !! x
             = Some (OElement (VirtualElementComponent c (props i) cs))
          /\ Forall (fun y => exists el,
                        heap (world m') !! y = Some (OElement el)) cs
          /\ (r = Throw ->
              renderedValue i = VUndefined ->
              renderedValue i' = VUndefined
              /\ console (world m') = console w2 ++ [renderError (name i)]
              /\ exists y, cs = [y]
                           /\ heap (world m') !! y
                              = Some (OElement VirtualElementEmpty))).
Proof.
  intros Hi Hout Hi2 Hu Hbuilds.
  destruct (untouched_fields _ _ Hu) as (_ & Hel & Hn & Hp & Hrv & Hm2 & _).
  set (nrv := (afterRender r i2 w2).1).
  set (w3 := (afterRender r i2 w2).2).
  assert (Hi3 : instances w3 !! c = Some i2).
  { subst w3. by rewrite instances_afterRender. }
  assert (Hlt : (c < length (instances w3))%nat) by (by eapply lookup_lt_Some).
  assert (Hh3 : heap w3 = heap w2) by (subst w3; by destruct r).
  assert (Hb3 : Forall (builds (heap w3)) (renderedChildren (heap w3) nrv)).
  { rewrite Hh3. destruct Hbuilds as [[-> Hundef]|Hbuilds]; [|exact Hbuilds].
    subst nrv. simpl. rewrite Hrv, Hundef.
    change (renderedChildren (heap w2) VUndefined) with [VUndefined].
    apply Forall_singleton. by apply placeholder_builds. }
  clear Hbuilds.
  unfold mountComponent.
  destruct (isMounted i2 && strict_eq nrv (renderedValue i2)) eqn:Hc.
  - (* the instance was mounted already and keeps its element *)
    apply andb_prop in Hc as [Hc1 Hc2].
    rewrite (bind_ok _ _ _ _ _
               (renderComponent_bail c m i r w2 evs i2 Hi Hout Hi2 Hc1 Hc2)).
    fold w3. erewrite bind_ok by (apply updInstance_ok; exact Hi3).
    erewrite bind_ok
      by (apply getInstance_ok; simpl; by apply list_lookup_insert_eq).
    unfold ret. eexists _, _, _. split; [reflexivity|]. simpl.
    split; [by apply list_lookup_insert_eq|].
    split; [done|]. split; [done|]. intros Hm. congruence.
  - destruct (renderComponent_rebuild c m i r w2 evs i2 Hi Hout Hi2 Hc Hb3)
      as (h' & cs & Hr & Hb).
    fold nrv w3 in Hr, Hb. rewrite (bind_ok _ _ _ _ _ Hr).
    erewrite bind_ok
      by (apply updInstance_ok; simpl; by apply list_lookup_insert_eq).
    erewrite bind_ok
      by (apply getInstance_ok; simpl; apply list_lookup_insert_eq;
          by rewrite length_insert).
    unfold ret. eexists _, _, _. split; [reflexivity|]. simpl.
    split; [apply list_lookup_insert_eq; by rewrite length_insert|].
    split; [done|]. split; [done|]. intros Hm.
    eexists _, cs. split; [done|]. split; [|split].
    + rewrite app_assoc, lookup_app_r, Nat.sub_diag by done. simpl.
      by rewrite Hp.
    + apply Forall_forall. intros y Hy.
      apply list_elem_of_lookup in Hy as [k Hy].
      apply (Forall2_lookup_r _ _ _ _ _ Hb) in Hy as (v & _ & el & Hel' & _).
      exists el. rewrite app_assoc. by apply lookup_app_l_Some.
    + intros -> Hundef. subst nrv w3. simpl in *.
      rewrite Hrv, Hundef in *. split; [done|]. split; [by rewrite Hn|].
      change (dropEmptyTail [VUndefined] true) with [VUndefined] in Hb.
      apply Forall2_cons_inv_l in Hb as (y & cs' & (el & Hy & Hp') & Hnil & ->).
      apply Forall2_nil_inv_l in Hnil as ->.
      exists y. split; [done|]. rewrite app_assoc.
      apply lookup_app_l_Some. rewrite Hy. by destruct el.
Qed.

(** *** State hooks *)








(** ** Invariants of computations *)

Lemma keeps_ret {A} P (a : A) : keeps P (ret a).
Proof. intros m r m' [= <- <-]. done. Qed.

Lemma keeps_throw {A} P : keeps P (@throw A).
Proof. intros m r m' [= <- <-]. done. Qed.

Lemma keeps_get P : keeps P get.
Proof. intros m r m' [= <- <-]. done. Qed.

Lemma keeps_bind {A B} P (x : M A) (k : A -> M B) :
  keeps P x -> (forall a, keeps P (k a)) -> keeps P (bind x k).
Proof.
  intros Hx Hk m r m' H HP. unfold bind in H.
  destruct (x m) as [[a|] m1] eqn:E.
  - eapply Hk; [exact H|]. eapply Hx; [exact E|exact HP].
  - injection H as <- <-. eapply Hx; [exact E|exact HP].
Qed.

Lemma keeps_try_catch {A} P (x y : M A) :
  keeps P x -> keeps P y -> keeps P (try_catch x y).
Proof.
  intros Hx Hy m r m' H HP. unfold try_catch in H.
  destruct (x m) as [[a|] m1] eqn:E.
  - injection H as <- <-. eapply Hx; [exact E|exact HP].
  - eapply Hy; [exact H|]. eapply Hx; [exact E|exact HP].
Qed.

Lemma keeps_modify P g :
  (forall w t, P (mkMachine w t) -> P (mkMachine (g w) t)) ->
  keeps P (modify g).
Proof.
  intros Hg m r m' [= <- <-] HP. apply Hg. by rewrite machine_eta.
Qed.

Lemma keeps_log P e :
  (forall w t, P (mkMachine w t) -> P (mkMachine w (t ++ [e]))) ->
  keeps P (log e).
Proof.
  intros Hg m r m' [= <- <-] HP. apply Hg. by rewrite machine_eta.
Qed.

Lemma keeps_user {A} P (g : World -> Res A * World) :
  (forall w t, P (mkMachine w t) -> P (mkMachine (g w).2 t)) ->
  keeps P (user g).
Proof.
  intros Hg m r m' H HP. unfold user in H.
  specialize (Hg (world m) (trace m)). rewrite machine_eta in Hg.
  destruct (g (world m)) as [r1 w1]. injection H as <- <-. by apply Hg.
Qed.

Lemma keeps_forEach {A} P (g : A -> M unit) l :
  (forall a, a ∈ l -> keeps P (g a)) -> keeps P (forEach g l).
Proof.
  induction l as [|a l IH]; intros Hg; simpl.
  - apply keeps_ret.
  - apply keeps_bind; [apply Hg; left|].
    intros _. apply IH. intros b Hb. apply Hg. by right.
Qed.

Lemma keeps_mapM {A B} P (g : A -> M B) l :
  (forall a, keeps P (g a)) -> keeps P (mapM g l).
Proof.
  intros Hg. induction l as [|a l IH]; simpl.
  - apply keeps_ret.
  - apply keeps_bind; [apply Hg|]. intros b.
    apply keeps_bind; [apply IH|]. intros bs. apply keeps_ret.
Qed.

Lemma keeps_getInstance P c : keeps P (getInstance c).
Proof.
  intros m r m' H HP. apply getInstance_inv in H as [-> _]. done.
Qed.

Lemma keeps_updInstance P c g :
  (forall w t i, P (mkMachine w t) -> instances w !! c = Some i ->
                 P (mkMachine (putInstance c (g i) w) t)) ->
  keeps P (updInstance c g).
Proof.
  intros Hg m r m' H HP. apply updInstance_inv in H.
  destruct r as [[]|].
  - destruct H as (i & Hi & ->). apply Hg; [by rewrite machine_eta|done].
  - by destruct H as [_ ->].
Qed.


Ltac keeps_unfold :=
  unfold unmountComponent, unmountEffect, helpGc, getEffect, updEffect,
    callCallback, safeExec, exclude, prepareComponentForFrame,
    forceUpdateComponent, renderComponent, buildComponentElement,
    buildChildElement, buildEmptyElement, buildTextElement, alloc,
    runImmediateEffects.

(** One step down the structure of a computation. *)
Ltac keeps_step :=
  cbv beta;
  lazymatch goal with
  | |- keeps _ (ret _) => apply keeps_ret
  | |- keeps _ throw => apply keeps_throw
  | |- keeps _ get => apply keeps_get
  | |- keeps _ (getInstance _) => apply keeps_getInstance
  | |- keeps _ (bind _ _) => apply keeps_bind; [|intros ?]
  | |- keeps _ (try_catch _ _) => apply keeps_try_catch
  | |- keeps _ (forEach _ _) => apply keeps_forEach; intros ? ?
  | |- keeps _ (mapM _ _) => apply keeps_mapM; intros ?
  | |- keeps _ (if ?x then _ else _) => destruct x
  | |- keeps _ (match ?x with _ => _ end) => destruct x
  | |- keeps _ _ => progress keeps_unfold
  end.

(** Every leaf of a runtime function is a [modify], a [log], a call into
    user code or an [updInstance]; [tac] is to show that such a leaf
    keeps the property at hand. *)
Ltac keeps_with tac :=
  repeat keeps_step;
  first
    [ apply keeps_modify; intros ? ?; tac
    | apply keeps_log; intros ? ?; tac
    | apply keeps_user; intros ? ?; tac
    | apply keeps_updInstance; intros ? ? ? ?; tac ].

(** *** Unmounted instances *)

Lemma Set_add_elem {A} `{EqDecision A} (s : list A) x y :
  y ∈ Set_add s x <-> y ∈ s \/ y = x.
Proof.
  unfold Set_add, Set_has. case_bool_decide as Hx.
  - split; [auto|]. intros [?| ->]; done.
  - rewrite elem_of_app, list_elem_of_singleton. done.
Qed.

Lemma unmountComponent_keeps_excluded c x :
  (forall g w, x ∈ idsToExcludeFromUpdate w ->
               x ∈ idsToExcludeFromUpdate (call_callback U g w).2) ->
  keeps (excluded x) (unmountComponent U c).
Proof.
  intros Hcb.
  keeps_with ltac:(unfold excluded; simpl; intros;
                   rewrite ?Set_add_elem; auto).
Qed.

Lemma unmounted_noop c m :
  unmounted c (world m) ->
  prepareComponentForFrame c m = (Ok tt, m)
  /\ forceUpdateComponent U c m = (Ok tt, m).
Proof.
  intros (i & Hi & Hm). unfold prepareComponentForFrame, forceUpdateComponent.
  rewrite !(bind_ok _ _ _ _ _ (getInstance_ok _ _ _ Hi)). by rewrite Hm.
Qed.

Lemma unmountComponent_unmounts c m m' :
  unmountComponent U c m = (Ok tt, m') -> unmounted c (world m').
Proof.
  intros H. unfold unmountComponent in H.
  apply bind_inv_ok in H as (i & m1 & Hg & H).
  apply getInstance_inv in Hg as [-> Hi].
  destruct (isMounted i) eqn:Hm; simpl in H.
  - apply bind_inv_ok in H as ([] & m1 & _ & H).
    apply bind_inv_ok in H as ([] & m2 & _ & H).
    apply bind_inv_ok in H as ([] & m3 & Hu & H).
    apply updInstance_inv in Hu as (i2 & Hi2 & ->).
    apply helpGc_inv in H as (i3 & Hi3 & ->).
    cbn [world] in Hi3.
    rewrite lookup_putInstance in Hi3 by eauto. injection Hi3 as <-.
    exists (gcInstance (set_isMounted false i2)). split; [|reflexivity].
    cbn [world]. apply lookup_putInstance.
    rewrite lookup_putInstance; eauto.
  - injection H as <-. by exists i.
Qed.

Lemma Set_add_idemp {A} `{EqDecision A} (s : list A) x :
  Set_add (Set_add s x) x = Set_add s x.
Proof.
  unfold Set_add at 1. unfold Set_has. rewrite bool_decide_true; [done|].
  apply Set_add_elem. by right.
Qed.

Lemma unmountComponent_excludes c m i r m' :
  (forall g w x, x ∈ idsToExcludeFromUpdate w ->
                 x ∈ idsToExcludeFromUpdate (call_callback U g w).2) ->
  instances (world m) !! c = Some i ->
  isMounted i = true ->
  unmountComponent U c m = (r, m') ->
  id i ∈ idsToExcludeFromUpdate (world m').
Proof.
  intros Hcb Hi Hm H.
  set (m0 := mkMachine
               (set_idsToExcludeFromUpdate
                  (Set_add (idsToExcludeFromUpdate (world m)) (id i)) (world m))
               (trace m)).
  assert (Heq : unmountComponent U c m0 = unmountComponent U c m).
  { unfold unmountComponent.
    rewrite (bind_ok _ _ _ _ _ (getInstance_ok c i m Hi)).
    rewrite (bind_ok _ _ _ _ _ (getInstance_ok c i m0 Hi)).
    rewrite Hm. simpl. unfold bind at 1 3, exclude, modify.
    subst m0. cbn [world trace]. simpl. by rewrite Set_add_idemp. }
  rewrite <-Heq in H.
  eapply (unmountComponent_keeps_excluded c (id i)); [by auto|exact H|].
  unfold excluded. simpl. apply Set_add_elem. by right.
Qed.

Lemma quiet_world c t0 w w' t :
  quiet c t0 (mkMachine w t) -> unmounted c w' -> quiet c t0 (mkMachine w' t).
Proof. intros [_ Ht] Hu. by split. Qed.

Lemma quiet_log c t0 w t e :
  quiet c t0 (mkMachine w t) -> ~ about c e -> quiet c t0 (mkMachine w (t ++ [e])).
Proof.
  intros [Hu (evs & Ht & Hevs)] He. split; [done|]. simpl in *.
  exists (evs ++ [e]). rewrite Ht, app_assoc. split; [done|].
  apply Forall_app. split; [done|]. by apply Forall_singleton.
Qed.

Lemma unmounted_same_instances c w w' :
  instances w' = instances w -> unmounted c w -> unmounted c w'.
Proof. intros E (i & Hi & Hm). exists i. by rewrite E. Qed.

Lemma unmounted_putInstance c c' g w i :
  instances w !! c' = Some i ->
  isMounted (g i) = isMounted i ->
  unmounted c w -> unmounted c (putInstance c' (g i) w).
Proof.
  intros Hi Hg (i0 & Hi0 & Hm). destruct (decide (c' = c)) as [->|Hne].
  - exists (g i). split; [apply lookup_putInstance; eauto|].
    rewrite Hg. congruence.
  - exists i0. by rewrite lookup_putInstance_ne.
Qed.

Ltac quiet_leaf Hcomp Hcb :=
  intros;
  match goal with
  | Hq : quiet _ _ _ |- quiet _ _ (mkMachine _ (_ ++ [_])) =>
      eapply quiet_log; [exact Hq|];
      intros [? [?|?]]; congruence
  | Hq : quiet _ _ _ |- quiet _ _ (mkMachine (putInstance _ _ _) _) =>
      eapply quiet_world; [exact Hq|];
      eapply unmounted_putInstance; [eassumption|reflexivity|apply Hq]
  | Hq : quiet _ _ _ |- quiet _ _ (mkMachine (call_Component _ _ _ _).2 _) =>
      eapply quiet_world; [exact Hq|]; apply Hcomp, Hq
  | Hq : quiet _ _ _ |- quiet _ _ (mkMachine (call_callback _ _ _).2 _) =>
      eapply quiet_world; [exact Hq|]; apply Hcb, Hq
  | Hq : quiet _ _ _ |- quiet _ _ (mkMachine _ _) =>
      eapply quiet_world; [exact Hq|];
      eapply unmounted_same_instances; [|apply Hq]; reflexivity
  end.

Section Quiet.

Variable c : nat.

Hypothesis Hcomp :
  forall f p w, unmounted c w -> unmounted c (call_Component U f p w).2.

Hypothesis Hcb : forall g w, unmounted c w -> unmounted c (call_callback U g w).2.

Lemma prepareComponentForFrame_quiet t0 c' :
  keeps (quiet c t0) (prepareComponentForFrame c').
Proof using Type. keeps_with ltac:(quiet_leaf Hcomp Hcb). Qed.

Lemma forceUpdateComponent_quiet t0 c' :
  keeps (quiet c t0) (forceUpdateComponent U c').
Proof using Hcomp Hcb.
  destruct (decide (c' = c)) as [->|Hne].
  - intros m r m' H [Hu Ht].
    rewrite (proj2 (unmounted_noop c m Hu)) in H. injection H as <- <-.
    by split.
  - keeps_with ltac:(quiet_leaf Hcomp Hcb).
Qed.

Lemma runImmediateEffects_quiet t0 :
  keeps (quiet c t0) (runImmediateEffects U).
Proof using Hcb. keeps_with ltac:(quiet_leaf Hcomp Hcb). Qed.

Lemma runUpdatePassOnRaf_mutation_quiet t0 l :
  keeps (quiet c t0) (runUpdatePassOnRaf_mutation U l).
Proof using Hcomp Hcb.
  unfold runUpdatePassOnRaf_mutation.
  repeat first
    [ apply prepareComponentForFrame_quiet
    | apply forceUpdateComponent_quiet
    | apply runImmediateEffects_quiet
    | keeps_step ];
    first [ apply keeps_modify; intros ? ? | apply keeps_log; intros ? ? ];
    quiet_leaf Hcomp Hcb.
Qed.

End Quiet.

(** C9. For an instance [c]:
    - while it is not mounted, [prepareComponentForFrame] and
      [forceUpdateComponent] return at their guard and change nothing;
    - [unmountComponent] on the mounted instance puts its id into the
      exclusion set, where it still is when [unmountComponent] ends
      (callbacks cannot take an id out of that set), and after a normal
      return the instance is not mounted;
    - when it is not mounted at the start of the write phase of a frame
      pass, whatever list of instances the pass works on, the pass calls
      neither its render function nor its [onUpdate], and it is not
      mounted afterwards (user code does not mount what is unmounted). *)
Theorem unmounted_instance_is_inert c :
  (forall m, unmounted c (world m) ->
     prepareComponentForFrame c m = (Ok tt, m)
     /\ forceUpdateComponent U c m = (Ok tt, m))
  /\ (forall m i r m',
        (forall g w x, x ∈ idsToExcludeFromUpdate w ->
                       x ∈ idsToExcludeFromUpdate (call_callback U g w).2) ->
        instances (world m) !! c = Some i ->
        isMounted i = true ->
        unmountComponent U c m = (r, m') ->
        id i ∈ idsToExcludeFromUpdate (world m')
        /\ (r = Ok tt -> unmounted c (world m')))
  /\ (forall l m r m',
        (forall f p w, unmounted c w -> unmounted c (call_Component U f p w).2) ->
        (forall g w, unmounted c w -> unmounted c (call_callback U g w).2) ->
        unmounted c (world m) ->
        runUpdatePassOnRaf_mutation U l m = (r, m') ->
        unmounted c (world m')
        /\ exists evs,
            trace m' = trace m ++ evs
            /\ forall f, (EvComponent c f ∉ evs) /\ (EvOnUpdate c f ∉ evs)).
Proof.
  split; [|split].
  - apply unmounted_noop.
  - intros m i r m' Hcb Hi Hm H. split.
    + by eapply unmountComponent_excludes.
    + intros ->. by eapply unmountComponent_unmounts.
  - intros l m r m' Hcomp Hcb Hu H.
    destruct (runUpdatePassOnRaf_mutation_quiet c Hcomp Hcb (trace m) l
                m r m' H) as (Hu' & evs & Ht & Hevs).
    { split; [done|]. exists []. by rewrite app_nil_r. }
    split; [done|]. exists evs. split; [done|].
    intros f. rewrite Forall_forall in Hevs.
    split; intros Hin; apply (Hevs _ Hin); exists f; auto.
Qed.

(** *** Draining the queues *)

Lemma forEach_callCallback fs m :
  forEach (callCallback U) fs m
  = let '(r, w', called) := runCallbacks fs (world m) in
    (r, mkMachine w' (trace m ++ (EvCallback <$> called))).
Proof.
  revert m. induction fs as [|f fs IH]; intros m; simpl.
  - unfold ret. by rewrite app_nil_r, machine_eta.
  - unfold bind at 1, callCallback, bind at 1, log, user. cbn [world trace].
    destruct (call_callback U f (world m)) as [[[]|] w'].
    + rewrite IH. cbn [world trace].
      destruct (runCallbacks fs w') as [[r w''] called].
      by rewrite <-app_assoc.
    + reflexivity.
Qed.

Lemma runCallbacks_called fs w r w' called :
  runCallbacks fs w = (r, w', called) ->
  called `prefix_of` fs /\ (r = Ok tt -> called = fs).
Proof.
  revert w called. induction fs as [|f fs IH]; intros w called; simpl.
  - intros [= <- <- <-]. done.
  - destruct (call_callback U f w) as [[[]|] w1].
    + destruct (runCallbacks fs w1) as [[r1 w2] called1] eqn:E.
      intros [= <- <- <-]. destruct (IH _ _ E) as [Hp Hall]. split.
      * by apply prefix_cons.
      * intros Hr. by rewrite Hall.
    + intros [= <- <- <-]. split; [|done].
      apply prefix_cons, prefix_nil.
Qed.

Lemma runCallbacks_enqueued (q : Queue) (enq : FnRef -> list (string * FnRef))
    fs w r w' called :
  (forall f w, qget q (call_callback U f w).2 = enqueueAll (qget q w) (enq f)) ->
  runCallbacks fs w = (r, w', called) ->
  qget q w' = enqueueAll (qget q w) (mjoin (enq <$> called)).
Proof.
  intros Henq. revert w called.
  induction fs as [|f fs IH]; intros w called; simpl.
  - intros [= <- <- <-]. done.
  - pose proof (Henq f w) as Hf.
    destruct (call_callback U f w) as [[[]|] w1]; simpl in Hf.
    + destruct (runCallbacks fs w1) as [[r1 w2] called1] eqn:E.
      intros [= <- <- <-]. rewrite (IH _ _ E), Hf. simpl.
      unfold enqueueAll. by rewrite foldl_app.
    + intros [= <- <- <-]. simpl. by rewrite app_nil_r.
Qed.

(** A callback that does nothing but enqueue [g] under [k] into a queue
    is of the kind [runCallbacks_enqueued] speaks of. *)
Lemma enqueue_enqueueAll k g w :
  qget effectsQueue (enqueueEffect k g w)
  = enqueueAll (qget effectsQueue w) [(k, g)]
  /\ qget cleanupsQueue (enqueueCleanup k g w)
     = enqueueAll (qget cleanupsQueue w) [(k, g)]
  /\ qget layoutEffectsQueue (enqueueLayoutEffect k g w)
     = enqueueAll (qget layoutEffectsQueue w) [(k, g)]
  /\ qget layoutCleanupsQueue (enqueueLayoutCleanup k g w)
     = enqueueAll (qget layoutCleanupsQueue w) [(k, g)].
Proof. done. Qed.

Lemma drain_run q m :
  drain q m
  = let '(r, w', called) :=
      runCallbacks (qget q (world m)).*2 (qset q [] (world m)) in
    (r, mkMachine w' (trace m ++ (EvCallback <$> called))).
Proof.
  unfold drain, bind at 1, get. unfold bind at 1, modify.
  by rewrite forEach_callCallback.
Qed.

(** C7. [runImmediateEffects] and the read-phase half of the frame pass
    drain their queues one after the other, each with the same three
    lines.  A drain calls the callbacks that were in the queue when it
    swapped it for an empty one, in their order and each once, up to the
    first that throws, whatever the callbacks themselves do; they run
    from the world with the empty queue, and the drain does not write the
    queue again: if every callback [f] enqueues the pairs [enq f] into
    the queue being drained, the queue holds just these pairs, of all
    the callbacks called, when the drain ends. *)
Theorem drain_calls_the_snapshot :
  (forall m,
     runImmediateEffects U m
     = (drain layoutCleanupsQueue ;; drain layoutEffectsQueue) m)
  /\ (forall m,
        runUpdatePassOnRaf_measure U m
        = (modify (set_areImmediateEffectsPending true) ;;
           modify (set_idsToExcludeFromUpdate []) ;;
           w <- get ;;
           modify (set_instancesPendingUpdate []) ;;
           drain cleanupsQueue ;;
           drain effectsQueue ;;
           ret (sort_by (id_of w) (instancesPendingUpdate w))) m)
  /\ (forall q m r m',
        q ∈ queues ->
        drain q m = (r, m') ->
        let snapshot := (qget q (world m)).*2 in
        exists called,
          trace m' = trace m ++ (EvCallback <$> called)
          /\ called `prefix_of` snapshot
          /\ (r = Ok tt -> called = snapshot)
          /\ runCallbacks snapshot (qset q [] (world m)) = (r, world m', called)
          /\ forall enq,
              (forall f w,
                 qget q (call_callback U f w).2
                 = enqueueAll (qget q w) (enq f)) ->
              qget q (world m') = enqueueAll [] (mjoin (enq <$> called))).
Proof.
  split; [|split].
  - intros m. unfold runImmediateEffects, drain, bind, get, modify. simpl.
    by destruct (forEach _ _ _) as [[[]|] ?].
  - intros m. unfold runUpdatePassOnRaf_measure, drain, bind, get, modify, ret.
    simpl.
    destruct (forEach _ _ _) as [[[]|] m1]; [|done].
    by destruct (forEach _ _ _) as [[[]|] ?].
  - intros q m r m' Hq H snapshot. rewrite drain_run in H. fold snapshot in H.
    destruct (runCallbacks snapshot (qset q [] (world m)))
      as [[r1 w1] called] eqn:E.
    injection H as <- <-. exists called.
    destruct (runCallbacks_called _ _ _ _ _ E) as [Hp Hall].
    split; [done|]. split; [done|]. split; [done|]. split; [done|].
    intros enq Henq. cbn [world].
    rewrite (runCallbacks_enqueued q enq _ _ _ _ _ Henq E).
    f_equal. unfold queues in Hq.
    repeat (apply elem_of_cons in Hq as [->|Hq]; [reflexivity|]).
    by apply elem_of_nil in Hq.
Qed.

(** *** The frame pass *)

(** A [Set] filled by [add] holds every value added, once. *)
Lemma Set_add_NoDup {A} `{EqDecision A} (s : list A) x :
  NoDup s -> NoDup (Set_add s x).
Proof.
  intros Hs. unfold Set_add, Set_has. case_bool_decide as Hx; [done|].
  apply NoDup_app. split; [done|]. split; [|apply NoDup_singleton].
  intros y Hy ->%list_elem_of_singleton. done.
Qed.

Lemma Set_of_adds {A} `{EqDecision A} (adds : list A) (s : list A) :
  NoDup s ->
  NoDup (foldl Set_add s adds)
  /\ forall x, x ∈ foldl Set_add s adds <-> x ∈ s \/ x ∈ adds.
Proof.
  revert s. induction adds as [|a adds IH]; intros s Hs; simpl.
  - split; [done|]. intros x. rewrite elem_of_nil. tauto.
  - destruct (IH (Set_add s a) (Set_add_NoDup _ _ Hs)) as [Hnd Hel].
    split; [done|]. intros x.
    rewrite Hel, Set_add_elem, elem_of_cons. tauto.
Qed.

Lemma sort_insert_Permutation key x l : sort_insert key x l ≡ₚ x :: l.
Proof.
  induction l as [|y l IH]; simpl; [done|].
  case_bool_decide; [done|]. rewrite IH. apply Permutation_swap.
Qed.

Lemma sort_by_Permutation key l : sort_by key l ≡ₚ l.
Proof.
  induction l as [|x l IH]; simpl; [done|].
  by rewrite sort_insert_Permutation, IH.
Qed.

Lemma sort_insert_sorted key x l :
  StronglySorted (by_key key) l -> StronglySorted (by_key key) (sort_insert key x l).
Proof.
  induction l as [|y l IH]; intros Hs; simpl.
  - repeat constructor.
  - apply StronglySorted_inv in Hs as [Hs Hy].
    case_bool_decide as Hxy.
    + constructor; [by constructor|].
      constructor; [unfold by_key; lia|].
      eapply Forall_impl; [exact Hy|]. unfold by_key. intros z ?. simpl in *. lia.
    + constructor; [by apply IH|].
      rewrite sort_insert_Permutation. constructor; [|done].
      unfold by_key. lia.
Qed.

Lemma sort_by_sorted key l : StronglySorted (by_key key) (sort_by key l).
Proof.
  induction l as [|x l IH]; simpl; [constructor|].
  by apply sort_insert_sorted.
Qed.

Lemma forEach_app {A} (g : A -> M unit) l1 l2 m :
  forEach g (l1 ++ l2) m = (forEach g l1 ;; forEach g l2) m.
Proof.
  revert m. induction l1 as [|a l1 IH]; intros m; simpl; [done|].
  unfold bind in *. destruct (g a m) as [[[]|] m1]; [|done].
  by rewrite IH.
Qed.

Lemma grew_world t0 Q w w' t : grew t0 Q (mkMachine w t) -> grew t0 Q (mkMachine w' t).
Proof. done. Qed.

Lemma grew_log t0 (Q : Event -> Prop) w t e :
  grew t0 Q (mkMachine w t) -> Q e -> grew t0 Q (mkMachine w (t ++ [e])).
Proof.
  intros (evs & Ht & Hevs) He. exists (evs ++ [e]). simpl in *.
  rewrite Ht, app_assoc. split; [done|].
  apply Forall_app. split; [done|]. by apply Forall_singleton.
Qed.

Lemma grew_start t0 (Q : Event -> Prop) m : trace m = t0 -> grew t0 Q m.
Proof. intros <-. exists []. by rewrite app_nil_r. Qed.

Ltac grew_leaf :=
  intros;
  match goal with
  | Hg : grew _ _ _ |- grew _ _ (mkMachine _ (_ ++ [_])) =>
      eapply grew_log; [exact Hg|]; done
  | Hg : grew _ _ _ |- grew _ _ (mkMachine _ _) =>
      eapply grew_world; exact Hg
  end.

Lemma forceUpdateComponent_grew t0 c :
  keeps (grew t0 inner) (forceUpdateComponent U c).
Proof. keeps_with grew_leaf. Qed.

Lemma runImmediateEffects_grew t0 : keeps (grew t0 inner) (runImmediateEffects U).
Proof. keeps_with grew_leaf. Qed.

Lemma prepareComponentForFrame_trace c m r m' :
  prepareComponentForFrame c m = (r, m') -> trace m' = trace m.
Proof.
  intros H.
  assert (Hk : keeps (fun m0 => trace m0 = trace m) (prepareComponentForFrame c)).
  { keeps_with ltac:(by intros). }
  by eapply Hk.
Qed.

Lemma prepareAll_trace l m r m1 :
  prepareAll l m = (r, m1) ->
  exists n,
    trace m1 = trace m ++ (EvPrepare <$> take n l)
    /\ (n <= length l)%nat
    /\ (r = Ok tt -> n = length l).
Proof.
  unfold prepareAll. revert m. induction l as [|c l IH]; intros m; simpl.
  - intros [= <- <-]. exists 0%nat. by rewrite app_nil_r.
  - unfold bind at 1, bind at 1, log. cbn [world trace].
    destruct (prepareComponentForFrame c _) as [[[]|] m2] eqn:E;
      apply prepareComponentForFrame_trace in E; simpl in E.
    + intros H. apply IH in H as (n & Ht & Hn & Hr).
      exists (S n). simpl. rewrite Ht, E, <-app_assoc. simpl.
      split; [done|]. split; [lia|]. intros ?. f_equal. auto.
    + intros [= <- <-]. exists 1%nat. simpl. rewrite ?take_0, E.
      split; [done|]. split; [lia|done].
Qed.

Lemma commitStateHook_twice (l : list StateHook) :
  commitStateHook <$> (commitStateHook <$> l) = commitStateHook <$> l.
Proof. rewrite <-list_fmap_compose. by apply list_fmap_ext. Qed.

Lemma commitStateHook_stagedToLive (l : list StateHook) :
  Forall2 stagedToLive l (commitStateHook <$> l).
Proof. apply Forall2_fmap_r, Forall_Forall2_diag, Forall_true. done. Qed.

Lemma prepareComponentForFrame_inv c m m' :
  prepareComponentForFrame c m = (Ok tt, m') ->
  exists i,
    instances (world m) !! c = Some i
    /\ if isMounted i
       then exists h,
              hooks i = Some h
              /\ m' = mkMachine
                        (putInstance c
                           (set_hooks
                              (Some (set_state
                                       (set_byCursor
                                          (commitStateHook <$> byCursor (state h))
                                          (state h)) h)) i)
                           (world m))
                        (trace m)
       else m' = m.
Proof.
  unfold prepareComponentForFrame. intros H.
  apply bind_inv_ok in H as (i & m1 & Hg & H).
  apply getInstance_inv in Hg as [-> Hi]. exists i. split; [done|].
  destruct (isMounted i); simpl in H.
  - destruct (hooks i) as [h|]; [|discriminate].
    rewrite (updInstance_ok _ _ _ _ Hi) in H. injection H as <-. by exists h.
  - by injection H as <-.
Qed.

(** What the first loop of the write phase leaves of the instance that
    was [i] at [c]: the instance with the staged state values made live
    when [c] is in the list and [i] is mounted, and [i] itself when not. *)
Lemma prepareAll_instances l : forall m m1 c i,
  prepareAll l m = (Ok tt, m1) ->
  instances (world m) !! c = Some i ->
  exists i1,
    instances (world m1) !! c = Some i1
    /\ (c ∈ l -> isMounted i = true -> preparedFrom i i1)
    /\ (c ∉ l \/ isMounted i = false -> i1 = i).
Proof.
  induction l as [|c' l IH]; intros m m1 c i H Hi.
  - injection H as <-. exists i. split; [done|]. split; [|done].
    intros Hin. by apply elem_of_nil in Hin.
  - unfold prepareAll in H. simpl in H. fold (prepareAll l) in H.
    apply bind_inv_ok in H as ([] & m2 & H1 & H2).
    apply bind_inv_ok in H1 as ([] & m3 & Hlog & H1).
    unfold log in Hlog. injection Hlog as <-.
    apply prepareComponentForFrame_inv in H1 as (i' & Hi' & H1).
    cbn [world trace] in Hi', H1.
    destruct (decide (c' = c)) as [->|Hne].
    + rewrite Hi in Hi'. injection Hi' as <-.
      destruct (isMounted i) eqn:Hm.
      * destruct H1 as (h & Hh & ->).
        set (i2 := set_hooks _ i) in H2.
        destruct (IH _ m1 c i2 H2) as (i1 & Hi1 & Hin & Hout).
        { cbn [world]. apply lookup_putInstance. eauto. }
        assert (Hp : preparedFrom i i2).
        { exists h, (commitStateHook <$> byCursor (state h)).
          split; [done|]. split; [apply commitStateHook_stagedToLive|done]. }
        exists i1. split; [done|]. split; [|by intros [Hn|?]; [destruct Hn; left|]].
        intros _ _. destruct (decide (c ∈ l)) as [Hl|Hl].
        -- destruct (Hin Hl Hm) as (h2 & records & Hh2 & Hrec & ->).
           subst i2. simpl in Hh2. injection Hh2 as <-. simpl in *.
           exists h, records. split; [done|]. split; [|done].
           clear -Hrec. revert Hrec. generalize (byCursor (state h)).
           intros l0 Hrec. rewrite Forall2_fmap_l in Hrec.
           eapply Forall2_impl; [exact Hrec|].
           intros old new (E1 & E2 & E3). done.
        -- rewrite (Hout (or_introl Hl)). exact Hp.
      * subst m2.
        destruct (IH _ m1 c i H2 Hi) as (i1 & Hi1 & Hin & Hout).
        exists i1. split; [done|]. split; [congruence|].
        intros _. apply Hout. by right.
    + assert (Hi2 : instances (world m2) !! c = Some i).
      { destruct (isMounted i').
        - destruct H1 as (h & _ & ->). cbn [world].
          by rewrite lookup_putInstance_ne.
        - by subst m2. }
      destruct (IH _ m1 c i H2 Hi2) as (i1 & Hi1 & Hin & Hout).
      exists i1. split; [done|]. split.
      * intros Hc. apply Hin. apply elem_of_cons in Hc as [?|?]; congruence.
      * intros [Hn|Hm]; apply Hout; [left|by right].
        intros Hc. apply Hn. by right.
Qed.

Lemma filter_inner evs :
  Forall inner evs -> filter (fun e => isForce e = true) evs = [].
Proof.
  induction 1 as [|e evs [_ He] _ IH]; [done|].
  rewrite filter_cons. by rewrite decide_False by congruence.
Qed.

Lemma forceOne_trace c m r m1 :
  forceOne c m = (r, m1) ->
  m1 = m
  \/ exists evs, trace m1 = trace m ++ EvForceUpdate c :: evs /\ Forall inner evs.
Proof.
  unfold forceOne, bind at 1.
  destruct (getInstance c m) as [[i|] m0] eqn:Eg;
    apply getInstance_inv in Eg as [-> _]; [|intros [= <- <-]; by left].
  unfold bind at 1, get.
  destruct (Set_has _ _); [intros [= <- <-]; by left|].
  unfold bind at 1, log. cbn [world trace]. intros H. right.
  destruct (forceUpdateComponent_grew (trace m ++ [EvForceUpdate c]) c _ _ _ H)
    as (evs & Ht & Hevs); [by apply grew_start|].
  exists evs. by rewrite Ht, <-app_assoc.
Qed.

Lemma forceAll_trace l m r m' :
  forceAll l m = (r, m') ->
  exists t' l',
    trace m' = trace m ++ t'
    /\ l' `sublist_of` l
    /\ filter (fun e => isForce e = true) t' = EvForceUpdate <$> l'
    /\ Forall (fun e => isPrepare e = false) t'.
Proof.
  unfold forceAll. revert m. induction l as [|c l IH]; intros m; simpl.
  - intros [= <- <-]. exists [], []. by rewrite app_nil_r.
  - unfold bind at 1. destruct (forceOne c m) as [r1 m1] eqn:E1. intros H.
    assert (Hrest : exists t2 l2,
              trace m' = trace m1 ++ t2 /\ l2 `sublist_of` l
              /\ filter (fun e => isForce e = true) t2 = EvForceUpdate <$> l2
              /\ Forall (fun e => isPrepare e = false) t2).
    { destruct r1 as [[]|]; [by apply IH|].
      injection H as <- <-. exists [], []. rewrite app_nil_r.
      split; [done|]. split; [apply sublist_nil_l|done]. }
    destruct Hrest as (t2 & l2 & Ht2 & Hs2 & Hf2 & Hp2).
    apply forceOne_trace in E1 as [->|(evs & Ht1 & Hevs)].
    + exists t2, l2. split; [done|]. split; [by apply sublist_cons|done].
    + exists (EvForceUpdate c :: evs ++ t2), (c :: l2).
      split; [by rewrite Ht2, Ht1, <-app_assoc|].
      split; [by apply sublist_skip|]. split.
      * rewrite filter_cons, decide_True by done.
        by rewrite filter_app, filter_inner, Hf2.
      * constructor; [done|]. apply Forall_app. split; [|done].
        eapply Forall_impl; [exact Hevs|]. by intros e [? _].
Qed.

Lemma forceOne_skips c m i :
  instances (world m) !! c = Some i ->
  id i ∈ idsToExcludeFromUpdate (world m) ->
  forceOne c m = (Ok tt, m).
Proof.
  intros Hi Hx. unfold forceOne.
  rewrite (bind_ok _ _ _ _ _ (getInstance_ok _ _ _ Hi)).
  unfold bind, get, Set_has. by rewrite bool_decide_true.
Qed.

Lemma runUpdatePassOnRaf_measure_list m l m' :
  runUpdatePassOnRaf_measure U m = (Ok l, m') ->
  l = sort_by (id_of (world m)) (instancesPendingUpdate (world m)).
Proof.
  unfold runUpdatePassOnRaf_measure, bind, get, modify, ret. simpl.
  destruct (forEach _ _ _) as [[[]|] m1]; [|discriminate].
  destruct (forEach _ _ _) as [[[]|] m2]; [|discriminate].
  by intros [= <- <-].
Qed.

(** C2 (amended). One frame pass.
    - The write phase is two loops over the same list, then the layout
      effects: first [prepareComponentForFrame] on every instance, then
      the forced updates.
    - The list is the pending set, which however often an instance was
      added holds it once, in ascending order of id.
    - In the trace of the write phase the calls of
      [prepareComponentForFrame] come first, on the instances of the list
      in its order; nothing else happens before the last of them, and
      the calls of [forceUpdateComponent] that follow are on instances of
      the list, in its order.
    - The first loop, when it returns normally, has made the staged
      state values the live ones, for the instances of the list that are
      mounted: such an instance is afterwards what it was before the
      pass but for its state records, each of which has as live and as
      staged value the value that was staged, and the setter it had.  An
      instance that is not mounted, in the list or not, and an instance
      that is not in the list are afterwards what they were.
    - An instance whose id is in the exclusion set when its turn in the
      second loop comes is passed over: the loop runs as it does on the
      list without that instance. *)
Theorem frame_pass_order :
  (forall l m,
     runUpdatePassOnRaf_mutation U l m
     = (prepareAll l ;; forceAll l ;;
        modify (set_areImmediateEffectsPending false) ;;
        runImmediateEffects U) m)
  /\ (forall adds m l m',
        instancesPendingUpdate (world m) = foldl Set_add [] adds ->
        runUpdatePassOnRaf_measure U m = (Ok l, m') ->
        NoDup l
        /\ (forall c, c ∈ l <-> c ∈ adds)
        /\ StronglySorted (by_key (id_of (world m))) l)
  /\ (forall l m r m',
        runUpdatePassOnRaf_mutation U l m = (r, m') ->
        exists n t' forced,
          trace m' = trace m ++ (EvPrepare <$> take n l) ++ t'
          /\ (t' <> [] \/ r = Ok tt -> n = length l)
          /\ Forall (fun e => isPrepare e = false) t'
          /\ forced `sublist_of` l
          /\ filter (fun e => isForce e = true) t' = EvForceUpdate <$> forced)
  /\ (forall l m m1 c i,
        prepareAll l m = (Ok tt, m1) ->
        instances (world m) !! c = Some i ->
        exists i1,
          instances (world m1) !! c = Some i1
          /\ (c ∈ l -> isMounted i = true -> preparedFrom i i1)
          /\ (c ∉ l \/ isMounted i = false -> i1 = i))
  /\ (forall l1 c l2 m m1 i,
        forceAll l1 m = (Ok tt, m1) ->
        instances (world m1) !! c = Some i ->
        id i ∈ idsToExcludeFromUpdate (world m1) ->
        forceAll (l1 ++ c :: l2) m = forceAll (l1 ++ l2) m).
Proof.
  split; [done|]. split; [|split; [|split]].
  - intros adds m l m' Hset Hrun.
    apply runUpdatePassOnRaf_measure_list in Hrun as ->.
    destruct (Set_of_adds adds [] (NoDup_nil_2 (A:=nat))) as [Hnd Hel].
    rewrite Hset. split; [|split].
    + by rewrite sort_by_Permutation.
    + intros c. rewrite sort_by_Permutation, Hel, elem_of_nil. tauto.
    + apply sort_by_sorted.
  - intros l m r m' H.
    change (runUpdatePassOnRaf_mutation U l m)
      with ((prepareAll l ;; forceAll l ;;
             modify (set_areImmediateEffectsPending false) ;;
             runImmediateEffects U) m) in H.
    unfold bind at 1 in H.
    destruct (prepareAll l m) as [r1 m1] eqn:E1.
    apply prepareAll_trace in E1 as (n & Ht1 & Hn & Hall).
    destruct r1 as [[]|]; cycle 1.
    { injection H as <- <-. exists n, [], []. rewrite app_nil_r.
      split; [done|]. split; [by intros [|]|].
      split; [done|]. split; [apply sublist_nil_l|done]. }
    specialize (Hall eq_refl). subst n.
    unfold bind at 1 in H.
    destruct (forceAll l m1) as [r2 m2] eqn:E2.
    apply forceAll_trace in E2 as (t2 & forced & Ht2 & Hs & Hf & Hp).
    destruct r2 as [[]|]; cycle 1.
    { injection H as <- <-. exists (length l), t2, forced.
      rewrite Ht2, Ht1, <-app_assoc. done. }
    unfold bind at 1, modify in H.
    destruct (runImmediateEffects_grew (trace m2) _ _ _ H)
      as (evs & Ht3 & Hevs); [by apply grew_start|].
    exists (length l), (t2 ++ evs), forced.
    rewrite Ht3, Ht2, Ht1, <-!app_assoc. split; [done|]. split; [done|].
    split; [|split; [done|]].
    + apply Forall_app. split; [done|].
      eapply Forall_impl; [exact Hevs|]. by intros e [? _].
    + by rewrite filter_app, (filter_inner evs Hevs), app_nil_r.
  - intros l. apply prepareAll_instances.
  - intros l1 c l2 m m1 i H1 Hi Hx. unfold forceAll.
    rewrite !forEach_app. fold (forceAll l1).
    rewrite !(bind_ok _ _ _ _ _ H1). simpl.
    by rewrite (bind_ok _ _ _ _ _ (forceOne_skips _ _ _ Hi Hx)).
Qed.

(** ** Further properties of the code *)

(** *** The diff predicate on every pair of elements *)

Lemma strict_eq_sym a b : strict_eq a b = strict_eq b a.
Proof.
  destruct a as [| | |[| |]| |], b as [| | |[| |]| |]; simpl; try reflexivity;
    apply bool_decide_ext; split; congruence.
Qed.

Lemma strict_eq_self v : strict_eq v v = negb (bool_decide (v = VNumber NaN)).
Proof.
  destruct v as [| | |[| |]| |]; simpl; try reflexivity;
    by rewrite bool_decide_true.
Qed.

(** X1. [hasElementChanged] gives the same answer with its two arguments
    exchanged, a [TypeError] included, and it never changes anything:
    the machine it ends in is the one it started from. *)
Theorem hasElementChanged_symmetric old new m :
  hasElementChanged old new m = hasElementChanged new old m
  /\ (hasElementChanged old new m).2 = m.
Proof.
  unfold hasElementChanged.
  destruct old as [|v1|t1 p1 cs1|c1 p1 cs1|cs1],
           new as [|v2|t2 p2 cs2|c2 p2 cs2|cs2];
    try (split; reflexivity); cbn -[strict_neq prop].
  - split; [|reflexivity]. unfold ret. do 3 f_equal.
    apply bool_decide_ext. split; congruence.
  - split; [|reflexivity]. unfold ret, strict_neq. do 2 f_equal.
    rewrite strict_eq_sym. do 2 f_equal. apply bool_decide_ext.
    split; congruence.
  - case_bool_decide; [done|].
    assert (Hnone : forall c, instances (world m) !! c = None ->
                              getInstance c m = (Throw, m)).
    { intros c E. unfold getInstance, bind, get, throw. by rewrite E. }
    destruct (instances (world m) !! c1) as [i1|] eqn:E1,
             (instances (world m) !! c2) as [i2|] eqn:E2;
      repeat
        (first [ rewrite (bind_ok _ _ _ _ _ (getInstance_ok _ _ _ E1))
               | rewrite (bind_ok _ _ _ _ _ (getInstance_ok _ _ _ E2))
               | rewrite (bind_throw _ _ _ _ (Hnone _ E1))
               | rewrite (bind_throw _ _ _ _ (Hnone _ E2)) ]; cbv beta);
      try (split; reflexivity).
    repeat case_bool_decide; try congruence; simpl; try (split; reflexivity).
    destruct p1 as [p1|], p2 as [p2|]; try (split; reflexivity).
    unfold strict_neq. rewrite (strict_eq_sym (prop p1 "key")).
    split; reflexivity.
Qed.

(** X2. [hasElementChanged] never looks at children: with the children
    of either element replaced by any others the answer is the same.
    Two Fragment elements, and two Empty elements, are never reported as
    changed. *)
Theorem hasElementChanged_ignores_children old new cs cs' ds ds' m :
  hasElementChanged (with_children cs old) (with_children cs' new) m
  = hasElementChanged old new m
  /\ hasElementChanged (VirtualElementFragment ds) (VirtualElementFragment ds') m
     = (Ok false, m)
  /\ hasElementChanged VirtualElementEmpty VirtualElementEmpty m = (Ok false, m).
Proof.
  split; [|split; reflexivity].
  by destruct old, new.
Qed.

(** X3. An element compared with itself is not reported as changed,
    with one exception: a Tag or Component element whose [key] prop is
    [NaN] is reported as changed against itself. *)
Theorem hasElementChanged_same_element e m :
  comparable (world m) e = true ->
  hasElementChanged e e m = (Ok (bool_decide (key_of e = VNumber NaN)), m).
Proof.
  intros Hc. unfold hasElementChanged.
  destruct e as [|v|t p cs|c p cs|cs]; try reflexivity;
    cbn -[strict_neq prop]; (case_bool_decide; [done|]).
  - unfold ret. by rewrite bool_decide_true.
  - unfold ret, strict_neq. rewrite bool_decide_true by done.
    by rewrite strict_eq_self, negb_involutive.
  - simpl in Hc. apply andb_prop in Hc as [Hi Hp].
    apply bool_decide_eq_true in Hi as [i Hi], Hp as [p' ->].
    rewrite !(bind_ok _ _ _ _ _ (getInstance_ok _ _ _ Hi)).
    rewrite bool_decide_true by done. simpl.
    unfold ret, strict_neq. by rewrite strict_eq_self, negb_involutive.
Qed.

(** *** Creating elements *)

Lemma buildComponentElement_nil c i m :
  instances (world m) !! c = Some i ->
  buildComponentElement U c [] m
  = (Ok (length (heap (world m))),
     grow [OElement (VirtualElementComponent c (props i) [])] m).
Proof.
  intros Hi. unfold buildComponentElement.
  by rewrite (bind_ok _ _ _ _ _ (getInstance_ok _ _ _ Hi)).
Qed.

Lemma createComponentInstance_exact f p children m :
  createComponentInstance U f p children m
  = (Ok (created f p children (world m)).1,
     mkMachine (created f p children (world m)).2 (trace m)).
Proof.
  unfold createComponentInstance, created.
  set (pc := match children with
             | [] => ret VUndefined
             | [x] => ret x
             | _ => r <- alloc (OArray children) ;; ret (VObject r)
             end).
  assert (Hpc : pc m = (Ok (parsedChildren (heap (world m)) children).2,
                        grow (parsedChildren (heap (world m)) children).1 m)).
  { subst pc. destruct children as [|x [|y l]]; simpl;
      by rewrite ?grow_nil. }
  destruct (parsedChildren (heap (world m)) children) as [h0 v].
  simpl in Hpc. rewrite (bind_ok _ _ _ _ _ Hpc). clear Hpc pc.
  unfold bind at 1, get. unfold bind at 1, modify. cbn [world trace grow].
  unfold bind at 1. rewrite alloc_run.
  unfold bind at 1, allocInstance, bind at 1, get, bind at 1, modify, ret.
  cbn [world trace grow]. simpl.
  erewrite bind_ok
    by (apply buildComponentElement_nil; simpl;
        by rewrite lookup_app_r, Nat.sub_diag).
  erewrite bind_ok
    by (apply updInstance_ok; simpl; by rewrite lookup_app_r, Nat.sub_diag).
  unfold ret, newInstance, putInstance, set_element, set_heap, set_instances,
    set_lastComponentId. simpl.
  rewrite <-(Nat.add_0_r (length (instances (world m)))) at 1.
  rewrite insert_app_r. simpl.
  rewrite !length_app. simpl.
  rewrite Nat.add_1_r, <-!app_assoc. simpl. reflexivity.
Qed.


(** [++] on a number never decreases it, and it adds one below
    [2 ^ 53]. *)
Lemma increment_le x : x <= increment x.
Proof.
  unfold increment. case_bool_decide; [lia|].
  destruct (bool_decide (Z.abs x < 2 ^ 54) && Z.odd (x / 2)); lia.
Qed.

Lemma increment_safe x : - 2 ^ 53 <= x < 2 ^ 53 -> increment x = x + 1.
Proof. intros Hx. unfold increment. by rewrite bool_decide_true. Qed.

Lemma allocated_only_created f p children w :
  allocated_only w (created f p children w).2.
Proof.
  unfold allocated_only, created.
  destruct (parsedChildren (heap w) children) as [h0 v]. simpl.
  split; [by apply prefix_app_r|]. split; [by apply prefix_app_r|].
  split; [apply increment_le|]. by destruct w.
Qed.




(** [createElement] is one of the three builders, on the flattened
    children. *)
Lemma createElement_grows source p children m :
  (exists r h', createElement U source p children m = (r, grow h' m))
  \/ exists f, source = SourceComponent f.
Proof.
  unfold createElement, bind at 1, get.
  destruct source as [tag|f|]; [left|right; by eauto|left].
  - apply buildTagElement_grows.
  - apply buildFragmentElement_grows.
Qed.


(** *** The ids of instances *)

Lemma ids_fresh_putInstance c i i' w :
  instances w !! c = Some i ->
  id i' = id i ->
  ids_fresh w -> ids_fresh (putInstance c i' w).
Proof.
  intros Hi Hid [Hnd Hle]. unfold ids_fresh, putInstance. simpl. split.
  - rewrite list_fmap_insert, Hid, list_insert_id; [done|].
    by rewrite list_lookup_fmap, Hi.
  - apply Forall_insert; [done|]. rewrite Hid.
    by apply (Forall_lookup_1 _ _ _ _ Hle Hi).
Qed.

Lemma ids_fresh_created f p children w :
  ids_fresh w ->
  - 2 ^ 53 <= lastComponentId w < 2 ^ 53 ->
  ids_fresh (created f p children w).2
  /\ exists i, instances (created f p children w).2 = instances w ++ [i]
               /\ Forall (fun j => id j < id i) (instances w).
Proof.
  intros [Hnd Hle] Hsafe. unfold created.
  destruct (parsedChildren (heap w) children) as [h0 v].
  unfold ids_fresh. simpl. rewrite (increment_safe _ Hsafe).
  assert (Hlt : Forall (fun j => id j < lastComponentId w + 1) (instances w)).
  { eapply Forall_impl; [exact Hle|]. simpl. intros; lia. }
  split; [split|].
  - rewrite fmap_app. simpl. apply NoDup_app. split; [done|].
    split; [|apply NoDup_singleton].
    intros x Hx Hx'. apply list_elem_of_singleton in Hx' as ->.
    apply list_elem_of_fmap in Hx as (j & Hj & Hin).
    pose proof (proj1 (Forall_forall _ _) Hlt j Hin) as Hj'. simpl in Hj'. lia.
  - apply Forall_app. split.
    + eapply Forall_impl; [exact Hle|]. simpl. intros; lia.
    + apply Forall_singleton. simpl. lia.
  - eexists. split; [reflexivity|]. exact Hlt.
Qed.

Ltac ids_leaf Hcomp Hcb :=
  intros; cbn [world] in *;
  first
    [ by apply Hcomp
    | by apply Hcb
    | eapply ids_fresh_putInstance;
      [eassumption | try destruct (hooks _); reflexivity | assumption]
    | unfold ids_fresh in *; simpl in *; assumption ].

(** X5. Ids are not reused while the counter is below [2 ^ 53].  That
    the ids of the instances are pairwise different and not above the
    counter [lastComponentId] is kept by [createElement] from a counter
    below [2 ^ 53], and by rendering, mounting and unmounting and by both
    halves of the frame pass from any counter, as long as user code keeps
    it (it cannot reach the counter, and has no reason to write an [id]).
    The instance that [createElement] makes from a counter below
    [2 ^ 53] has an id above the id of every instance made before.  At
    [2 ^ 53] the counter, a double, stays where it is under [++]: the new
    instance gets the id [2 ^ 53] and so does every instance after it. *)
Theorem ids_stay_fresh :
  (forall f p w, ids_fresh w -> ids_fresh (call_Component U f p w).2) ->
  (forall g w, ids_fresh w -> ids_fresh (call_callback U g w).2) ->
  let P := fun m => ids_fresh (world m) in
  (forall source p children m r m',
     - 2 ^ 53 <= lastComponentId (world m) < 2 ^ 53 ->
     createElement U source p children m = (r, m') -> P m -> P m')
  /\ (forall c, keeps P (renderComponent U c))
  /\ (forall c, keeps P (mountComponent U c))
  /\ (forall c, keeps P (unmountComponent U c))
  /\ keeps P (runUpdatePassOnRaf_measure U)
  /\ (forall l, keeps P (runUpdatePassOnRaf_mutation U l))
  /\ (forall f p children m e m',
        P m ->
        - 2 ^ 53 <= lastComponentId (world m) < 2 ^ 53 ->
        createElement U (SourceComponent f) p children m = (Ok e, m') ->
        exists i, instances (world m') = instances (world m) ++ [i]
                  /\ Forall (fun j => id j < id i) (instances (world m)))
  /\ (forall f p children m,
        lastComponentId (world m) = 2 ^ 53 ->
        exists e m' i,
          createElement U (SourceComponent f) p children m = (Ok e, m')
          /\ instances (world m') = instances (world m) ++ [i]
          /\ id i = 2 ^ 53
          /\ lastComponentId (world m') = 2 ^ 53).
Proof.
  intros Hcomp Hcb P. subst P.
  assert (Hrender : forall c, keeps (fun m => ids_fresh (world m))
                                (renderComponent U c)).
  { intros c. keeps_with ltac:(ids_leaf Hcomp Hcb). }
  split; [|split; [exact Hrender|split; [|split; [|split; [|split; [|split]]]]]].
  - intros source p children m r m' Hsafe H HP.
    destruct (createElement_grows source p children m)
      as [(r' & h' & Hrun)|[f ->]].
    + rewrite Hrun in H. injection H as <- <-. exact HP.
    + unfold createElement, bind at 1, get in H.
      rewrite createComponentInstance_exact in H. injection H as <- <-.
      by apply ids_fresh_created.
  - intros c. unfold mountComponent.
    apply keeps_bind; [apply Hrender|]. intros _.
    keeps_with ltac:(ids_leaf Hcomp Hcb).
  - intros c. keeps_with ltac:(ids_leaf Hcomp Hcb).
  - unfold runUpdatePassOnRaf_measure.
    keeps_with ltac:(ids_leaf Hcomp Hcb).
  - intros l. unfold runUpdatePassOnRaf_mutation.
    keeps_with ltac:(ids_leaf Hcomp Hcb).
  - intros f p children m e m' HP Hsafe H.
    unfold createElement, bind at 1, get in H.
    rewrite createComponentInstance_exact in H. injection H as <- <-.
    by apply ids_fresh_created.
  - intros f p children m Hc.
    unfold createElement, bind at 1, get.
    rewrite createComponentInstance_exact. unfold created.
    destruct (parsedChildren (heap (world m))
                (flat (heap (world m)) children)) as [h0 v].
    eexists _, _, _. split; [reflexivity|]. simpl.
    split; [reflexivity|]. by rewrite Hc.
Qed.

(** *** Objects on the heap are never written *)

Lemma keeps_alloc P o :
  (forall w t, P (mkMachine w t) ->
               P (mkMachine (set_heap (heap w ++ [o]) w) t)) ->
  keeps P (alloc o).
Proof.
  intros Hg m r m' H HP. rewrite alloc_run in H. injection H as <- <-.
  apply Hg. by rewrite machine_eta.
Qed.

(** The functions of the runtime, down to [alloc]. *)
Ltac heap_unfold :=
  unfold unmountComponent, unmountEffect, helpGc, getEffect, updEffect,
    callCallback, safeExec, exclude, prepareComponentForFrame,
    forceUpdateComponent, renderComponent, mountComponent,
    buildComponentElement, buildChildElement, buildEmptyElement,
    buildTextElement, runImmediateEffects, runUpdatePassOnRaf_measure,
    runUpdatePassOnRaf_mutation.

Ltac heap_step :=
  cbv beta;
  lazymatch goal with
  | |- keeps _ (alloc _) => fail
  | |- keeps _ (ret _) => apply keeps_ret
  | |- keeps _ throw => apply keeps_throw
  | |- keeps _ get => apply keeps_get
  | |- keeps _ (getInstance _) => apply keeps_getInstance
  | |- keeps _ (bind _ _) => apply keeps_bind; [|intros ?]
  | |- keeps _ (try_catch _ _) => apply keeps_try_catch
  | |- keeps _ (forEach _ _) => apply keeps_forEach; intros ? ?
  | |- keeps _ (mapM _ _) => apply keeps_mapM; intros ?
  | |- keeps _ (if ?x then _ else _) => destruct x
  | |- keeps _ (match ?x with _ => _ end) => destruct x
  | |- keeps _ _ => progress heap_unfold
  end.

Ltac heap_leaf Hcomp Hcb :=
  intros; unfold heap_extends in *; cbn [world] in *;
  first
    [ by apply Hcomp
    | by apply Hcb
    | simpl; by apply prefix_app_r
    | simpl in *; assumption ].

Ltac heap_with Hcomp Hcb :=
  repeat heap_step;
  first
    [ apply keeps_alloc; intros ? ?
    | apply keeps_modify; intros ? ?
    | apply keeps_log; intros ? ?
    | apply keeps_user; intros ? ?
    | apply keeps_updInstance; intros ? ? ? ? ];
  heap_leaf Hcomp Hcb.

(** X6. Once built, an object on the heap is never written: the objects
    [h0] that are on the heap when [createElement], a render, a mount, an
    unmount or either half of the frame pass starts are still there when
    it ends, each under its reference and with its content, as long as
    user code does not overwrite them either.  In particular a virtual
    element is never changed after it was built; a re-render builds a
    new one. *)
Theorem heap_objects_are_never_written h0 :
  (forall f p w, h0 `prefix_of` heap w ->
                 h0 `prefix_of` heap (call_Component U f p w).2) ->
  (forall g w, h0 `prefix_of` heap w ->
               h0 `prefix_of` heap (call_callback U g w).2) ->
  (forall source p children,
     keeps (heap_extends h0) (createElement U source p children))
  /\ (forall c, keeps (heap_extends h0) (renderComponent U c))
  /\ (forall c, keeps (heap_extends h0) (mountComponent U c))
  /\ (forall c, keeps (heap_extends h0) (unmountComponent U c))
  /\ keeps (heap_extends h0) (runUpdatePassOnRaf_measure U)
  /\ (forall l, keeps (heap_extends h0) (runUpdatePassOnRaf_mutation U l)).
Proof.
  intros Hcomp Hcb.
  split; [|split; [|split; [|split; [|split]]]];
    try (intros; heap_with Hcomp Hcb).
  intros source p children m r m' H HP.
  unfold createElement, bind at 1, get in H.
  set (fl := flat (heap (world m)) children) in H.
  unfold heap_extends in *. etransitivity; [exact HP|].
  destruct source as [tag|f|].
  - destruct (buildTagElement_grows tag (default ∅ p) fl m)
      as (e & h' & Hrun).
    rewrite Hrun in H. injection H as <- <-. by apply prefix_app_r.
  - rewrite createComponentInstance_exact in H. injection H as <- <-.
    apply allocated_only_created.
  - destruct (buildFragmentElement_grows fl m) as (e & h' & Hrun).
    rewrite Hrun in H. injection H as <- <-. by apply prefix_app_r.
Qed.

(** *** Rendering and the exclusion set *)

Lemma has_id_putInstance c x c' i i' w t :
  instances w !! c' = Some i ->
  id i' = id i ->
  has_id c x (mkMachine w t) -> has_id c x (mkMachine (putInstance c' i' w) t).
Proof.
  unfold has_id. intros Hi Hid (j & Hj & Hx). cbn [world] in *.
  destruct (decide (c' = c)) as [->|Hne].
  - exists i'. split; [apply lookup_putInstance; eauto|]. congruence.
  - exists j. by rewrite lookup_putInstance_ne.
Qed.

Ltac has_id_leaf Hcomp :=
  intros;
  first
    [ by apply Hcomp
    | eapply has_id_putInstance;
      [eassumption | try destruct (hooks _); reflexivity | assumption]
    | assumption ].

Lemma renderComponent_keeps_has_id c c' x :
  (forall f p w t, has_id c x (mkMachine w t) ->
                   has_id c x (mkMachine (call_Component U f p w).2 t)) ->
  keeps (has_id c x) (renderComponent U c').
Proof. intros Hcomp. keeps_with ltac:(has_id_leaf Hcomp). Qed.

Lemma renderComponent_keeps_excluded c x :
  (forall f p w, x ∈ idsToExcludeFromUpdate w ->
                 x ∈ idsToExcludeFromUpdate (call_Component U f p w).2) ->
  keeps (excluded x) (renderComponent U c).
Proof.
  intros Hcomp.
  keeps_with ltac:(unfold excluded; simpl; intros;
                   rewrite ?Set_add_elem; auto).
Qed.

(** X7. [renderComponent] puts the id of the instance into the exclusion
    set, and the id is still there when [renderComponent] ends, however
    it ends (a render function cannot take an id out of that set, and
    does not write the [id] of the instance).  An instance rendered
    during a frame pass, by [mountComponent] or by a re-render of its
    parent, is therefore passed over when its turn in the loop of forced
    updates comes: nothing is done for it. *)
Theorem renderComponent_excludes c m i r m' :
  (forall f p w x, x ∈ idsToExcludeFromUpdate w ->
                   x ∈ idsToExcludeFromUpdate (call_Component U f p w).2) ->
  (forall f p w j, instances w !! c = Some j ->
     exists j', instances (call_Component U f p w).2 !! c = Some j'
                /\ id j' = id j) ->
  instances (world m) !! c = Some i ->
  renderComponent U c m = (r, m') ->
  id i ∈ idsToExcludeFromUpdate (world m')
  /\ forceOne c m' = (Ok tt, m').
Proof.
  intros Hx Hid Hi H.
  assert (Hin : id i ∈ idsToExcludeFromUpdate (world m')).
  { set (m0 := mkMachine
                 (set_idsToExcludeFromUpdate
                    (Set_add (idsToExcludeFromUpdate (world m)) (id i))
                    (world m))
                 (trace m)).
    assert (Heq : renderComponent U c m0 = renderComponent U c m).
    { unfold renderComponent.
      rewrite (bind_ok _ _ _ _ _ (getInstance_ok c i m Hi)).
      rewrite (bind_ok _ _ _ _ _ (getInstance_ok c i m0 Hi)).
      unfold bind at 1 3, exclude, modify.
      subst m0. cbn [world trace]. simpl. by rewrite Set_add_idemp. }
    rewrite <-Heq in H.
    eapply (renderComponent_keeps_excluded c (id i)); [by auto|exact H|].
    unfold excluded. simpl. apply Set_add_elem. by right. }
  split; [exact Hin|].
  destruct (renderComponent_keeps_has_id c c (id i)) with (2 := H)
    as (i' & Hi' & Hid').
  - intros f p w t (j & Hj & Hjx). cbn [world] in *.
    destruct (Hid f p w j Hj) as (j' & Hj' & E). exists j'.
    split; [done|congruence].
  - by exists i.
  - apply (forceOne_skips c m' i' Hi'). by rewrite Hid'.
Qed.

(** *** Forced updates *)

(** X8. Let [c] be a mounted instance with an [onUpdate] callback whose
    render function returns an output that is not [===] to the stored
    [renderedValue] (and leaves the fields of the instance other than its
    hooks alone), and let the element of every child of the output be
    built without a throw (each child is a placeholder or a parent
    element, or [String] of it returns).  Then [forceUpdateComponent]
    renders once, stores the new output, builds a new element for the
    instance and then calls [onUpdate], once; it ends as that call ends,
    a throw included.  Without an [onUpdate] callback
    [forceUpdateComponent] does nothing at all: the render function is
    not called. *)
Theorem forceUpdateComponent_calls_onUpdate c m i :
  instances (world m) !! c = Some i ->
  (onUpdate i = None -> forceUpdateComponent U c m = (Ok tt, m))
  /\ forall h f g out w2 i2,
       hooks i = Some h ->
       Component_ i = Some f ->
       isMounted i = true ->
       onUpdate i = Some g ->
       call_Component U f (props i) (renderWorld c i h (world m))
       = (Ok out, w2) ->
       instances w2 !! c = Some i2 ->
       untouched i i2 ->
       strict_eq out (renderedValue i) = false ->
       (forall e0, _element i = Some e0 -> is_Some (heap w2 !! e0)) ->
       Forall (builds (heap w2)) (renderedChildren (heap w2) out) ->
       exists h' cs,
         let e := length (heap w2 ++ h') in
         let w3 :=
           putInstance c (set_element (Some e) (set_renderedValue out i2))
             (set_heap
                (heap w2 ++ h'
                 ++ [OElement (VirtualElementComponent c (props i) cs)])
                w2) in
         forceUpdateComponent U c m
         = ((call_callback U g w3).1,
            mkMachine (call_callback U g w3).2
              (trace m ++ [EvComponent c f; EvOnUpdate c g])).
Proof.
  intros Hi. split.
  - intros Hn. unfold forceUpdateComponent.
    rewrite (bind_ok _ _ _ _ _ (getInstance_ok _ _ _ Hi)), Hn.
    by rewrite orb_true_r.
  - intros h f g out w2 i2 Hh Hf Hm Hg Hcall Hi2 Hun Hne Hold Hbuilds.
    destruct (untouched_fields _ _ Hun)
      as (_ & Hel & _ & Hp & Hrv & Hmo & Hon).
    pose proof (renderOutcome_call c i h f (world m) _ _ Hh Hf Hcall) as Hout.
    destruct (renderComponent_rebuild c m i (Ok out) w2 [EvComponent c f] i2
                Hi Hout Hi2) as (h' & cs & Hrun & _).
    { simpl. by rewrite Hrv, Hne, andb_false_r. }
    { exact Hbuilds. }
    simpl in Hrun. exists h', cs. cbv zeta.
    unfold forceUpdateComponent.
    rewrite (bind_ok _ _ _ _ _ (getInstance_ok _ _ _ Hi)), Hm, Hg.
    rewrite bool_decide_true by eauto. simpl.
    rewrite (bind_ok _ _ _ _ _ Hrun).
    erewrite bind_ok
      by (apply getInstance_ok; cbn [world]; apply lookup_putInstance;
          simpl; eauto).
    rewrite bool_decide_false.
    + simpl. rewrite Hon, Hg, Hp.
      unfold bind, log, user. cbn [world trace].
      destruct (call_callback U g _) as [r1 w4]. simpl.
      by rewrite <-app_assoc.
    + simpl. intros E. destruct (Hold _ (eq_sym E)) as [o Ho].
      apply lookup_lt_Some in Ho. rewrite length_app in Ho. lia.
Qed.

(** *** The loop of [unmountComponent] *)

Lemma safeExec_callCallback f m :
  safeExec (callCallback U f) (ret tt) m
  = (Ok tt,
     mkMachine (call_callback U f (world m)).2 (trace m ++ [EvCallback f])).
Proof.
  unfold safeExec, try_catch, callCallback, bind, log, user, ret.
  cbn [world trace]. by destruct (call_callback U f (world m)) as [[[]|] w'].
Qed.

Lemma callCallback_run f m :
  callCallback U f m
  = ((call_callback U f (world m)).1,
     mkMachine (call_callback U f (world m)).2 (trace m ++ [EvCallback f])).
Proof.
  unfold callCallback, bind, log, user. cbn [world trace].
  by destruct (call_callback U f (world m)) as [[[]|] w'].
Qed.

Lemma alter_cleaned {A} (g : A -> A) k l x :
  l !! k = Some x ->
  alter g k ((g <$> take k l) ++ drop k l)
  = (g <$> take (S k) l) ++ drop (S k) l.
Proof.
  intros H. pose proof (lookup_lt_Some _ _ _ H) as Hk.
  rewrite (drop_S _ _ _ H), (take_S_r _ _ _ H), fmap_app, <-app_assoc.
  rewrite alter_app_r_alt by (rewrite length_fmap, length_take; lia).
  rewrite length_fmap, length_take.
  by replace (k - k `min` length l)%nat with 0%nat by lia.
Qed.

Lemma lookup_cleaned {A} (g : A -> A) k l :
  ((g <$> take k l) ++ drop k l) !! k = l !! k.
Proof.
  destruct (decide (k < length l)%nat) as [Hk|Hk].
  - rewrite lookup_app_r by (rewrite length_fmap, length_take; lia).
    rewrite length_fmap, length_take, lookup_drop. f_equal. lia.
  - rewrite (lookup_ge_None_2 l) by lia. apply lookup_ge_None_2.
    rewrite length_app, length_fmap, length_take, length_drop. lia.
Qed.

Lemma cleanedUp_0 h i : hooks i = Some h -> cleanedUp 0 h i = i.
Proof.
  intros Hh. unfold cleanedUp. rewrite take_0, drop_0. simpl.
  destruct i, h as [? [] ? ?]. simpl in *. by rewrite Hh.
Qed.

(** One round of the loop: the cleanup is called under [safeExec] and
    cleared; what remains is the call of [releaseSignals]. *)
Lemma unmountEffect_run c k h i ef m :
  instances (world m) !! c = Some (cleanedUp k h i) ->
  byCursor (effects h) !! k = Some ef ->
  (forall f w, ef_cleanup ef = Some f ->
     instances (call_callback U f w).2 !! c = instances w !! c) ->
  exists m1,
    instances (world m1) !! c = Some (cleanedUp (S k) h i)
    /\ trace m1 = trace m ++ (EvCallback <$> option_list (ef_cleanup ef))
    /\ unmountEffect U c k m
       = match ef_releaseSignals ef with
         | Some g => callCallback U g m1
         | None => (Ok tt, m1)
         end.
Proof.
  intros Hi Hk Hframe.
  assert (Hget : forall m0 j, instances (world m0) !! c = Some (cleanedUp j h i) ->
            getEffect c k m0
            = (Ok (((set_cleanup None <$> take j (byCursor (effects h)))
                    ++ drop j (byCursor (effects h))) !! k), m0)).
  { intros m0 j H0. unfold getEffect.
    by rewrite (bind_ok _ _ _ _ _ (getInstance_ok _ _ _ H0)). }
  set (m0 := match ef_cleanup ef with
             | Some f =>
                 mkMachine (call_callback U f (world m)).2
                   (trace m ++ [EvCallback f])
             | None => m
             end).
  assert (Hi0 : instances (world m0) !! c = Some (cleanedUp k h i)).
  { subst m0. destruct (ef_cleanup ef) as [f|]; [|done].
    cbn [world]. by rewrite Hframe. }
  exists (mkMachine (putInstance c (cleanedUp (S k) h i) (world m0)) (trace m0)).
  split; [apply lookup_putInstance; eauto|]. split.
  { subst m0. by destruct (ef_cleanup ef); cbn [trace option_list fmap list_fmap];
      rewrite ?app_nil_r. }
  unfold unmountEffect.
  rewrite (bind_ok _ _ _ _ _ (Hget m k Hi)), lookup_cleaned, Hk. cbn [mbind option_bind].
  assert (H1 : match ef_cleanup ef with
               | Some f => safeExec (callCallback U f) (ret tt)
               | None => ret tt
               end m = (Ok tt, m0)).
  { subst m0. destruct (ef_cleanup ef) as [f|]; [|done].
    apply safeExec_callCallback. }
  rewrite (bind_ok _ _ _ _ _ H1).
  assert (H2 : updEffect c k (set_cleanup None) m0
               = (Ok tt, mkMachine (putInstance c (cleanedUp (S k) h i) (world m0))
                           (trace m0))).
  { unfold updEffect. rewrite (updInstance_ok _ _ _ _ Hi0). do 3 f_equal.
    unfold cleanedUp at 1. cbn [hooks set_hooks effects set_effects byCursor
                                set_byCursor].
    rewrite (alter_cleaned _ _ _ _ Hk). reflexivity. }
  rewrite (bind_ok _ _ _ _ _ H2).
  erewrite bind_ok
    by (apply (Hget _ (S k)); cbn [world]; apply lookup_putInstance; eauto).
  pose proof (lookup_lt_Some _ _ _ Hk) as Hlt.
  rewrite lookup_app_l by (rewrite length_fmap, length_take; lia).
  rewrite list_lookup_fmap, lookup_take_lt, Hk by lia.
  cbn [fmap option_fmap option_map mbind option_bind set_cleanup
       ef_releaseSignals].
  by destruct (ef_releaseSignals ef).
Qed.

Section UnmountLoop.

Variables (c : nat) (h : Hooks) (i : ComponentInstance).

Local Abbreviation efs := (byCursor (effects h)).

Hypothesis Hframe :
  forall g w, g ∈ unmountCalls efs ->
    instances (call_callback U g w).2 !! c = instances w !! c.

Lemma unmountCalls_elem k ef g :
  efs !! k = Some ef ->
  ef_cleanup ef = Some g \/ ef_releaseSignals ef = Some g ->
  g ∈ unmountCalls efs.
Proof using Type.
  intros Hk Hg. unfold unmountCalls. apply list_elem_of_bind.
  exists ef. split; [|by eapply list_elem_of_lookup_2].
  apply elem_of_app. destruct Hg as [-> | ->]; [left|right]; apply list_elem_of_here.
Qed.

(** The rounds [k], ..., [k + n - 1] of the loop, when the
    [releaseSignals] callbacks of these rounds return normally. *)
Lemma unmount_rounds n : forall k m,
  (k + n <= length efs)%nat ->
  instances (world m) !! c = Some (cleanedUp k h i) ->
  (forall j ef g w, (k <= j < k + n)%nat -> efs !! j = Some ef ->
     ef_releaseSignals ef = Some g -> (call_callback U g w).1 = Ok tt) ->
  exists m',
    forEach (unmountEffect U c) (seq k n) m = (Ok tt, m')
    /\ instances (world m') !! c = Some (cleanedUp (k + n) h i)
    /\ trace m'
       = trace m ++ (EvCallback <$> unmountCalls (take n (drop k efs))).
Proof using Hframe.
  induction n as [|n IH]; intros k m Hlen Hi Hrel.
  - exists m. rewrite Nat.add_0_r. simpl. by rewrite app_nil_r.
  - destruct (lookup_lt_is_Some_2 efs k) as [ef Hk]; [lia|].
    destruct (unmountEffect_run c k h i ef m Hi Hk) as (m1 & Hi1 & Ht1 & Hrun).
    { intros f w Hf. apply Hframe. eapply unmountCalls_elem; eauto. }
    assert (Hstep : exists m2,
              unmountEffect U c k m = (Ok tt, m2)
              /\ instances (world m2) !! c = Some (cleanedUp (S k) h i)
              /\ trace m2
                 = trace m1 ++ (EvCallback <$> option_list (ef_releaseSignals ef))).
    { rewrite Hrun. destruct (ef_releaseSignals ef) as [g|] eqn:Hg.
      - rewrite callCallback_run, (Hrel k ef g) by (done || lia).
        eexists. split; [reflexivity|]. split; [|reflexivity].
        cbn [world]. rewrite Hframe; [done|].
        eapply unmountCalls_elem; eauto.
      - exists m1. simpl. by rewrite app_nil_r. }
    destruct Hstep as (m2 & Hrun2 & Hi2 & Ht2).
    destruct (IH (S k) m2) as (m' & Hloop & Hi' & Ht'); [lia|done| |].
    { intros j ef' g w Hj. apply Hrel. lia. }
    exists m'. split; [|split].
    + simpl. by rewrite (bind_ok _ _ _ _ _ Hrun2).
    + by rewrite Nat.add_succ_r.
    + rewrite Ht', Ht2, Ht1, (drop_S _ _ _ Hk). simpl.
      unfold unmountCalls. simpl. rewrite !fmap_app, <-!app_assoc. done.
Qed.

End UnmountLoop.

(** X9. Unmounting a mounted instance runs every callback its effect
    records hold: for each record in order its [cleanup], then its
    [releaseSignals], each once and nothing else.  A [cleanup] that
    throws stops nothing, the remaining callbacks are still called.
    When every [releaseSignals] returns normally, [unmountComponent]
    returns normally and the instance ends torn down.  (The callbacks
    here do not write to the instance that is being unmounted;
    [safeExec] is a try/catch.) *)
Theorem unmountComponent_runs_cleanups c m i h :
  instances (world m) !! c = Some i ->
  isMounted i = true ->
  hooks i = Some h ->
  (forall g w, g ∈ unmountCalls (byCursor (effects h)) ->
     instances (call_callback U g w).2 !! c = instances w !! c) ->
  (forall ef g w, ef ∈ byCursor (effects h) ->
     ef_releaseSignals ef = Some g -> (call_callback U g w).1 = Ok tt) ->
  exists m',
    unmountComponent U c m = (Ok tt, m')
    /\ trace m'
       = trace m ++ (EvCallback <$> unmountCalls (byCursor (effects h)))
    /\ instances (world m') !! c = Some (gcInstance (set_isMounted false i)).
Proof.
  intros Hi Hm Hh Hframe Hrel.
  set (m0 := mkMachine
               (set_idsToExcludeFromUpdate
                  (Set_add (idsToExcludeFromUpdate (world m)) (id i)) (world m))
               (trace m)).
  destruct (unmount_rounds c h i Hframe (length (byCursor (effects h))) 0 m0)
    as (m1 & Hloop & Hi1 & Ht1); [done| | |].
  { by rewrite cleanedUp_0. }
  { intros j ef g w _ Hj. apply Hrel. by eapply list_elem_of_lookup_2. }
  rewrite drop_0, take_ge in Ht1 by done. simpl in Hi1.
  eexists. split; [|split].
  - unfold unmountComponent.
    rewrite (bind_ok _ _ _ _ _ (getInstance_ok _ _ _ Hi)), Hm, Hh. simpl.
    unfold bind at 1, exclude, modify. fold m0.
    rewrite (bind_ok _ _ _ _ _ Hloop).
    rewrite (bind_ok _ _ _ _ _ (updInstance_ok _ _ _ _ Hi1)).
    eapply helpGc_ok; [cbn [world]; apply lookup_putInstance; eauto|].
    reflexivity.
  - exact Ht1.
  - cbn [world]. rewrite lookup_putInstance; [reflexivity|].
    rewrite lookup_putInstance; eauto.
Qed.

(** X10. [unmountComponent] is not fault-isolated against
    [releaseSignals].  When the [releaseSignals] of an effect record
    throws, [unmountComponent] throws at that point: the records after
    it are not dealt with, and the instance is left mounted, with its
    hooks, but with the [cleanup] of every record up to that one
    cleared, so that a later unmount does not call those again. *)
Theorem unmountComponent_release_throws c m i h pre ef post g :
  instances (world m) !! c = Some i ->
  isMounted i = true ->
  hooks i = Some h ->
  byCursor (effects h) = pre ++ ef :: post ->
  (forall g w, g ∈ unmountCalls (byCursor (effects h)) ->
     instances (call_callback U g w).2 !! c = instances w !! c) ->
  (forall ef g w, ef ∈ pre ->
     ef_releaseSignals ef = Some g -> (call_callback U g w).1 = Ok tt) ->
  ef_releaseSignals ef = Some g ->
  (forall w, (call_callback U g w).1 = Throw) ->
  exists m',
    unmountComponent U c m = (Throw, m')
    /\ trace m'
       = trace m
         ++ (EvCallback <$> unmountCalls pre ++ option_list (ef_cleanup ef) ++ [g])
    /\ instances (world m') !! c = Some (cleanedUp (S (length pre)) h i)
    /\ isMounted (cleanedUp (S (length pre)) h i) = true.
Proof.
  intros Hi Hm Hh Hefs Hframe Hrel Hg Hthrow.
  set (m0 := mkMachine
               (set_idsToExcludeFromUpdate
                  (Set_add (idsToExcludeFromUpdate (world m)) (id i)) (world m))
               (trace m)).
  destruct (unmount_rounds c h i Hframe (length pre) 0 m0)
    as (m1 & Hloop & Hi1 & Ht1).
  { rewrite Hefs, length_app. simpl. lia. }
  { by rewrite cleanedUp_0. }
  { intros j ef' g' w Hj Hef'. apply Hrel.
    rewrite Hefs, lookup_app_l in Hef' by lia.
    by eapply list_elem_of_lookup_2. }
  rewrite drop_0, Hefs, take_app_length in Ht1. simpl in Hi1.
  assert (Hk : byCursor (effects h) !! length pre = Some ef).
  { by rewrite Hefs, list_lookup_middle. }
  destruct (unmountEffect_run c (length pre) h i ef m1 Hi1 Hk)
    as (m2 & Hi2 & Ht2 & Hrun).
  { intros f w Hf. apply Hframe. eapply unmountCalls_elem; eauto. }
  rewrite Hg, callCallback_run, Hthrow in Hrun.
  eexists. split; [|split; [|split]].
  - unfold unmountComponent.
    rewrite (bind_ok _ _ _ _ _ (getInstance_ok _ _ _ Hi)), Hm, Hh. simpl.
    unfold bind at 1, exclude, modify. fold m0.
    erewrite bind_throw; [reflexivity|].
    rewrite Hefs, length_app. simpl length.
    rewrite seq_app, forEach_app, (bind_ok _ _ _ _ _ Hloop). simpl.
    by rewrite (bind_throw _ _ _ _ Hrun).
  - cbn [trace]. rewrite Ht2, Ht1. simpl.
    by rewrite !fmap_app, <-!app_assoc.
  - cbn [world]. rewrite Hframe; [done|].
    eapply unmountCalls_elem; eauto.
  - exact Hm.
Qed.

(** *** An instance after its teardown *)

Lemma prepareComponentForFrame_hookless c m :
  hookless c m -> prepareComponentForFrame c m = (Throw, m).
Proof.
  intros (i & Hi & Hm & Hh). unfold prepareComponentForFrame.
  by rewrite (bind_ok _ _ _ _ _ (getInstance_ok _ _ _ Hi)), Hm, Hh.
Qed.

Lemma prepareComponentForFrame_keeps_hookless c c' :
  keeps (hookless c) (prepareComponentForFrame c').
Proof.
  destruct (decide (c' = c)) as [->|Hne].
  - intros m r m' H Hc.
    rewrite (prepareComponentForFrame_hookless c m Hc) in H. by injection H as <- <-.
  - keeps_with ltac:(idtac).
    match goal with
    | H : hookless _ _ |- _ => destruct H as (j & Hj & Hm & Hh)
    end.
    exists j. cbn [world] in *. by rewrite lookup_putInstance_ne.
Qed.

Lemma prepareAll_hookless c l : forall m,
  hookless c m -> c ∈ l -> exists m2, prepareAll l m = (Throw, m2).
Proof.
  unfold prepareAll. induction l as [|x l IH]; intros m Hc Hin.
  - by apply elem_of_nil in Hin.
  - simpl. unfold bind at 1, bind at 1, log. cbn [world trace].
    set (m0 := mkMachine (world m) (trace m ++ [EvPrepare x])).
    assert (Hc0 : hookless c m0) by exact Hc.
    destruct (prepareComponentForFrame x m0) as [[[]|] m1] eqn:E; [|eauto].
    apply elem_of_cons in Hin as [->|Hin].
    + by rewrite (prepareComponentForFrame_hookless x m0 Hc0) in E.
    + apply IH; [|done].
      eapply (prepareComponentForFrame_keeps_hookless c x); eauto.
Qed.

(** X11. A torn-down instance (no hooks, not mounted; this is how
    [unmountComponent] leaves it, with [undefined] as the stored output)
    is not protected against reuse.  When the elements of the children
    of its stored output are built without a throw, as the one of
    [undefined] is, [mountComponent] on it returns an element without
    having called any render function; it writes the one error line and
    marks the instance as mounted, still without hooks.  From then on
    [prepareComponentForFrame] throws on that instance, so the write
    phase of every frame pass whose list holds it throws during the
    first loop: no instance of that pass gets its forced update, and the
    layout effects are not run. *)
Theorem torn_down_instance_breaks_the_pass c m i :
  instances (world m) !! c = Some i ->
  hooks i = None ->
  isMounted i = false ->
  Forall (builds (heap (world m)))
    (renderedChildren (heap (world m)) (renderedValue i)) ->
  exists e m1,
    mountComponent U c m = (Ok (Some e), m1)
    /\ trace m1 = trace m
    /\ console (world m1) = console (world m) ++ [renderError (name i)]
    /\ hookless c m1
    /\ prepareComponentForFrame c m1 = (Throw, m1)
    /\ forall l, c ∈ l ->
         exists m2 n,
           runUpdatePassOnRaf_mutation U l m1 = (Throw, m2)
           /\ trace m2 = trace m1 ++ (EvPrepare <$> take n l).
Proof.
  intros Hi Hh Hm Hbuilds.
  set (w1 := set_renderingInstance (Some c)
               (set_idsToExcludeFromUpdate
                  (Set_add (idsToExcludeFromUpdate (world m)) (id i)) (world m))).
  assert (Hout : renderOutcome c i (world m) = (Throw, w1, [])).
  { unfold renderOutcome. by rewrite Hh. }
  destruct (renderComponent_rebuild c m i Throw w1 [] i Hi Hout)
    as (h' & cs & Hrun & _); [done| | |].
  { simpl. by rewrite Hm. }
  { exact Hbuilds. }
  simpl in Hrun. rewrite app_nil_r in Hrun.
  assert (Hmount : exists m1,
            mountComponent U c m = (Ok (Some (length (heap (world m) ++ h'))), m1)
            /\ trace m1 = trace m
            /\ console (world m1) = console (world m) ++ [renderError (name i)]
            /\ hookless c m1).
  { eexists. split; [|split; [|split]].
    - unfold mountComponent. rewrite (bind_ok _ _ _ _ _ Hrun).
      erewrite bind_ok
        by (apply updInstance_ok; cbn [world]; apply lookup_putInstance;
            simpl; eauto).
      erewrite bind_ok
        by (apply getInstance_ok; cbn [world]; apply lookup_putInstance;
            rewrite lookup_putInstance; simpl; eauto).
      unfold ret. simpl. reflexivity.
    - reflexivity.
    - reflexivity.
    - eexists. split; [|split].
      + cbn [world]. apply lookup_putInstance.
        rewrite lookup_putInstance; simpl; eauto.
      + reflexivity.
      + exact Hh. }
  destruct Hmount as (m1 & Hmount & Ht1 & Hcon & Hc).
  exists (length (heap (world m) ++ h')), m1.
  split; [exact Hmount|]. split; [exact Ht1|]. split; [exact Hcon|].
  split; [exact Hc|].
  split; [by apply prepareComponentForFrame_hookless|].
  intros l Hin.
  destruct (prepareAll_hookless c l _ Hc Hin) as (m2 & Hp).
  destruct (prepareAll_trace l _ _ _ Hp) as (n & Ht & _).
  exists m2, n. split; [|exact Ht].
  unfold runUpdatePassOnRaf_mutation. fold (prepareAll l).
  by rewrite (bind_throw _ _ _ _ Hp).
Qed.

(** *** Committing staged state *)

(** X12. [prepareComponentForFrame] is idempotent: after a call that
    returned normally a second call changes nothing.  A call writes to
    nothing but the live values of the state records of its instance:
    every record keeps its place, its staged value and its setter, and
    gets the staged value as live value; the other hooks, the other
    fields of the instance, the other instances, the module variables
    and the record of calls are as before. *)
Theorem prepareComponentForFrame_idempotent c m m1 :
  prepareComponentForFrame c m = (Ok tt, m1) ->
  prepareComponentForFrame c m1 = (Ok tt, m1)
  /\ trace m1 = trace m
  /\ set_instances (instances (world m)) (world m1) = world m
  /\ (forall c', c' <> c ->
        instances (world m1) !! c' = instances (world m) !! c')
  /\ forall i h,
       instances (world m) !! c = Some i ->
       isMounted i = true ->
       hooks i = Some h ->
       exists i1 h1,
         instances (world m1) !! c = Some i1
         /\ hooks i1 = Some h1
         /\ untouched i i1
         /\ set_state (state h) h1 = h
         /\ cursor (state h1) = cursor (state h)
         /\ Forall2 (fun old new =>
                       st_value new = st_nextValue old
                       /\ st_nextValue new = st_nextValue old
                       /\ st_setter new = st_setter old)
              (byCursor (state h)) (byCursor (state h1)).
Proof.
  intros H. pose proof H as H'. unfold prepareComponentForFrame in H'.
  apply bind_inv_ok in H' as (i & m0 & Hg & H').
  apply getInstance_inv in Hg as [-> Hi].
  destruct (isMounted i) eqn:Hm; simpl in H'.
  - destruct (hooks i) as [h|] eqn:Hh; [|discriminate].
    rewrite (updInstance_ok _ _ _ _ Hi) in H'. injection H' as <-.
    cbn [world trace]. split; [|split; [|split; [|split]]].
    + unfold prepareComponentForFrame.
      erewrite bind_ok
        by (apply getInstance_ok; cbn [world]; apply lookup_putInstance; eauto).
      cbn [isMounted set_hooks hooks]. rewrite Hm. simpl.
      erewrite updInstance_ok
        by (cbn [world]; apply lookup_putInstance; eauto).
      cbn [world trace]. rewrite putInstance_putInstance.
      by rewrite commitStateHook_twice.
    + reflexivity.
    + unfold putInstance. simpl. by destruct m as [[] ?].
    + intros c' Hne. by apply lookup_putInstance_ne.
    + intros i' h' Hi' _ Hh'. rewrite Hi in Hi'. injection Hi' as <-.
      rewrite Hh in Hh'. injection Hh' as <-.
      eexists _, _. split; [apply lookup_putInstance; eauto|].
      split; [reflexivity|]. split; [reflexivity|].
      split; [by destruct h|]. split; [reflexivity|]. simpl.
      apply Forall2_fmap_r, Forall_Forall2_diag, Forall_true. done.
  - injection H' as <-. split; [exact H|]. split; [done|].
    split; [by destruct m as [[] ?]|]. split; [done|].
    intros i' h' Hi' Hm'. congruence.
Qed.

(** *** Two drains in a row *)

Lemma drain_drain (q1 q2 : Queue) (enq : FnRef -> list (string * FnRef)) m m' :
  (forall l w, qget q2 (qset q1 l w) = qget q2 w) ->
  (forall f w, qget q2 (call_callback U f w).2 = enqueueAll (qget q2 w) (enq f)) ->
  (drain q1 ;; drain q2) m = (Ok tt, m') ->
  let first := (qget q1 (world m)).*2 in
  let second := (enqueueAll (qget q2 (world m)) (mjoin (enq <$> first))).*2 in
  trace m' = trace m ++ (EvCallback <$> first ++ second).
Proof.
  intros Hind Henq H first second. unfold bind in H.
  rewrite drain_run in H. fold first in H.
  destruct (runCallbacks first (qset q1 [] (world m))) as [[r1 w1] called1] eqn:E1.
  destruct r1 as [[]|]; [|discriminate].
  destruct (runCallbacks_called _ _ _ _ _ E1) as [_ Hall1].
  rewrite (Hall1 eq_refl) in *.
  pose proof (runCallbacks_enqueued q2 enq _ _ _ _ _ Henq E1) as Hq2.
  rewrite Hind in Hq2.
  rewrite drain_run in H. cbn [world trace] in H. rewrite Hq2 in H.
  fold second in H.
  destruct (runCallbacks second (qset q2 [] w1)) as [[r2 w2] called2] eqn:E2.
  injection H as -> <-.
  destruct (runCallbacks_called _ _ _ _ _ E2) as [_ Hall2].
  rewrite (Hall2 eq_refl). cbn [trace]. by rewrite fmap_app, app_assoc.
Qed.

(** X13. The second queue of a flush is read after the callbacks of the
    first have run.  So a layout effect that a layout cleanup enqueues
    is called in the same [runImmediateEffects], after the cleanups and
    in the place its key has in the queue of layout effects; and an
    effect that a cleanup enqueues during the read phase of a frame pass
    is called in that same read phase.  ([enq f] is what the callback
    [f] enqueues into the second queue; the flush here is one whose
    callbacks all return normally.) *)
Theorem cleanups_feed_the_same_flush enq m :
  (forall m',
     (forall f w, pendingLayoutEffects (call_callback U f w).2
                  = enqueueAll (pendingLayoutEffects w) (enq f)) ->
     runImmediateEffects U m = (Ok tt, m') ->
     let cleanups := (pendingLayoutCleanups (world m)).*2 in
     trace m'
     = trace m
       ++ (EvCallback <$>
             cleanups
             ++ (enqueueAll (pendingLayoutEffects (world m))
                   (mjoin (enq <$> cleanups))).*2))
  /\ (forall l m',
        (forall f w, pendingEffects (call_callback U f w).2
                     = enqueueAll (pendingEffects w) (enq f)) ->
        runUpdatePassOnRaf_measure U m = (Ok l, m') ->
        let cleanups := (pendingCleanups (world m)).*2 in
        trace m'
        = trace m
          ++ (EvCallback <$>
                cleanups
                ++ (enqueueAll (pendingEffects (world m))
                      (mjoin (enq <$> cleanups))).*2)).
Proof.
  split.
  - intros m' Henq H.
    apply (drain_drain layoutCleanupsQueue layoutEffectsQueue enq m m');
      [done|exact Henq|].
    rewrite <-H. unfold runImmediateEffects, drain, bind, get, modify. simpl.
    by destruct (forEach _ _ _) as [[[]|] ?].
  - intros l m' Henq H.
    set (m0 := mkMachine
                 (set_instancesPendingUpdate []
                    (set_idsToExcludeFromUpdate []
                       (set_areImmediateEffectsPending true (world m))))
                 (trace m)).
    apply (drain_drain cleanupsQueue effectsQueue enq m0 m');
      [done|exact Henq|].
    revert H.
    unfold runUpdatePassOnRaf_measure, drain, bind, get, modify, ret. simpl.
    destruct (forEach _ _ _) as [[[]|] m1]; [|done].
    destruct (forEach _ _ _) as [[[]|] m2]; [|done].
    by intros [= _ <-].
Qed.

(** *** The flag [areImmediateEffectsPending] *)

Ltac flag_leaf Hcomp Hcb :=
  intros; unfold flagged in *; cbn [world] in *;
  first
    [ rewrite Hcb; assumption
    | rewrite Hcomp; assumption
    | simpl in *; assumption ].

Lemma forEach_callCallback_flagged b fs :
  (forall g w, areImmediateEffectsPending (call_callback U g w).2
               = areImmediateEffectsPending w) ->
  keeps (flagged b) (forEach (callCallback U) fs).
Proof. intros Hcb. keeps_with ltac:(flag_leaf Hcb Hcb). Qed.

(** X14. [willRunImmediateEffects] answers [true] from the start of the
    read phase of a frame pass on: it is [true] when the read phase
    ends, however that is.  It answers [false] once the write phase has
    done its forced updates and run the layout effects.  When one of the
    two loops of the write phase throws, the flag is not reset and the
    layout effects are not run.  (User code cannot write the flag, a
    variable of the module.) *)
Theorem willRunImmediateEffects_bracket :
  (forall f p w, areImmediateEffectsPending (call_Component U f p w).2
                 = areImmediateEffectsPending w) ->
  (forall g w, areImmediateEffectsPending (call_callback U g w).2
               = areImmediateEffectsPending w) ->
  (forall m r m',
     runUpdatePassOnRaf_measure U m = (r, m') ->
     willRunImmediateEffects m' = (Ok true, m'))
  /\ (forall l m m',
        runUpdatePassOnRaf_mutation U l m = (Ok tt, m') ->
        willRunImmediateEffects m' = (Ok false, m'))
  /\ (forall l m m1,
        (prepareAll l ;; forceAll l) m = (Throw, m1) ->
        runUpdatePassOnRaf_mutation U l m = (Throw, m1)
        /\ areImmediateEffectsPending (world m1)
           = areImmediateEffectsPending (world m)).
Proof.
  intros Hcomp Hcb.
  assert (Hwill : forall b m, flagged b m ->
                              willRunImmediateEffects m = (Ok b, m)).
  { intros b m Hb. unfold willRunImmediateEffects, bind, get, ret.
    by rewrite Hb. }
  assert (Hloops : forall b l, keeps (flagged b) (prepareAll l ;; forceAll l)).
  { intros b l. unfold prepareAll, forceAll, forceOne.
    keeps_with ltac:(flag_leaf Hcomp Hcb). }
  split; [|split].
  - intros m r m' H. apply Hwill.
    unfold runUpdatePassOnRaf_measure in H.
    unfold bind at 1, modify in H.
    match type of H with
    | ?rest ?m0 = _ =>
        assert (Hk : keeps (flagged true) rest)
    end.
    { keeps_with ltac:(flag_leaf Hcomp Hcb). }
    eapply Hk; [exact H|]. reflexivity.
  - intros l m m' H. apply Hwill.
    unfold runUpdatePassOnRaf_mutation in H.
    apply bind_inv_ok in H as ([] & m1 & _ & H).
    apply bind_inv_ok in H as ([] & m2 & _ & H).
    apply bind_inv_ok in H as ([] & m3 & Hmod & H).
    injection Hmod as <-.
    assert (Hk : keeps (flagged false) (runImmediateEffects U)).
    { keeps_with ltac:(flag_leaf Hcomp Hcb). }
    eapply Hk; [exact H|]. reflexivity.
  - intros l m m1 H. split.
    + revert H. unfold runUpdatePassOnRaf_mutation, prepareAll, forceAll,
        forceOne, bind.
      destruct (forEach _ l m) as [[[]|] m2]; [|by intros [= <-]].
      destruct (forEach _ l m2) as [[[]|] m3]; [discriminate|by intros [= <-]].
    + exact (Hloops (areImmediateEffectsPending (world m)) l m _ _ H eq_refl).
Qed.

(** *** The laws of [dropEmptyTail] *)

Lemma dropEmptyTail_loop_app children rest n :
  (n <= length children)%nat ->
  dropEmptyTail_loop (children ++ rest) n = dropEmptyTail_loop children n.
Proof.
  induction n as [|n IH]; intros Hn; simpl; [done|].
  rewrite lookup_app_l by lia. rewrite IH by lia. done.
Qed.

Lemma dropEmptyTail_loop_snoc children x :
  dropEmptyTail_loop (children ++ [x]) (length (children ++ [x]))
  = if isEmptyPlaceholder x
    then dropEmptyTail_loop children (length children)
    else Z.of_nat (length children).
Proof.
  rewrite length_app, Nat.add_1_r. simpl.
  rewrite lookup_app_r, Nat.sub_diag by done. simpl.
  destruct (isEmptyPlaceholder x); [|done].
  by apply dropEmptyTail_loop_app.
Qed.

Lemma dropEmptyTail_snoc children x noEmpty :
  dropEmptyTail (children ++ [x]) noEmpty
  = if isEmptyPlaceholder x
    then if noEmpty && bool_decide (children = []) then [x]
         else dropEmptyTail children noEmpty
    else children ++ [x].
Proof.
  unfold dropEmptyTail. rewrite dropEmptyTail_loop_snoc.
  destruct (dropEmptyTail_loop_spec children (length children))
    as (Hi & _ & _); [done|].
  set (i := dropEmptyTail_loop children (length children)) in *.
  rewrite length_app, Nat.add_1_r.
  destruct (isEmptyPlaceholder x).
  - rewrite bool_decide_false by lia.
    destruct (decide (children = [])) as [->|Hne].
    + simpl in *. assert (i = -1) as -> by lia.
      by destruct noEmpty.
    + rewrite (bool_decide_false _ Hne), andb_false_r.
      assert (0 < length children)%nat as Hpos.
      { destruct children; [done|simpl; lia]. }
      unfold slice0. rewrite !take_app_le by lia.
      case_bool_decide as E'; simpl.
      * by rewrite bool_decide_false by lia.
      * case_bool_decide as E''; [|done]. apply take_ge. lia.
  - rewrite bool_decide_true by lia. done.
Qed.

Lemma dropEmptyTail_fixed children noEmpty :
  (forall x, last children = Some x -> isEmptyPlaceholder x = false) ->
  dropEmptyTail children noEmpty = children.
Proof.
  intros Hlast. destruct (last children) as [x|] eqn:E.
  - apply last_Some in E as [l ->].
    rewrite dropEmptyTail_snoc. by rewrite (Hlast x).
  - apply last_None in E as ->. by destruct noEmpty.
Qed.

(** X15. The laws of [dropEmptyTail].  It is determined by what it does
    when a value is added at the end: a value that is not a placeholder
    makes the whole list stay; a placeholder at the end is dropped,
    except that with [noEmpty] the only value of a list is kept.  Its
    result is a prefix of the list, and dropping again changes nothing. *)
Theorem dropEmptyTail_laws children x noEmpty :
  dropEmptyTail (children ++ [x]) noEmpty
  = (if isEmptyPlaceholder x
     then if noEmpty && bool_decide (children = []) then [x]
          else dropEmptyTail children noEmpty
     else children ++ [x])
  /\ dropEmptyTail children noEmpty `prefix_of` children
  /\ dropEmptyTail (dropEmptyTail children noEmpty) noEmpty
     = dropEmptyTail children noEmpty.
Proof.
  split; [apply dropEmptyTail_snoc|].
  pose proof (dropEmptyTail_spec children noEmpty) as Hs.
  destruct (noEmpty && bool_decide (children <> [])
            && forallb isEmptyPlaceholder children) eqn:E.
  - rewrite Hs. split; [apply prefix_take|].
    apply andb_prop in E as [E1 E3]. apply andb_prop in E1 as [-> E2].
    destruct children as [|y l]; [done|].
    simpl in E3. apply andb_prop in E3 as [Hy _].
    simpl. rewrite take_0.
    change [y] with ([] ++ [y]). rewrite dropEmptyTail_snoc, Hy. done.
  - destruct Hs as (dropped & Hd & _ & Hlast). split.
    + rewrite Hd at 2. by apply prefix_app_r.
    + by apply dropEmptyTail_fixed.
Qed.

(** *** Children that are elements *)

Lemma mapM_parents refs m :
  Forall (fun r => parentAt (heap (world m)) r = true) refs ->
  mapM (buildChildElement U) (VObject <$> refs) m = (Ok refs, m).
Proof.
  induction 1 as [|r refs Hr _ IH]; [done|]. simpl.
  erewrite bind_ok; [|rewrite buildChildElement_exact; unfold builtChild;
                      simpl; rewrite Hr; simpl; by rewrite grow_nil].
  by rewrite (bind_ok _ _ _ _ _ IH).
Qed.

Lemma flat_parents h refs :
  Forall (fun r => parentAt h r = true) refs ->
  flat h (VObject <$> refs) = VObject <$> refs.
Proof.
  induction 1 as [|r refs Hr _ IH]; [done|].
  change (flat h (VObject <$> r :: refs))
    with (default [VObject r] (as_array h (VObject r))
          ++ flat h (VObject <$> refs)).
  rewrite IH. unfold parentAt in Hr. simpl.
  by destruct (h !! r) as [[]|].
Qed.

Lemma dropEmptyTail_refs refs noEmpty :
  dropEmptyTail (VObject <$> refs) noEmpty = VObject <$> refs.
Proof.
  apply dropEmptyTail_fixed. intros x Hx.
  rewrite fmap_last in Hx.
  destruct (last refs); simpl in Hx; [|discriminate].
  by injection Hx as <-.
Qed.

(** X16. Children that are elements are shared, not copied.  When every
    child given to [createElement] is a reference to a Tag, Component or
    Fragment element, the element built for a tag or for a Fragment has
    exactly these references as its children, in their order, and it is
    the only object allocated. *)
Theorem createElement_shares_child_elements refs p m :
  Forall (fun r => parentAt (heap (world m)) r = true) refs ->
  (forall tag,
     createElement U (SourceTag tag) p (VObject <$> refs) m
     = (Ok (length (heap (world m))),
        grow [OElement (VirtualElementTag tag (default ∅ p) refs)] m))
  /\ createElement U SourceFragment p (VObject <$> refs) m
     = (Ok (length (heap (world m))),
        grow [OElement (VirtualElementFragment refs)] m).
Proof.
  intros H. split; [intros tag|];
    unfold createElement, bind at 1, get; rewrite (flat_parents _ _ H).
  - unfold buildTagElement.
    by rewrite dropEmptyTail_refs, (bind_ok _ _ _ _ _ (mapM_parents _ _ H)).
  - unfold buildFragmentElement.
    by rewrite dropEmptyTail_refs, (bind_ok _ _ _ _ _ (mapM_parents _ _ H)).
Qed.

(** *** From the render output to the children *)

Lemma renderComponent_rebuild_throws c m i r w2 evs i2 m4 :
  instances (world m) !! c = Some i ->
  renderOutcome c i (world m) = (r, w2, evs) ->
  instances w2 !! c = Some i2 ->
  isMounted i2 && strict_eq (afterRender r i2 w2).1 (renderedValue i2) = false ->
  let nrv := (afterRender r i2 w2).1 in
  let w3 := (afterRender r i2 w2).2 in
  let m3 := mkMachine (putInstance c (set_renderedValue nrv i2) w3)
              (trace m ++ evs) in
  mapM (buildChildElement U) (renderedChildren (heap w3) nrv) m3
  = (Throw, m4) ->
  renderComponent U c m = (Throw, m4).
Proof.
  intros Hi Hout Hi2 Hc nrv w3 m3 Hmap.
  rewrite (renderComponent_unfold c m i r w2 evs i2 Hi Hout Hi2). cbv zeta.
  assert (Hi3 : instances w3 !! c = Some i2).
  { subst w3. by rewrite instances_afterRender. }
  erewrite bind_ok by (apply getInstance_ok; exact Hi3).
  rewrite Hc.
  erewrite bind_ok by (apply updInstance_ok; exact Hi3).
  unfold bind at 1, get. cbn [world trace].
  fold nrv w3 m3.
  apply bind_throw. unfold buildComponentElement.
  erewrite bind_ok
    by (apply getInstance_ok; cbn [world]; apply lookup_putInstance; eauto).
  change (heap (putInstance c (set_renderedValue nrv i2) w3)) with (heap w3)
    in *.
  by apply bind_throw.
Qed.

Lemma renderComponent_rebuild_with c m i r w2 evs i2 cs h' :
  instances (world m) !! c = Some i ->
  renderOutcome c i (world m) = (r, w2, evs) ->
  instances w2 !! c = Some i2 ->
  isMounted i2 && strict_eq (afterRender r i2 w2).1 (renderedValue i2) = false ->
  let nrv := (afterRender r i2 w2).1 in
  let w3 := (afterRender r i2 w2).2 in
  let m3 := mkMachine (putInstance c (set_renderedValue nrv i2) w3)
              (trace m ++ evs) in
  mapM (buildChildElement U)
    (dropEmptyTail (default [nrv] (as_array (heap w3) nrv)) true) m3
  = (Ok cs, grow h' m3) ->
  renderComponent U c m
  = ((rebuilt c nrv i2 w3 h' cs).1,
     mkMachine (rebuilt c nrv i2 w3 h' cs).2 (trace m ++ evs)).
Proof.
  intros Hi Hout Hi2 Hc nrv w3 m3 Hmap.
  rewrite (renderComponent_unfold c m i r w2 evs i2 Hi Hout Hi2). cbv zeta.
  assert (Hi3 : instances w3 !! c = Some i2).
  { subst w3. by rewrite instances_afterRender. }
  erewrite bind_ok by (apply getInstance_ok; exact Hi3).
  rewrite Hc.
  erewrite bind_ok by (apply updInstance_ok; exact Hi3).
  unfold bind at 1, get. cbn [world trace].
  fold nrv w3 m3.
  assert (Hbuild : buildComponentElement U c
                     (default [nrv] (as_array (heap w3) nrv)) m3
                   = (Ok (length (heap w3 ++ h')),
                      grow (h' ++ [OElement (VirtualElementComponent c
                                               (props i2) cs)]) m3)).
  { unfold buildComponentElement.
    erewrite bind_ok
      by (apply getInstance_ok; cbn [world]; apply lookup_putInstance; eauto).
    change (heap (putInstance c (set_renderedValue nrv i2) w3)) with (heap w3)
      in *.
    rewrite (bind_ok _ _ _ _ _ Hmap), alloc_run, grow_grow. done. }
  rewrite (bind_ok _ _ _ _ _ Hbuild).
  erewrite bind_ok
    by (apply updInstance_ok; simpl; apply list_lookup_insert_eq;
        by eapply lookup_lt_Some).
  erewrite bind_ok
    by (apply getInstance_ok; simpl; apply list_lookup_insert_eq;
        rewrite length_insert; by eapply lookup_lt_Some).
  unfold ret, rebuilt. simpl. unfold putInstance. simpl.
  by rewrite list_insert_insert_eq.
Qed.

(** X17. How a render output becomes the children of the new element.
    Let the render function of [c] return [out] (having left the fields
    of the instance other than its hooks alone), the instance being not
    mounted or [out] being not [===] to the stored output.  Then
    [renderComponent] stores [out] and goes on to build a new Component
    element:
    - for an output that is not an array, with exactly one child: a new
      Empty element for [false], [null] or [undefined], the output
      itself when it is a Tag, Component or Fragment element, and a new
      Text element holding [String(out)] otherwise; when [String(out)]
      throws, so does [renderComponent], with [out] stored and no
      element built;
    - for an array of Tag, Component or Fragment elements, with exactly
      these elements as children, and nothing else is allocated; an
      empty array gives an element without children. *)
Theorem render_output_becomes_children c m i h f out w2 i2 :
  instances (world m) !! c = Some i ->
  hooks i = Some h ->
  Component_ i = Some f ->
  call_Component U f (props i) (renderWorld c i h (world m)) = (Ok out, w2) ->
  instances w2 !! c = Some i2 ->
  untouched i i2 ->
  isMounted i && strict_eq out (renderedValue i) = false ->
  (as_array (heap w2) out = None ->
   renderComponent U c m
   = match builtChild (heap w2) out with
     | Ok (objs, x) =>
         ((rebuilt c out i2 w2 objs [x]).1,
          mkMachine (rebuilt c out i2 w2 objs [x]).2
            (trace m ++ [EvComponent c f]))
     | Throw =>
         (Throw,
          mkMachine (putInstance c (set_renderedValue out i2) w2)
            (trace m ++ [EvComponent c f]))
     end)
  /\ (forall refs,
        as_array (heap w2) out = Some (VObject <$> refs) ->
        Forall (fun r => parentAt (heap w2) r = true) refs ->
        renderComponent U c m
        = ((rebuilt c out i2 w2 [] refs).1,
           mkMachine (rebuilt c out i2 w2 [] refs).2
             (trace m ++ [EvComponent c f]))).
Proof.
  intros Hi Hh Hf Hcall Hi2 Hun Hne.
  destruct (untouched_fields _ _ Hun) as (_ & _ & _ & _ & Hrv & Hmo & _).
  pose proof (renderOutcome_call c i h f (world m) _ _ Hh Hf Hcall) as Hout.
  assert (Hc : isMounted i2
               && strict_eq (afterRender (Ok out) i2 w2).1 (renderedValue i2)
               = false).
  { simpl. by rewrite Hmo, Hrv. }
  split.
  - intros Harr.
    assert (Hone : renderedChildren (heap w2) out = [out]).
    { unfold renderedChildren. rewrite Harr. simpl.
      change [out] with ([] ++ [out]). rewrite dropEmptyTail_snoc. simpl.
      by destruct (isEmptyPlaceholder out). }
    destruct (builtChild (heap w2) out) as [[objs x]|] eqn:Hb.
    + apply (renderComponent_rebuild_with c m i (Ok out) w2
               [EvComponent c f] i2 _ _ Hi Hout Hi2 Hc).
      fold (renderedChildren (heap (afterRender (Ok out) i2 w2).2)
              (afterRender (Ok out) i2 w2).1).
      simpl. rewrite Hone. simpl.
      erewrite bind_ok; [reflexivity|].
      rewrite buildChildElement_exact. simpl. by rewrite Hb.
    + apply (renderComponent_rebuild_throws c m i (Ok out) w2
               [EvComponent c f] i2 _ Hi Hout Hi2 Hc).
      simpl. rewrite Hone. simpl.
      apply bind_throw. rewrite buildChildElement_exact. simpl.
      by rewrite Hb.
  - intros refs Harr Hrefs.
    apply (renderComponent_rebuild_with c m i (Ok out) w2 [EvComponent c f] i2
             _ _ Hi Hout Hi2 Hc).
    simpl. rewrite Harr. simpl. rewrite dropEmptyTail_refs, grow_nil.
    by apply mapM_parents.
Qed.

(** *** New instances under the diff predicate *)

Lemma created_facts f p children w :
  let w' := (created f p children w).2 in
  let e := (created f p children w).1 in
  exists i q,
    instances w' = instances w ++ [i]
    /\ Component_ i = Some f
    /\ prop q "key" = prop p "key"
    /\ (length (heap w) <= e)%nat
    /\ heap w' !! e
       = Some (OElement (VirtualElementComponent (length (instances w))
                           (Some q) [])).
Proof.
  unfold created. destruct (parsedChildren (heap w) children) as [h0 v].
  cbv zeta. cbn [fst snd].
  eexists _, (if truthy v then <["children"%string := v]> p else p).
  split; [reflexivity|]. split; [reflexivity|]. split; [|split].
  - destruct (truthy v); [|reflexivity].
    unfold prop. by rewrite lookup_insert_ne.
  - rewrite length_app. lia.
  - cbn [heap set_heap set_instances]. simpl.
    rewrite app_assoc, lookup_app_r by lia.
    by replace (S _ - _)%nat with 1%nat by lia.
Qed.

(** X18. [createElement] never reuses an instance, and
    [hasElementChanged] does not compare instances.  Two calls of
    [createElement] with render functions make two instances and two
    elements; [hasElementChanged] reports the second element as changed
    against the first exactly when the two render functions are
    different or the [key] props given are not [===], whatever the
    children and the other props are. *)
Theorem createElement_twice f1 f2 p1 p2 cs1 cs2 m :
  exists e1 m1 e2 m2 q1 q2,
    let c1 := length (instances (world m)) in
    let el1 := VirtualElementComponent c1 (Some q1) [] in
    let el2 := VirtualElementComponent (S c1) (Some q2) [] in
    createElement U (SourceComponent f1) p1 cs1 m = (Ok e1, m1)
    /\ createElement U (SourceComponent f2) p2 cs2 m1 = (Ok e2, m2)
    /\ e1 <> e2
    /\ heap (world m2) !! e1 = Some (OElement el1)
    /\ heap (world m2) !! e2 = Some (OElement el2)
    /\ hasElementChanged el1 el2 m2
       = (Ok (negb (bool_decide (f1 = f2))
              || strict_neq (prop (default ∅ p1) "key")
                   (prop (default ∅ p2) "key")), m2).
Proof.
  set (fl1 := flat (heap (world m)) cs1).
  destruct (created_facts f1 (default ∅ p1) fl1 (world m))
    as (i1 & q1 & Hin1 & Hf1 & Hk1 & Hle1 & He1).
  set (w1 := (created f1 (default ∅ p1) fl1 (world m)).2) in *.
  set (e1 := (created f1 (default ∅ p1) fl1 (world m)).1) in *.
  assert (Hc1 : createElement U (SourceComponent f1) p1 cs1 m
                = (Ok e1, mkMachine w1 (trace m))).
  { unfold createElement, bind at 1, get.
    by rewrite createComponentInstance_exact. }
  set (fl2 := flat (heap w1) cs2).
  destruct (created_facts f2 (default ∅ p2) fl2 w1)
    as (i2 & q2 & Hin2 & Hf2 & Hk2 & Hle2 & He2).
  set (w2 := (created f2 (default ∅ p2) fl2 w1).2) in *.
  set (e2 := (created f2 (default ∅ p2) fl2 w1).1) in *.
  assert (Hc2 : createElement U (SourceComponent f2) p2 cs2
                  (mkMachine w1 (trace m))
                = (Ok e2, mkMachine w2 (trace m))).
  { unfold createElement, bind at 1, get.
    by rewrite createComponentInstance_exact. }
  assert (Hpre : heap w1 `prefix_of` heap w2)
    by apply allocated_only_created.
  pose proof (lookup_lt_Some _ _ _ He1) as Hlt1.
  exists e1, (mkMachine w1 (trace m)), e2, (mkMachine w2 (trace m)), q1, q2.
  cbv zeta. split; [exact Hc1|]. split; [exact Hc2|].
  split; [lia|]. cbn [world]. split; [|split].
  - destruct Hpre as [k ->]. by apply lookup_app_l_Some.
  - rewrite He2, Hin1, length_app. simpl. by rewrite Nat.add_1_r.
  - unfold hasElementChanged. rewrite bool_decide_false by (by intros []).
    assert (H1 : instances w2 !! length (instances (world m)) = Some i1).
    { rewrite Hin2, Hin1, <-app_assoc. by apply list_lookup_middle. }
    assert (H2 : instances w2 !! S (length (instances (world m))) = Some i2).
    { rewrite Hin2, Hin1. apply list_lookup_middle.
      rewrite length_app. simpl. lia. }
    rewrite (bind_ok _ _ _ _ _ (getInstance_ok _ _ (mkMachine w2 _) H1)).
    rewrite (bind_ok _ _ _ _ _ (getInstance_ok _ _ (mkMachine w2 _) H2)).
    rewrite Hf1, Hf2, Hk1, Hk2.
    rewrite (bool_decide_ext (Some f1 = Some f2) (f1 = f2))
      by (split; congruence).
    by destruct (bool_decide (f1 = f2)).
Qed.

(** *** What the read phase resets *)

Lemma runUpdatePassOnRaf_measure_unfold m :
  runUpdatePassOnRaf_measure U m
  = (drain cleanupsQueue ;; drain effectsQueue ;;
     ret (sort_by (id_of (world m)) (instancesPendingUpdate (world m))))
      (mkMachine
         (set_instancesPendingUpdate []
            (set_idsToExcludeFromUpdate []
               (set_areImmediateEffectsPending true (world m))))
         (trace m)).
Proof.
  unfold runUpdatePassOnRaf_measure, drain, bind, get, modify, ret. simpl.
  destruct (forEach _ _ _) as [[[]|] m1]; [|done].
  by destruct (forEach _ _ _) as [[[]|] ?].
Qed.

(** X19. The read phase of a frame pass empties the pending set and the
    exclusion set before it calls any callback, and does not write them
    again.  So, with callbacks that do not enqueue updates, no instance
    is pending when the read phase ends; this is also so when a callback
    throws, in which case the list of instances to update is lost with
    the pass: the instances are neither updated nor pending any more.
    And with callbacks that render and unmount nothing, no id is
    excluded when the read phase ends, whatever was excluded before. *)
Theorem read_phase_resets m r m' :
  runUpdatePassOnRaf_measure U m = (r, m') ->
  ((forall g w, instancesPendingUpdate (call_callback U g w).2
                = instancesPendingUpdate w) ->
   instancesPendingUpdate (world m') = [])
  /\ ((forall g w, idsToExcludeFromUpdate (call_callback U g w).2
                   = idsToExcludeFromUpdate w) ->
      idsToExcludeFromUpdate (world m') = []).
Proof.
  intros H. rewrite runUpdatePassOnRaf_measure_unfold in H.
  split; intros Hcb.
  - assert (Hk : keeps nonePending
                   (drain cleanupsQueue ;; drain effectsQueue ;;
                    ret (sort_by (id_of (world m))
                           (instancesPendingUpdate (world m))))).
    { unfold drain.
      keeps_with ltac:(intros; unfold nonePending in *; cbn [world] in *;
                       first [rewrite Hcb; assumption
                             | simpl in *; assumption]). }
    eapply Hk; [exact H|]. reflexivity.
  - assert (Hk : keeps noneExcluded
                   (drain cleanupsQueue ;; drain effectsQueue ;;
                    ret (sort_by (id_of (world m))
                           (instancesPendingUpdate (world m))))).
    { unfold drain.
      keeps_with ltac:(intros; unfold noneExcluded in *; cbn [world] in *;
                       first [rewrite Hcb; assumption
                             | simpl in *; assumption]). }
    eapply Hk; [exact H|]. reflexivity.
Qed.

(** *** A render function that throws *)

(** X20. A render function that throws does not disturb a forced
    update.  Let [c] be a mounted instance whose stored output is not
    [NaN] and whose render function throws (having left the fields of
    the instance other than its hooks alone).  Then [renderComponent]
    returns the element the instance had, and all it does after the
    throw is to write the one error line, which names the component;
    [forceUpdateComponent] returns normally in that same state without
    having called [onUpdate] (or does nothing when none is installed). *)
Theorem render_fault_is_isolated c m i h f w2 i2 :
  instances (world m) !! c = Some i ->
  hooks i = Some h ->
  Component_ i = Some f ->
  isMounted i = true ->
  call_Component U f (props i) (renderWorld c i h (world m)) = (Throw, w2) ->
  instances w2 !! c = Some i2 ->
  untouched i i2 ->
  renderedValue i <> VNumber NaN ->
  let m' := mkMachine (set_console (console w2 ++ [renderError (name i)]) w2)
              (trace m ++ [EvComponent c f]) in
  renderComponent U c m = (Ok (_element i), m')
  /\ forceUpdateComponent U c m
     = (Ok tt, match onUpdate i with Some _ => m' | None => m end).
Proof.
  intros Hi Hh Hf Hm Hcall Hi2 Hu Hnan m'.
  destruct (untouched_fields _ _ Hu) as (_ & Hel & Hn & _ & Hrv & Hm2 & Hon).
  assert (Hr : renderComponent U c m = (Ok (_element i), m')).
  { rewrite <-Hel. subst m'. rewrite <-Hn.
    apply (renderComponent_bail c m i Throw w2 [EvComponent c f] i2);
      try done; [by apply (renderOutcome_call c i h)|congruence|].
    simpl. apply strict_eq_refl. congruence. }
  split; [exact Hr|].
  unfold forceUpdateComponent.
  rewrite (bind_ok _ _ _ _ _ (getInstance_ok _ _ _ Hi)), Hm.
  destruct (onUpdate i) as [g|] eqn:Eg; [|reflexivity].
  rewrite bool_decide_true by eauto. simpl.
  rewrite (bind_ok _ _ _ _ _ Hr).
  erewrite bind_ok by (apply getInstance_ok; exact Hi2).
  by rewrite Hel, bool_decide_true.
Qed.

(** *** The language code *)

Lemma includes_cons_false p a s :
  includes p (String a s) = false ->
  startsWith p (String a s) = false /\ includes p s = false.
Proof. simpl. intros H. by apply orb_false_elim in H. Qed.

Lemma String_replace_cons p r a s :
  startsWith p (String a s) = false ->
  String_replace p r (String a s) = String a (String_replace p r s).
Proof.
  intros H.
  change (String_replace p r (String a s))
    with (if startsWith p (String a s)
          then r +:+ slice_from (String.length p) (String a s)
          else String a (String_replace p r s)).
  by rewrite H.
Qed.

Lemma String_replace_without p r s :
  includes p s = false -> String_replace p r s = s.
Proof.
  induction s as [|a s IH]; intros H.
  - simpl in *. apply orb_false_elim in H as [-> _]. done.
  - apply includes_cons_false in H as [H1 H2].
    rewrite (String_replace_cons _ _ _ _ H1). by rewrite IH.
Qed.

(** No occurrence of "-raw" begins in [code] and ends in a "-raw" that
    follows it: the hyphen is the first character of "-raw" only. *)
Lemma startsWith_raw_boundary a code rest :
  startsWith "-raw" (String a code) = false ->
  startsWith "-raw" (String a (code +:+ "-raw" +:+ rest)) = false.
Proof.
  simpl. case_bool_decide as Ha; [|done]. simpl.
  destruct code as [|b [|c [|d code]]]; simpl; intros Hs;
    repeat case_bool_decide; simplify_eq; done.
Qed.

Lemma String_replace_raw code rest :
  includes "-raw" code = false ->
  String_replace "-raw" EmptyString (code +:+ "-raw" +:+ rest) = code +:+ rest.
Proof.
  induction code as [|a code IH]; intros H.
  - reflexivity.
  - apply includes_cons_false in H as [H1 H2].
    change (String a code +:+ "-raw" +:+ rest)
      with (String a (code +:+ "-raw" +:+ rest)).
    rewrite (String_replace_cons _ _ _ _ (startsWith_raw_boundary _ _ _ H1)).
    rewrite IH by done. reflexivity.
Qed.

(** X21. [selectLanguageCode] removes the first "-raw" of the language
    setting and nothing else: a language without "-raw" is returned as
    it is, and a language [code ++ "-raw" ++ rest] whose [code] has no
    "-raw" gives [code ++ rest], a later "-raw" in [rest] staying. *)
Theorem selectLanguageCode_strips_raw {A B C} (global : GlobalState A B C) :
  let lang := language (byKey (settings global)) in
  (includes "-raw" lang = false -> selectLanguageCode global = lang)
  /\ (forall code rest,
        lang = code +:+ "-raw" +:+ rest ->
        includes "-raw" code = false ->
        selectLanguageCode global = code +:+ rest).
Proof.
  intros lang. unfold selectLanguageCode. fold lang. split.
  - apply String_replace_without.
  - intros code rest ->. apply String_replace_raw.
Qed.

End Properties.

(** * The runtime at work *)

Section Examples.

Close Scope Z_scope.

Example dropEmptyTail_example :
  dropEmptyTail [VString "a"; VNull; VString "b"; VNull; VUndefined] false
  = [VString "a"; VNull; VString "b"]
  /\ dropEmptyTail [VNull; VBool false] false = []
  /\ dropEmptyTail [VNull; VBool false] true = [VNull]
  /\ dropEmptyTail [] true = []
  /\ dropEmptyTail [VNumber (Num 0); VString EmptyString] true
     = [VNumber (Num 0); VString EmptyString].
Proof. repeat split; vm_compute; reflexivity. Qed.

Example flat_example :
  flat [OArray [VString "a"; VNull]; OArray []]
    [VObject 0; VString "b"; VObject 1; VObject 2]
  = [VString "a"; VNull; VString "b"; VObject 2].
Proof. vm_compute. reflexivity. Qed.

Example sort_by_example :
  sort_by (id_of worldP) [1; 0; 1; 0] = [0; 0; 1; 1].
Proof. vm_compute. reflexivity. Qed.

Example Map_set_example :
  Map_set (Map_set (Map_set [] "a" 1) "b" 2) "a" 3
  = [("a"%string, 3); ("b"%string, 2)].
Proof. vm_compute. reflexivity. Qed.

Example strict_eq_example :
  strict_eq (VNumber NaN) (VNumber NaN) = false
  /\ strict_eq (VObject 1) (VObject 1) = true
  /\ strict_eq (VObject 1) (VObject 2) = false
  /\ strict_eq VNull VUndefined = false.
Proof. repeat split; vm_compute; reflexivity. Qed.

Example createElement_component_example :
  createElement U0 (SourceComponent 1%nat) None [] mEmpty
  = (Ok 1%nat, mkMachine (worldOf instF heapF) []).
Proof. vm_compute. reflexivity. Qed.

Example mountComponent_example :
  exists m', mountComponent U0 0 mU = (Ok (Some 3%nat), m')
             /\ heap (world m')
                = heapA ++ [OElement (VirtualElementText "x");
                            OElement (VirtualElementComponent 0 (Some ∅) [2%nat])].
Proof. eexists. split; vm_compute; reflexivity. Qed.

(** ** The theorems at these states *)

Lemma renderComponent_bail_out_witness :
  renderComponent U0 0 mA
  = (Ok (Some 1%nat),
     mkMachine (renderWorld 0 instA hooksA (world mA)) [EvComponent 0 0])
  /\ forceUpdateComponent U0 0 mA
     = (Ok tt,
        mkMachine (renderWorld 0 instA hooksA (world mA)) [EvComponent 0 0]).
Proof.
  apply (renderComponent_bail_out U0 0 mA instA hooksA 0%nat (VString "x")
           (renderWorld 0 instA hooksA (world mA))
           (set_hooks (Some (resetCursors hooksA)) instA));
    vm_compute; reflexivity.
Defined.

Lemma hasElementChanged_component_witness :
  exists b,
    hasElementChanged
      (VirtualElementComponent 0 (Some {["key"%string := VString "a"]}) [])
      (VirtualElementComponent 0 (Some {["key"%string := VString "b"]}) [])
      mA = (Ok b, mA)
    /\ b = true.
Proof.
  destruct (hasElementChanged_component mA 0 0 instA instA
              {["key"%string := VString "a"]} {["key"%string := VString "b"]}
              [] []) as (b & Hrun & Hb & _); [vm_compute; reflexivity..|].
  exists b. split; [exact Hrun|]. apply Hb. right. vm_compute. reflexivity.
Defined.

Lemma unmountComponent_idempotent_witness :
  unmountComponent U0 0 mU = (Ok tt, mU)
  /\ unmountComponent U0 0 (unmountComponent U0 0 mA).2
     = (Ok tt, (unmountComponent U0 0 mA).2).
Proof.
  destruct (unmountComponent_idempotent U0 0) as [H1 H2]. split.
  - apply (H1 mU instU); vm_compute; reflexivity.
  - apply (H2 mA). vm_compute. reflexivity.
Defined.

Lemma createElement_children_witness :
  (exists e m' cs,
     createElement U0 (SourceTag "div") None [VString "a"; VNull] mEmpty
     = (Ok e, m')
     /\ heap (world m') !! e = Some (OElement (VirtualElementTag "div" ∅ cs))
     /\ Forall2 (builtFrom (heap (world m'))) [VString "a"] cs)
  /\ (exists e m' cs r,
        createElement U0 SourceFragment None [VNull; VBool false] mEmpty
        = (Ok e, m')
        /\ heap (world m') !! e = Some (OElement (VirtualElementFragment cs))
        /\ cs = [r]
        /\ heap (world m') !! r = Some (OElement VirtualElementEmpty)).
Proof.
  split.
  - destruct (createElement_children U0 None [VString "a"; VNull] mEmpty)
      as (Htag & _ & _).
    destruct (Htag "div"%string) as (e & m' & cs & Hrun & He & Hb & _).
    { repeat constructor; intros h1; eexists; reflexivity. }
    exists e, m', cs. split; [exact Hrun|]. split; [exact He|exact Hb].
  - destruct (createElement_children U0 None [VNull; VBool false] mEmpty)
      as (_ & Hfragment & _).
    destruct Hfragment as (e & m' & cs & Hrun & He & _ & r & Hr & Hempty).
    { repeat constructor; intros h1; eexists; reflexivity. }
    exists e, m', cs, r. split; [exact Hrun|]. split; [exact He|].
    split; [exact Hr|exact Hempty].
Defined.

Lemma mountComponent_mounts_witness :
  exists e cs m' i',
    mountComponent U0 0 mF = (Ok (Some e), m')
    /\ instances (world m') !! 0 = Some i'
    /\ isMounted i' = true
    /\ _element i' = Some e
    /\ heap (world m') !! e
       = Some (OElement (VirtualElementComponent 0 (Some ∅) cs))
    /\ renderedValue i' = VUndefined
    /\ console (world m') = [renderError "C"]
    /\ exists x, cs = [x]
                 /\ heap (world m') !! x = Some (OElement VirtualElementEmpty).
Proof.
  destruct (mountComponent_mounts U0 0 mF instF Throw
              (renderWorld 0 instF emptyHooks (world mF)) [EvComponent 0 1]
              (set_hooks (Some (resetCursors emptyHooks)) instF))
    as (e & m' & i' & Hrun & Hi & Hm & He & Hnew);
    [vm_compute; reflexivity..|left; split; reflexivity|].
  destruct Hnew as (x & cs & -> & Hh & _ & Hthrow); [reflexivity|].
  destruct Hthrow as (Hrv & Hc & Hx); [reflexivity..|].
  exists x, cs, m', i'. repeat (split; [assumption|]). exact Hx.
Defined.


Lemma drain_calls_the_snapshot_witness :
  exists m',
    runImmediateEffects U0 mQ = (Ok tt, m')
    /\ trace m' = [EvCallback 7]
    /\ pendingLayoutCleanups (world m') = [("k"%string, 8)].
Proof.
  destruct (drain_calls_the_snapshot U0) as (Hcode & _ & Hdrain).
  destruct (Hdrain layoutCleanupsQueue mQ (Ok tt)
              (drain U0 layoutCleanupsQueue mQ).2)
    as (called & Ht & _ & Hall & _ & Henq).
  { apply list_elem_of_lookup_2 with 2. reflexivity. }
  { vm_compute. reflexivity. }
  exists (drain U0 layoutCleanupsQueue mQ).2. split; [|split].
  - rewrite Hcode. vm_compute. reflexivity.
  - rewrite Ht, (Hall eq_refl). vm_compute. reflexivity.
  - etransitivity;
      [apply (Henq (fun g => match g with 7 => [("k"%string, 8)] | _ => [] end))|].
    + intros [|[|[|[|[|[|[|[|g]]]]]]]] w; reflexivity.
    + rewrite (Hall eq_refl). vm_compute. reflexivity.
Defined.

Lemma frame_pass_order_witness :
  runUpdatePassOnRaf_measure U0 mP = (Ok [0; 1], (runUpdatePassOnRaf_measure U0 mP).2)
  /\ (exists m', runUpdatePassOnRaf_mutation U0 [0; 1] mX = (Ok tt, m')
                 /\ trace m' = [EvPrepare 0; EvPrepare 1; EvForceUpdate 0;
                                EvComponent 0 0])
  /\ (exists i1 h1,
        instances (world (prepareAll [0; 1] mW).2) !! 0 = Some i1
        /\ preparedFrom instV i1
        /\ hooks i1 = Some h1
        /\ byCursor (state h1)
           = [mkStateHook (VNumber (Num 2)) (VNumber (Num 2)) (Some 3)])
  /\ instances (world (prepareAll [0; 1] mW).2) !! 1 = Some instW
  /\ forceAll U0 ([0] ++ 1 :: []) mX = forceAll U0 ([0] ++ []) mX.
Proof.
  destruct (frame_pass_order U0) as (_ & Hsort & Htrace & Hcommit & Hskip).
  split; [|split; [|split; [|split]]].
  - destruct (Hsort [1; 0; 1] mP [0; 1] (runUpdatePassOnRaf_measure U0 mP).2)
      as (Hnd & Hel & Hs); vm_compute; reflexivity.
  - destruct (Htrace [0; 1] mX (Ok tt) (runUpdatePassOnRaf_mutation U0 [0; 1] mX).2)
      as (n & t' & forced & Ht & _); [vm_compute; reflexivity|].
    eexists. split; vm_compute; reflexivity.
  - destruct (Hcommit [0; 1] mW (prepareAll [0; 1] mW).2 0 instV)
      as (i1 & Hi1 & Hin & _); [vm_compute; reflexivity..|].
    exists i1. eexists. split; [exact Hi1|].
    split; [apply Hin; [apply list_elem_of_here|reflexivity]|].
    vm_compute in Hi1. injection Hi1 as <-. split; reflexivity.
  - destruct (Hcommit [0; 1] mW (prepareAll [0; 1] mW).2 1 instW)
      as (i1 & Hi1 & _ & Hout); [vm_compute; reflexivity..|].
    rewrite Hi1. f_equal. apply Hout. by right.
  - apply (Hskip [0] 1 [] mX (forceAll U0 [0] mX).2 instB).
    + vm_compute. reflexivity.
    + vm_compute. reflexivity.
    + vm_compute. apply list_elem_of_here.
Defined.

Lemma unmounted_instance_is_inert_witness :
  (prepareComponentForFrame 0 mU = (Ok tt, mU)
   /\ forceUpdateComponent U0 0 mU = (Ok tt, mU))
  /\ (1%Z ∈ idsToExcludeFromUpdate (world (unmountComponent U0 0 mA).2)
      /\ unmounted 0 (world (unmountComponent U0 0 mA).2))
  /\ (forall f, EvComponent 0 f ∉ trace (runUpdatePassOnRaf_mutation U0 [0] mU).2).
Proof.
  destruct (unmounted_instance_is_inert U0 0) as (Hnoop & Hexcl & Hpass).
  split; [|split].
  - apply Hnoop. exists instU. split; reflexivity.
  - destruct (Hexcl mA instA (Ok tt) (unmountComponent U0 0 mA).2)
      as [Hin Hun].
    + intros [|[|[|[|[|[|[|[|g]]]]]]]] w x Hx; exact Hx.
    + reflexivity.
    + reflexivity.
    + vm_compute. reflexivity.
    + split; [exact Hin|]. by apply Hun.
  - destruct (Hpass [0] mU (runUpdatePassOnRaf_mutation U0 [0] mU).1
                (runUpdatePassOnRaf_mutation U0 [0] mU).2)
      as (_ & evs & Ht & Hevs).
    + intros [|f] p w Hu; exact Hu.
    + intros [|[|[|[|[|[|[|[|g]]]]]]]] w Hu; exact Hu.
    + exists instU. split; reflexivity.
    + by destruct (runUpdatePassOnRaf_mutation U0 [0] mU).
    + intros f. rewrite Ht. simpl. apply Hevs.
Defined.

(** ** Where a claim fails *)

(** C6 as stated fails.  A tag built from placeholders only has no child
    at all, not one Empty element; and a render function source gets its
    flattened children as they are, trailing placeholder included, while
    its element is built without children. *)
Lemma createElement_keeps_no_Empty :
  (exists e m' el,
     createElement U0 (SourceTag "div") None [VNull; VBool false] mEmpty
     = (Ok e, m')
     /\ heap (world m') !! e = Some (OElement el)
     /\ el = VirtualElementTag "div" ∅ []
     /\ ~ exists r, children_of el = [r]
                    /\ heap (world m') !! r = Some (OElement VirtualElementEmpty))
  /\ (exists e m' i,
        createElement U0 (SourceComponent 0) None [VString "a"; VNull] mEmpty
        = (Ok e, m')
        /\ heap (world m') !! e
           = Some (OElement (VirtualElementComponent 0 (props i) []))
        /\ instances (world m') !! 0 = Some i
        /\ props i = Some {["children"%string := VObject 0]}
        /\ heap (world m') !! 0 = Some (OArray [VString "a"; VNull]))
  /\ (exists e m' i,
        createElement U0 (SourceComponent 0) None [VNumber (Num 0)] mEmpty
        = (Ok e, m')
        /\ heap (world m') !! e
           = Some (OElement (VirtualElementComponent 0 (props i) []))
        /\ instances (world m') !! 0 = Some i
        /\ props i = Some ∅).
Proof.
  split; [|split].
  - eexists _, _, _. split; [vm_compute; reflexivity|].
    split; [vm_compute; reflexivity|]. split; [reflexivity|].
    intros (r & Hr & _). discriminate.
  - eexists _, _, _. split; [vm_compute; reflexivity|].
    repeat split; vm_compute; reflexivity.
  - eexists _, _, _. split; [vm_compute; reflexivity|].
    repeat split; vm_compute; reflexivity.
Qed.

(** C10 as stated fails.  The render function of the new instance of
    [mO] returns an object of which [String] throws.  [mountComponent]
    throws with it, from [buildTextElement]: the output is stored, no
    element is built, and the instance is not mounted. *)
Lemma mountComponent_String_throws :
  exists m' i',
    mountComponent U2 0 mO = (Throw, m')
    /\ instances (world m') !! 0 = Some i'
    /\ isMounted i' = false
    /\ renderedValue i' = VObject 0
    /\ _element i' = _element instO
    /\ heap (world m') = heap (world mO).
Proof.
  eexists _, _. split; [vm_compute; reflexivity|].
  split; [vm_compute; reflexivity|]. repeat split.
Qed.

(** C2 as stated fails.  The pending instance of [mS] is not mounted.
    The pass calls [prepareComponentForFrame] on it, which returns at
    its guard: the staged value 2 is not copied, the live value still is
    0 after the pass. *)
Lemma frame_pass_leaves_unmounted :
  exists m1 m2 i2 h2 hook2,
    runUpdatePassOnRaf_measure U0 mS = (Ok [0], m1)
    /\ runUpdatePassOnRaf_mutation U0 [0] m1 = (Ok tt, m2)
    /\ trace m2 = [EvPrepare 0; EvForceUpdate 0]
    /\ instances (world m2) !! 0 = Some i2
    /\ hooks i2 = Some h2
    /\ byCursor (state h2) !! 0 = Some hook2
    /\ st_nextValue hook2 = VNumber (Num 2)
    /\ st_value hook2 = VNumber (Num 0)
    /\ st_value hook2 <> st_nextValue hook2.
Proof.
  eexists _, _, _, _, _. split; [vm_compute; reflexivity|].
  split; [vm_compute; reflexivity|]. split; [vm_compute; reflexivity|].
  split; [vm_compute; reflexivity|]. split; [reflexivity|].
  split; [reflexivity|]. split; [reflexivity|]. split; [reflexivity|].
  discriminate.
Qed.


(** C3. The mounted instance of [mN] has [NaN] as its stored output and
    a render function that throws.  [renderComponent] writes the one
    line to the console and takes the stored output as the new one; but
    [NaN === NaN] is false, so it does not return the element the
    instance had, number 1: it builds the elements 2 and 3 and the
    instance ends with element 3.  [forceUpdateComponent] therefore
    calls [onUpdate]. *)
Theorem renderComponent_throw_NaN :
  exists m' i',
    renderComponent U0 0 mN = (Ok (Some 3), m')
    /\ _element instN = Some 1
    /\ isMounted instN = true
    /\ console (world m') = [renderError "C"]
    /\ instances (world m') !! 0 = Some i'
    /\ renderedValue i' = VNumber NaN
    /\ _element i' = Some 3
    /\ heap (world m')
       = heapN ++ [OElement (VirtualElementText "NaN");
                   OElement (VirtualElementComponent 0 (Some ∅) [2])]
    /\ trace (forceUpdateComponent U0 0 mN).2
       = [EvComponent 0 1; EvOnUpdate 0 9].
Proof.
  eexists _, _. split; [vm_compute; reflexivity|].
  repeat split; vm_compute; reflexivity.
Qed.

(** ** The further properties at these states *)

Lemma hasElementChanged_same_element_witness :
  hasElementChanged
    (VirtualElementTag "div" {["key"%string := VNumber NaN]} [])
    (VirtualElementTag "div" {["key"%string := VNumber NaN]} []) mA
  = (Ok true, mA)
  /\ hasElementChanged (VirtualElementComponent 0 (Some ∅) [0])
       (VirtualElementComponent 0 (Some ∅) [0]) mA
     = (Ok false, mA).
Proof.
  split.
  - rewrite (hasElementChanged_same_element
               (VirtualElementTag "div" {["key"%string := VNumber NaN]} []) mA)
      by (vm_compute; reflexivity).
    vm_compute. reflexivity.
  - rewrite (hasElementChanged_same_element
               (VirtualElementComponent 0 (Some ∅) [0]) mA)
      by (vm_compute; reflexivity).
    vm_compute. reflexivity.
Defined.


Lemma ids_stay_fresh_witness :
  ids_fresh (world (mountComponent U0 0 mU).2)
  /\ (exists e m' i,
        createElement U0 (SourceComponent 0) None [] mP = (Ok e, m')
        /\ instances (world m') = [instA; instB] ++ [i]
        /\ Forall (fun j => (id j < id i)%Z) [instA; instB])
  /\ exists e m' i,
       createElement U0 (SourceComponent 0) None [] mMax = (Ok e, m')
       /\ instances (world m') = [instMax] ++ [i]
       /\ id i = id instMax
       /\ lastComponentId (world m') = (2 ^ 53)%Z.
Proof.
  destruct (ids_stay_fresh U0) as (_ & _ & Hmount & _ & _ & _ & Hnew & Hstall).
  { intros f p w H. destruct f; exact H. }
  { intros [|[|[|[|[|[|[|[|g]]]]]]]] w H; exact H. }
  split; [|split].
  3: { destruct (Hstall 0 None [] mMax) as (e & m' & i & E & Hi & Hid & Hc);
         [reflexivity|].
       exists e, m', i. split; [exact E|]. split; [exact Hi|].
       split; [exact Hid|exact Hc]. }
  - apply (Hmount 0 mU (mountComponent U0 0 mU).1 (mountComponent U0 0 mU).2).
    + apply surjective_pairing.
    + split; [apply NoDup_singleton|]. repeat constructor. vm_compute.
      discriminate.
  - assert (E : exists e m',
               createElement U0 (SourceComponent 0) None [] mP = (Ok e, m')).
    { eexists _, _. vm_compute. reflexivity. }
    destruct E as (e & m' & E).
    destruct (Hnew 0 None [] mP e m') as (i & Hi & Hlt).
    + split.
      * repeat constructor; vm_compute; intros H;
          repeat (apply elem_of_cons in H as [H|H]; [discriminate|]);
          by apply elem_of_nil in H.
      * repeat constructor; vm_compute; discriminate.
    + vm_compute. split; [discriminate|reflexivity].
    + exact E.
    + exists e, m', i. split; [exact E|]. split; [exact Hi|exact Hlt].
Defined.

Lemma heap_objects_are_never_written_witness :
  heapA `prefix_of` heap (world (mountComponent U0 0 mU).2)
  /\ heapA `prefix_of` heap (world (runUpdatePassOnRaf_mutation U0 [0] mY).2).
Proof.
  destruct (heap_objects_are_never_written U0 heapA)
    as (_ & _ & Hmount & _ & _ & Hpass).
  { intros f p w H. destruct f; exact H. }
  { intros [|[|[|[|[|[|[|[|g]]]]]]]] w H; exact H. }
  split.
  - apply (Hmount 0 mU (mountComponent U0 0 mU).1 (mountComponent U0 0 mU).2).
    + apply surjective_pairing.
    + exists []. vm_compute. reflexivity.
  - apply (Hpass [0] mY (runUpdatePassOnRaf_mutation U0 [0] mY).1
             (runUpdatePassOnRaf_mutation U0 [0] mY).2).
    + apply surjective_pairing.
    + exists []. vm_compute. reflexivity.
Defined.

Lemma renderComponent_excludes_witness :
  1%Z ∈ idsToExcludeFromUpdate (world (renderComponent U0 0 mA).2)
  /\ forceOne U0 0 (renderComponent U0 0 mA).2
     = (Ok tt, (renderComponent U0 0 mA).2).
Proof.
  apply (renderComponent_excludes U0 0 mA instA (renderComponent U0 0 mA).1).
  - intros f p w x H. destruct f; exact H.
  - intros f p w j H. exists j. destruct f; split; (exact H || reflexivity).
  - reflexivity.
  - apply surjective_pairing.
Defined.

Lemma forceUpdateComponent_calls_onUpdate_witness :
  exists m',
    forceUpdateComponent U0 0 mY = (Ok tt, m')
    /\ trace m' = [EvComponent 0 0; EvOnUpdate 0 9].
Proof.
  destruct (forceUpdateComponent_calls_onUpdate U0 0 mY instY) as [_ H];
    [reflexivity|].
  destruct (H hooksA 0 9 (VString "x")
              (renderWorld 0 instY hooksA (world mY))
              (set_hooks (Some (resetCursors hooksA)) instY))
    as (h' & cs & Hrun); [vm_compute; reflexivity..| | |].
  { intros e0 He0. exists (OElement (VirtualElementComponent 0 (Some ∅) [0])).
    vm_compute in He0. injection He0 as <-. vm_compute. reflexivity. }
  { repeat constructor; intros h1; eexists; reflexivity. }
  exists (forceUpdateComponent U0 0 mY).2. rewrite Hrun. split; reflexivity.
Defined.

Lemma unmountComponent_runs_cleanups_witness :
  exists m',
    unmountComponent U0 0 mE = (Ok tt, m')
    /\ trace m' = [EvCallback 4; EvCallback 5; EvCallback 6]
    /\ instances (world m') !! 0 = Some instG.
Proof.
  destruct (unmountComponent_runs_cleanups U0 0 mE instE hooksE)
    as (m' & Hrun & Ht & Hi); try reflexivity.
  { intros [|[|[|[|[|[|[|[|g]]]]]]]] w _; reflexivity. }
  { intros ef [|[|[|[|[|[|[|[|g]]]]]]]] w _ _; reflexivity. }
  exists m'. split; [exact Hrun|]. split; [exact Ht|exact Hi].
Defined.

Lemma unmountComponent_release_throws_witness :
  exists m' i',
    unmountComponent U1 0 mE = (Throw, m')
    /\ trace m' = [EvCallback 4; EvCallback 5]
    /\ instances (world m') !! 0 = Some i'
    /\ isMounted i' = true
    /\ (ef_cleanup <$> (hooks i' ≫= fun h => byCursor (effects h) !! 0))
       = Some None.
Proof.
  destruct (unmountComponent_release_throws U1 0 mE instE hooksE []
              (mkEffectHook None None (Some 4) (Some 5))
              [mkEffectHook None None (Some 6) None] 5)
    as (m' & Hrun & Ht & Hi & Hm); try reflexivity.
  { intros [|[|[|[|[|[|[|[|g]]]]]]]] w _; reflexivity. }
  { intros ef g w H. by apply elem_of_nil in H. }
  exists m', (cleanedUp 1 hooksE instE).
  split; [exact Hrun|]. split; [exact Ht|]. split; [exact Hi|].
  split; [exact Hm|]. reflexivity.
Defined.

Lemma torn_down_instance_breaks_the_pass_witness :
  exists e m1 m2,
    mountComponent U0 0 mG = (Ok (Some e), m1)
    /\ trace m1 = []
    /\ console (world m1) = [renderError "C"]
    /\ prepareComponentForFrame 0 m1 = (Throw, m1)
    /\ runUpdatePassOnRaf_mutation U0 [0] m1 = (Throw, m2).
Proof.
  destruct (torn_down_instance_breaks_the_pass U0 0 mG instG)
    as (e & m1 & Hrun & Ht & Hc & _ & Hp & Hpass); [reflexivity..| |].
  { repeat constructor; intros h1; eexists; reflexivity. }
  destruct (Hpass [0]) as (m2 & n & Hthrow & _); [apply list_elem_of_here|].
  exists e, m1, m2. repeat (split; [assumption|]). exact Hthrow.
Defined.

Lemma prepareComponentForFrame_idempotent_witness :
  prepareComponentForFrame 0 (prepareComponentForFrame 0 mM).2
  = (Ok tt, (prepareComponentForFrame 0 mM).2)
  /\ trace (prepareComponentForFrame 0 mM).2 = [].
Proof.
  destruct (prepareComponentForFrame_idempotent 0 mM
              (prepareComponentForFrame 0 mM).2) as (H1 & H2 & _).
  { vm_compute. reflexivity. }
  split; [exact H1|exact H2].
Defined.

Lemma cleanups_feed_the_same_flush_witness :
  trace (runImmediateEffects U1 mL).2
  = [EvCallback 3; EvCallback 4; EvCallback 6].
Proof.
  destruct (cleanups_feed_the_same_flush U1
              (fun g => match g with 3 => [("e"%string, 6)] | _ => [] end) mL)
    as [H _].
  rewrite (H (runImmediateEffects U1 mL).2).
  - vm_compute. reflexivity.
  - intros [|[|[|[|[|[|[|[|g]]]]]]]] w; reflexivity.
  - vm_compute. reflexivity.
Defined.

Lemma willRunImmediateEffects_bracket_witness :
  willRunImmediateEffects (runUpdatePassOnRaf_measure U0 mP).2
  = (Ok true, (runUpdatePassOnRaf_measure U0 mP).2)
  /\ willRunImmediateEffects (runUpdatePassOnRaf_mutation U0 [0; 1] mX).2
     = (Ok false, (runUpdatePassOnRaf_mutation U0 [0; 1] mX).2).
Proof.
  destruct (willRunImmediateEffects_bracket U0) as (Hread & Hwrite & _).
  { intros f p w. destruct f; reflexivity. }
  { intros [|[|[|[|[|[|[|[|g]]]]]]]] w; reflexivity. }
  split.
  - apply (Hread mP (runUpdatePassOnRaf_measure U0 mP).1).
    apply surjective_pairing.
  - apply (Hwrite [0; 1] mX). vm_compute. reflexivity.
Defined.

Lemma createElement_shares_child_elements_witness :
  createElement U0 (SourceTag "div") None [VObject 1; VObject 1] mA
  = (Ok 2, grow [OElement (VirtualElementTag "div" ∅ [1; 1])] mA).
Proof.
  destruct (createElement_shares_child_elements U0 [1; 1] None mA) as [H _].
  { repeat constructor. }
  exact (H "div"%string).
Defined.

Lemma render_output_becomes_children_witness :
  (exists m',
     renderComponent U0 0 mU = (Ok (Some 3), m')
     /\ heap (world m')
        = heapA ++ [OElement (VirtualElementText "x");
                    OElement (VirtualElementComponent 0 (Some ∅) [2])])
  /\ exists m' i',
       renderComponent U2 0 mO = (Throw, m')
       /\ heap (world m') = heapF
       /\ instances (world m') !! 0 = Some i'
       /\ renderedValue i' = VObject 0.
Proof.
  split.
  - destruct (render_output_becomes_children U0 0 mU instU hooksA 0
                (VString "x") (renderWorld 0 instU hooksA (world mU))
                (set_hooks (Some (resetCursors hooksA)) instU))
      as [H _]; try (vm_compute; reflexivity).
    eexists. rewrite H by reflexivity. split; vm_compute; reflexivity.
  - destruct (render_output_becomes_children U2 0 mO instO emptyHooks 0
                (VObject 0) (renderWorld 0 instO emptyHooks (world mO))
                (set_hooks (Some (resetCursors emptyHooks)) instO))
      as [H _]; try (vm_compute; reflexivity).
    eexists _, _. rewrite H by reflexivity.
    split; [vm_compute; reflexivity|]. repeat split.
Defined.

Lemma read_phase_resets_witness :
  (runUpdatePassOnRaf_measure U1 mT).1 = Throw
  /\ instancesPendingUpdate (world (runUpdatePassOnRaf_measure U1 mT).2) = []
  /\ idsToExcludeFromUpdate (world (runUpdatePassOnRaf_measure U1 mT).2) = [].
Proof.
  destruct (read_phase_resets U1 mT (runUpdatePassOnRaf_measure U1 mT).1
              (runUpdatePassOnRaf_measure U1 mT).2) as [Hp Hx].
  { apply surjective_pairing. }
  split; [vm_compute; reflexivity|]. split.
  - apply Hp. intros [|[|[|[|[|[|[|[|g]]]]]]]] w; reflexivity.
  - apply Hx. intros [|[|[|[|[|[|[|[|g]]]]]]]] w; reflexivity.
Defined.

Lemma render_fault_is_isolated_witness :
  exists m',
    renderComponent U0 0 mZ = (Ok (Some 1), m')
    /\ forceUpdateComponent U0 0 mZ = (Ok tt, m')
    /\ console (world m') = [renderError "C"]
    /\ trace m' = [EvComponent 0 1].
Proof.
  destruct (render_fault_is_isolated U0 0 mZ instZ hooksA 1
              (renderWorld 0 instZ hooksA (world mZ))
              (set_hooks (Some (resetCursors hooksA)) instZ))
    as [Hr Hf]; try (vm_compute; reflexivity).
  { discriminate. }
  eexists. split; [exact Hr|]. split; [exact Hf|]. split; reflexivity.
Defined.

Lemma selectLanguageCode_strips_raw_witness :
  selectLanguageCode globalR = "pt-br"%string.
Proof.
  destruct (selectLanguageCode_strips_raw globalR) as [_ H].
  apply (H "pt-br" EmptyString)%string; vm_compute; reflexivity.
Defined.

End Examples.
